(** * Mini-golf physics stepping engine (src/scene/Canvas3D.jsx)

    A shallow embedding of the per-frame simulation of [Canvas3D]: the
    motion integrator, the wall and obstacle collision handling, the
    trajectory preview, the aim gesture and the hole-sink sequence.

    Numbers are JavaScript doubles in the source; they are modelled here
    as real numbers ([R]), which is the data model the specification
    uses for [Vector3].  Mutable objects ([THREE.Vector3], the React
    refs) become explicit state that every operation takes and returns;
    where the source mutates a vector in place and then reuses it, the
    embedding threads the mutated value exactly as the source does. *)

From Stdlib Require Import Reals Lra List Bool Arith Lia String.
Import ListNotations.

Local Open Scope R_scope.

(** ** JavaScript helpers *)

(** [a || d] on numbers: [d] when [a] is falsy, that is [0]. *)
Definition jsOr (a d : R) : R :=
  if Req_dec_T a 0 then d else a.

(** Comparisons as booleans, as the [if] conditions of the source. *)
Definition Rltb (a b : R) : bool := if Rlt_dec a b then true else false.
Definition Rleb (a b : R) : bool := if Rle_dec a b then true else false.

(** ** THREE.Vector3 *)

Module Vec3.

Record t : Type := mk { x : R; y : R; z : R }.

Definition zero : t := mk 0 0 0.

Definition add (a b : t) : t := mk (x a + x b) (y a + y b) (z a + z b).
Definition sub (a b : t) : t := mk (x a - x b) (y a - y b) (z a - z b).
Definition subVectors := sub.
Definition addVectors := add.

Definition multiplyScalar (a : t) (s : R) : t := mk (x a * s) (y a * s) (z a * s).

(** [divideScalar(s)] is [multiplyScalar(1 / s)]. *)
Definition divideScalar (a : t) (s : R) : t := multiplyScalar a (1 / s).

Definition addScaledVector (a v : t) (s : R) : t :=
  mk (x a + x v * s) (y a + y v * s) (z a + z v * s).

Definition dot (a b : t) : R := x a * x b + y a * y b + z a * z b.

Definition lengthSq (a : t) : R := x a * x a + y a * y a + z a * z a.
Definition length (a : t) : R := sqrt (lengthSq a).

(** [normalize()] is [divideScalar(length() || 1)]. *)
Definition normalize (a : t) : t := divideScalar a (jsOr (length a) 1).

(** [setLength(l)] is [normalize().multiplyScalar(l)]. *)
Definition setLength (a : t) (l : R) : t := multiplyScalar (normalize a) l.

Definition distanceToSquared (a b : t) : R :=
  let dx := x a - x b in
  let dy := y a - y b in
  let dz := z a - z b in
  dx * dx + dy * dy + dz * dz.
Definition distanceTo (a b : t) : R := sqrt (distanceToSquared a b).

(** [reflect(n)] is [sub(n * (2 * dot(n)))]. *)
Definition reflect (a n : t) : t := sub a (multiplyScalar n (2 * dot a n)).

Definition lerpVectors (v1 v2 : t) (alpha : R) : t :=
  mk (x v1 + (x v2 - x v1) * alpha)
     (y v1 + (y v2 - y v1) * alpha)
     (z v1 + (z v2 - z v1) * alpha).

Definition setX (a : t) (v : R) : t := mk v (y a) (z a).
Definition setY (a : t) (v : R) : t := mk (x a) v (z a).
Definition setZ (a : t) (v : R) : t := mk (x a) (y a) v.

(** [clamp(min, max)], component-wise [max(min, min(max, value))]. *)
Definition clamp (a lo hi : t) : t :=
  mk (Rmax (x lo) (Rmin (x hi) (x a)))
     (Rmax (y lo) (Rmin (y hi) (y a)))
     (Rmax (z lo) (Rmin (z hi) (z a))).

End Vec3.

Definition Vec : Type := Vec3.t.

(** [THREE.MathUtils.clamp]. *)
Definition MathUtils_clamp (v lo hi : R) : R := Rmax lo (Rmin hi v).

(** ** Constants of the component *)

Definition BALL_RADIUS : R := 0.6.
Definition HOLE_RADIUS : R := BALL_RADIUS * 2.
Definition COURSE_SIZE : R := 22.
Definition COURSE_LIMIT : R := COURSE_SIZE / 2 - 0.6.

(** The stationary threshold on the squared speed. *)
Definition EPS : R := 1e-6.

(** The number of preview dots, [trajDots.length]. *)
Definition TRAJ_DOTS : nat := 40.

(** ** Scene objects read by the physics *)

(** A [THREE.Mesh] over a [BoxGeometry]: its position, its yaw
    ([rotation.y]) and the geometry's width, height and depth.  The
    tilt of a ramp mesh ([rotation.x]) is rendering only: no bounding
    box is ever taken of a ramp. *)
Record Mesh : Type := mkMesh {
  position : Vec;
  rotationY : R;
  size : Vec
}.

Definition mesh_setPosition (m : Mesh) (p : Vec) : Mesh :=
  mkMesh p (rotationY m) (size m).

Record Box3 : Type := mkBox3 { bmin : Vec; bmax : Vec }.

(** [new THREE.Box3().setFromObject(mesh)]: the axis-aligned box around
    the eight corners of the geometry after the mesh's yaw and
    translation. *)
Definition Box3_setFromObject (m : Mesh) : Box3 :=
  let hx := Vec3.x (size m) / 2 in
  let hy := Vec3.y (size m) / 2 in
  let hz := Vec3.z (size m) / 2 in
  let c := Rabs (cos (rotationY m)) in
  let s := Rabs (sin (rotationY m)) in
  let e := Vec3.mk (c * hx + s * hz) hy (s * hx + c * hz) in
  mkBox3 (Vec3.sub (position m) e) (Vec3.add (position m) e).

Definition Box3_clampPoint (b : Box3) (p : Vec) : Vec :=
  Vec3.clamp p (bmin b) (bmax b).

Record RampData : Type := mkRampData { width : R; depth : R; height : R }.

(** The entries of [obstacles], tagged by their [type] field. *)
Inductive Obstacle : Type :=
| OBox (mesh : Mesh)
| OMoving (mesh : Mesh) (axis : string) (amplitude speed : R) (basePos : Vec)
| ORotating (mesh : Mesh) (speed : R)
| ORamp (mesh : Mesh) (data : option RampData)
| OWater (center : Vec) (radius : R).

(** [o.data?.field || d] *)
Definition dataOr (data : option RampData) (f : RampData -> R) (d : R) : R :=
  match data with
  | Some r => jsOr (f r) d
  | None => d
  end.

(** ** Simulation state *)

(** [sinkingRef.current]; [start] and [end] are [null] before the first
    sink. *)
Record Sinking : Type := mkSinking {
  active : bool;
  t : R;
  start : option Vec;
  end_ : option Vec
}.

Record State : Type := mkState {
  ballPos : Vec;                (* ballRef.current.position *)
  ballScale : R;                (* ballRef.current.scale, uniform *)
  velocity : Vec;               (* velocityRef.current *)
  sinking : Sinking;            (* sinkingRef.current *)
  holeTriggered : bool;         (* holeTriggeredRef.current *)
  obstacles : list Obstacle;
  obstacleTime : R;
  isAiming : bool;
  dragStart : option Vec;
  holeCompleteCalls : nat;      (* invocations of onHoleComplete *)
  strokes : nat                 (* the parent's stroke counter *)
}.

(** What the effect closure captures for one level load. *)
Record Env : Type := mkEnv {
  level : nat;
  holePosition : Vec;           (* holeRef.current.position *)
  holeDone : bool;              (* the captured [holeDone] prop *)
  onHoleCompleteIsFn : bool;    (* typeof onHoleComplete === "function" *)
  setStrokesIsFn : bool         (* typeof setStrokes === "function" *)
}.

(** ** Trajectory preview: [simulateTrajectory] *)

(** The [for] loop over the preview dots; [n] is the number of
    iterations left. *)
Fixpoint simulateTrajectory_loop (n : nat) (dt localFriction : R)
    (simPos simVel : Vec) : list Vec :=
  match n with
  | O => []
  | S n' =>
      if Rltb (Vec3.lengthSq simVel) EPS then []
      else
        let simPos := Vec3.addScaledVector simPos simVel dt in
        let s := Vec3.length simVel in
        let simVel := Vec3.setLength simVel (Rmax 0 (s - localFriction * dt)) in
        simPos :: simulateTrajectory_loop n' dt localFriction simPos simVel
  end.

(** [start] and [vel] are cloned on entry, so the caller's vectors are
    never written; both branches of the level test set the friction to
    1.5. *)
Definition simulateTrajectory (lvl : nat) (start vel : Vec) : list Vec :=
  let dt := 0.06 in
  let localFriction := if Nat.eqb lvl 4 then 1.5 else 1.5 in
  simulateTrajectory_loop TRAJ_DOTS dt localFriction start vel.

(** ** Aim gesture *)

(** [onPointerDown], with [p] the pointer projected on the ground. *)
Definition onPointerDown (p : Vec) (s : State) : State :=
  if Rltb (Vec3.distanceTo p (ballPos s)) 1.2 then
    mkState (ballPos s) (ballScale s) (velocity s) (sinking s)
            (holeTriggered s) (obstacles s) (obstacleTime s)
            true (Some p) (holeCompleteCalls s) (strokes s)
  else s.

(** [onPointerMove], with [current] the pointer projected on the ground:
    the state after the handler and the positions it gives to the
    preview dots ([None] for the dots when it returns early and leaves
    them as they were).  The handler passes clones to the preview and
    writes only the arrow and the dots.  The outer [None] stands for the
    TypeError of reading a [null] [dragStart]. *)
Definition onPointerMove (lvl : nat) (current : Vec) (s : State)
  : option (State * option (list Vec)) :=
  if negb (isAiming s) then Some (s, None)
  else
    match dragStart s with
    | None => None
    | Some ds =>
        let dir := Vec3.subVectors ds current in
        let length := Rmin (Vec3.length dir) 6 in
        let dir := Vec3.setLength dir length in
        let previewVel := Vec3.multiplyScalar dir 5 in
        let sim := simulateTrajectory lvl (ballPos s) previewVel in
        Some (s, Some (map (fun q => Vec3.setY q BALL_RADIUS) sim))
    end.

(** The vector [onPointerUp] adds to the velocity for the drag
    [dir = dragStart - release]. *)
Definition releaseImpulse (dir : Vec) : Vec :=
  let power := Rmin (Vec3.length dir) 6 in
  Vec3.setLength dir (power * 5).

(** [onPointerUp], with [release] the pointer projected on the ground.
    [None] stands for the TypeError of reading a [null] [dragStart]. *)
Definition onPointerUp (env : Env) (release : Vec) (s : State) : option State :=
  if negb (isAiming s) then Some s
  else
    match dragStart s with
    | None => None
    | Some ds =>
        let dir := Vec3.subVectors ds release in
        let dir := releaseImpulse dir in
        Some (mkState (ballPos s) (ballScale s)
                      (Vec3.add (velocity s) dir) (sinking s)
                      (holeTriggered s) (obstacles s) (obstacleTime s)
                      false (dragStart s) (holeCompleteCalls s)
                      (if setStrokesIsFn env then S (strokes s) else strokes s))
    end.

(** ** Obstacle collisions: [handleObstacleCollisions] *)

Definition sphereIntersectsBox (spherePos : Vec) (radius : R) (boxMesh : Mesh) : bool :=
  let box := Box3_setFromObject boxMesh in
  let closest := Box3_clampPoint box spherePos in
  Rleb (Vec3.distanceTo closest spherePos) radius.

(** One iteration of the loop: the ball position, the velocity and the
    obstacle after it.  Each [dir.multiplyScalar] writes [dir] in place,
    so the value that follows is the scaled one. *)
Definition collideObstacle (o : Obstacle) (ballPos vel : Vec)
  : Vec * Vec * Obstacle :=
  match o with
  | OBox m =>
      if sphereIntersectsBox ballPos BALL_RADIUS m then
        let dir := Vec3.normalize (Vec3.setY (Vec3.subVectors ballPos (position m)) 0) in
        let dir := if Rltb (Vec3.lengthSq dir) 1e-6 then Vec3.mk 1 0 0 else dir in
        let vel := Vec3.reflect vel dir in
        let vel := Vec3.multiplyScalar vel 0.7 in
        let dir := Vec3.multiplyScalar dir 0.04 in
        let ballPos := Vec3.add ballPos dir in
        (ballPos, vel, o)
      else (ballPos, vel, o)
  | OMoving m axis amplitude speed basePos =>
      let dist := Vec3.distanceTo (position m) ballPos in
      let min := BALL_RADIUS + 0.6 in
      if Rltb dist min then
        let dir := Vec3.normalize (Vec3.subVectors ballPos (position m)) in
        let dir := Vec3.multiplyScalar dir 5 in
        let vel := Vec3.add vel dir in
        let dir := Vec3.multiplyScalar dir (-0.04) in
        let m := mesh_setPosition m (Vec3.add (position m) dir) in
        (ballPos, vel, OMoving m axis amplitude speed basePos)
      else (ballPos, vel, o)
  | ORotating m speed =>
      let b := Box3_setFromObject m in
      let closest := Box3_clampPoint b ballPos in
      if Rleb (Vec3.distanceTo closest ballPos) (BALL_RADIUS + 0.02) then
        let dir := Vec3.normalize (Vec3.setY (Vec3.subVectors ballPos (position m)) 0) in
        let vel := Vec3.reflect vel dir in
        let vel := Vec3.multiplyScalar vel 0.75 in
        let dir := Vec3.multiplyScalar dir 0.03 in
        let ballPos := Vec3.add ballPos dir in
        (ballPos, vel, o)
      else (ballPos, vel, o)
  | ORamp m data =>
      let w := dataOr data width 4 in
      let depth := dataOr data depth 6 in
      let center := position m in
      let dx := Rabs (Vec3.x ballPos - Vec3.x center) in
      let dz := Rabs (Vec3.z ballPos - Vec3.z center) in
      if Rltb dx (w / 2 + 0.6) && Rltb dz (depth / 2 + 0.6) then
        let localZ := (Vec3.z ballPos - (Vec3.z center - depth / 2)) / depth in
        let t := MathUtils_clamp localZ 0 1 in
        let height := dataOr data height 1.2 * t in
        let ballPos := Vec3.setY ballPos (BALL_RADIUS + height) in
        let vel := Vec3.setY vel (Vec3.y vel * 0.2) in
        (ballPos, vel, o)
      else (ballPos, vel, o)
  | OWater _ _ => (ballPos, vel, o)
  end.

Fixpoint handleObstacleCollisions (os : list Obstacle) (ballPos vel : Vec)
  : Vec * Vec * list Obstacle :=
  match os with
  | [] => (ballPos, vel, [])
  | o :: rest =>
      let '(ballPos, vel, o') := collideObstacle o ballPos vel in
      let '(ballPos, vel, rest') := handleObstacleCollisions rest ballPos vel in
      (ballPos, vel, o' :: rest')
  end.

(** ** The frame function: [animate] *)

(** The obstacle update at the top of [animate]; [time] is
    [obstacleTime] after it was advanced by [dt]. *)
Definition animateObstacle (time dt : R) (o : Obstacle) : Obstacle :=
  match o with
  | ORotating m speed =>
      ORotating (mkMesh (position m) (rotationY m + jsOr speed 0.6 * dt) (size m)) speed
  | OMoving m axis amplitude speed basePos =>
      let amp := jsOr amplitude 2.2 in
      let spd := jsOr speed 1.0 in
      if String.eqb axis "x" then
        OMoving (mesh_setPosition m
                   (Vec3.setX (position m) (Vec3.x basePos + sin (time * spd) * amp)))
                axis amplitude speed basePos
      else
        OMoving (mesh_setPosition m
                   (Vec3.setZ (position m) (Vec3.z basePos + cos (time * spd) * amp)))
                axis amplitude speed basePos
  | _ => o
  end.

(** The friction of one frame: a fresh local starting at 1.5, raised to
    4.0 on level 4 by every water obstacle whose centre is closer to the
    ball than its radius. *)
Definition waterFriction (ballPos : Vec) (localFriction : R) (o : Obstacle) : R :=
  match o with
  | OWater center radius =>
      let d := Vec3.distanceTo ballPos center in
      if Rltb d radius then 4.0 else localFriction
  | _ => localFriction
  end.

Definition frameFriction (lvl : nat) (os : list Obstacle) (ballPos : Vec) : R :=
  let localFriction := 1.5 in
  if Nat.eqb lvl 4 then fold_left (waterFriction ballPos) os localFriction
  else localFriction.

(** The four wall tests, in source order, on the position and the
    velocity. *)
Definition wallCollisions (p vel : Vec) : Vec * Vec :=
  let limit := COURSE_LIMIT in
  let '(p, vel) :=
    if Rltb (Vec3.x p) (- limit)
    then (Vec3.setX p (- limit), Vec3.setX vel (Vec3.x vel * -0.8)) else (p, vel) in
  let '(p, vel) :=
    if Rltb limit (Vec3.x p)
    then (Vec3.setX p limit, Vec3.setX vel (Vec3.x vel * -0.8)) else (p, vel) in
  let '(p, vel) :=
    if Rltb (Vec3.z p) (- limit)
    then (Vec3.setZ p (- limit), Vec3.setZ vel (Vec3.z vel * -0.8)) else (p, vel) in
  let '(p, vel) :=
    if Rltb limit (Vec3.z p)
    then (Vec3.setZ p limit, Vec3.setZ vel (Vec3.z vel * -0.8)) else (p, vel) in
  (p, vel).

(** Friction decay and translation, the first three statements under
    [vel.lengthSq() > 1e-6]. *)
Definition decayAndTranslate (localFriction dt : R) (p vel : Vec) : Vec * Vec :=
  let speed := Vec3.length vel in
  let decel := localFriction * dt in
  let newSpeed := Rmax 0 (speed - decel) in
  let vel := Vec3.setLength vel newSpeed in
  let p := Vec3.addScaledVector p vel dt in
  (p, vel).

(** "integrate velocity -> position": position and velocity after the
    guarded block. *)
Definition integrate (localFriction dt : R) (p vel : Vec) : Vec * Vec :=
  if Rltb EPS (Vec3.lengthSq vel) then
    let '(p, vel) := decayAndTranslate localFriction dt p vel in
    wallCollisions p vel
  else (p, vel).

(** The body of [if (!sinkingRef.current.active)]. *)
Definition physics (lvl : nat) (dt : R) (os : list Obstacle) (p vel : Vec)
  : Vec * Vec * list Obstacle :=
  let localFriction := frameFriction lvl os p in
  let '(p, vel) := integrate localFriction dt p vel in
  handleObstacleCollisions os p vel.

(** "Hole detection": velocity, sink record and latch after the block. *)
Definition holeDetection (env : Env) (p vel : Vec) (sk : Sinking) (trig : bool)
  : Vec * Sinking * bool :=
  if negb (holeDone env) && negb (active sk) then
    let dist := Vec3.distanceTo p (holePosition env) in
    if negb trig && Rltb dist HOLE_RADIUS then
      (Vec3.zero,
       mkSinking true 0 (Some p) (Some (Vec3.setY (holePosition env) (-0.5))),
       true)
    else (vel, sk, trig)
  else (vel, sk, trig).

(** "Sinking animation": ball position, scale, sink record and number of
    [onHoleComplete] calls after the block; [None] is the TypeError of
    copying a [null] end point. *)
Definition sinkingStep (env : Env) (dt : R) (p : Vec) (scale : R) (sk : Sinking)
    (calls : nat) : option (Vec * R * Sinking * nat) :=
  if active sk then
    let t1 := t sk + dt in
    let total := 1.2 in
    let traw := t1 / total in
    let tt := Rmin 1 traw in
    let eased := tt * tt * (3 - 2 * tt) in
    let '(p, scale) :=
      match start sk, end_ sk with
      | Some a, Some b => (Vec3.lerpVectors a b eased, 1 - 0.7 * eased)
      | _, _ => (p, scale)
      end in
    if Rleb 1 tt then
      match end_ sk with
      | None => None
      | Some e =>
          Some (e, 0.3, mkSinking false t1 (start sk) (end_ sk),
                if onHoleCompleteIsFn env then S calls else calls)
      end
    else Some (p, scale, mkSinking true t1 (start sk) (end_ sk), calls)
  else Some (p, scale, sk, calls).

(** One call of [animate] with frame delta [dt].  The flag waving, the
    confetti, the camera and the rendering read the ball but write none
    of the fields of [State]. *)
Definition animate (env : Env) (dt : R) (s : State) : option State :=
  let obstacleTime := obstacleTime s + dt in
  let os := map (animateObstacle obstacleTime dt) (obstacles s) in
  let '(p, vel, os) :=
    if negb (active (sinking s))
    then physics (level env) dt os (ballPos s) (velocity s)
    else (ballPos s, velocity s, os) in
  let '(vel, sk, trig) := holeDetection env p vel (sinking s) (holeTriggered s) in
  match sinkingStep env dt p (ballScale s) sk (holeCompleteCalls s) with
  | None => None
  | Some (p, scale, sk, calls) =>
      Some (mkState p scale vel sk trig os obstacleTime
                    (isAiming s) (dragStart s) calls (strokes s))
  end.

(** ** Reset: [handleRetry] *)

(** The modal's retry handler; the route does not change, so the scene,
    its obstacles and the running [animate] loop stay as they are.
    [handleNext] writes the same refs before it navigates. *)
Definition handleRetry (env : Env) (s : State) : State :=
  mkState (Vec3.mk 0 BALL_RADIUS 0) 1 Vec3.zero
          (mkSinking false (t (sinking s)) (start (sinking s)) (end_ (sinking s)))
          false (obstacles s) (obstacleTime s)
          (isAiming s) (dragStart s) (holeCompleteCalls s)
          (if setStrokesIsFn env then O else strokes s).

(** ** Events and runs *)

Inductive Event : Type :=
| Frame (dt : R)
| PointerDown (p : Vec)
| PointerMove (p : Vec)
| PointerUp (p : Vec)
| Retry.

Definition step (env : Env) (e : Event) (s : State) : option State :=
  match e with
  | Frame dt => animate env dt s
  | PointerDown p => Some (onPointerDown p s)
  | PointerMove p =>
      match onPointerMove (level env) p s with
      | Some (s', _) => Some s'
      | None => None
      end
  | PointerUp p => onPointerUp env p s
  | Retry => Some (handleRetry env s)
  end.

Fixpoint run (env : Env) (es : list Event) (s : State) : option State :=
  match es with
  | [] => Some s
  | e :: es' =>
      match step env e s with
      | None => None
      | Some s' => run env es' s'
      end
  end.

(** ** Derived definitions used by the statements *)

(** The guarded integration block when no wall test fires: [integrate]
    without its call to [wallCollisions]. *)
Definition integrateFree (localFriction dt : R) (p vel : Vec) : Vec * Vec :=
  if Rltb EPS (Vec3.lengthSq vel) then decayAndTranslate localFriction dt p vel
  else (p, vel).

(** Successive collision-free integration steps, one per frame delta. *)
Fixpoint freeRun (localFriction : R) (dts : list R) (pv : Vec * Vec) : Vec * Vec :=
  match dts with
  | [] => pv
  | dt :: dts' => freeRun localFriction dts' (integrateFree localFriction dt (fst pv) (snd pv))
  end.

(** The position is inside the course on the two horizontal axes. *)
Definition insideCourse (p : Vec) : Prop :=
  - COURSE_LIMIT <= Vec3.x p <= COURSE_LIMIT /\
  - COURSE_LIMIT <= Vec3.z p <= COURSE_LIMIT.

(** The boundary rule in the specification's words: an axis coordinate
    clamped to [[-limit, limit]], and the velocity component of an axis
    that was clamped negated and scaled by 0.8. *)
Definition spec_clampAxis (c : R) : R :=
  Rmax (- COURSE_LIMIT) (Rmin COURSE_LIMIT c).

Definition spec_bounceAxis (c vc : R) : R :=
  if Rltb c (- COURSE_LIMIT) || Rltb COURSE_LIMIT c then vc * -0.8 else vc.

(** A static wall used to exhibit the obstacle nudge: a box of the size
    of level 2's walls, standing 0.9 short of the +x limit. *)
Definition wallNearLimit : Mesh :=
  mkMesh (Vec3.mk (COURSE_LIMIT - 0.9) 0.6 0) 0 (Vec3.mk 0.6 1.2 3.5).

(** The water test of one obstacle, as [waterFriction] performs it. *)
Definition inPond (ballPos : Vec) (o : Obstacle) : bool :=
  match o with
  | OWater center radius => Rltb (Vec3.distanceTo ballPos center) radius
  | _ => false
  end.

(** The distance the specification speaks of, ignoring the vertical
    component. *)
Definition spec_horizontalDistance (a b : Vec) : R :=
  sqrt ((Vec3.x a - Vec3.x b) * (Vec3.x a - Vec3.x b)
        + (Vec3.z a - Vec3.z b) * (Vec3.z a - Vec3.z b)).

(** The obstacles pushed for level 4: the pond and the island. *)
Definition level4_obstacles : list Obstacle :=
  [ OWater (Vec3.mk (-4) 0.02 (-4)) 3.6;
    OBox (mkMesh (Vec3.mk (-4) 0.2 (-2.8)) 0 (Vec3.mk 1.6 0.4 1.6)) ].

(** The moving block pushed for level 2, as created: it oscillates on x
    around its base position. *)
Definition level2_blockBase : Vec := Vec3.mk 0 0.6 (-12).

Definition level2_movingBlock : Obstacle :=
  OMoving (mkMesh level2_blockBase 0 (Vec3.mk 1.2 1.0 1.2))
          "x" 3.0 1.2 level2_blockBase.

(** The state at the end of the setup effect: ball at its spawn point,
    refs at their initial values. *)
Definition initialState (os : list Obstacle) : State :=
  mkState (Vec3.mk 0 BALL_RADIUS 0) 1 Vec3.zero
          (mkSinking false 0 None None) false os 0 false None 0 0.

(** Level 1: hole at (5, 0.05, -3), no obstacle. *)
Definition level1_env : Env :=
  mkEnv 1 (Vec3.mk 5 0.05 (-3)) false true true.

(** The impulse in the specification's words: the drag direction with
    length [min(dragLength, 6)], scaled by 5. *)
Definition spec_impulse (d : Vec) : Vec :=
  Vec3.multiplyScalar (Vec3.setLength d (Rmin (Vec3.length d) 6)) 5.

(** States the handlers can be in: an active sink has its latch set and
    its end point stored, and an aim in progress has its drag start. *)
Definition wf (s : State) : Prop :=
  (active (sinking s) = true ->
     holeTriggered s = true /\ end_ (sinking s) <> None) /\
  (isAiming s = true -> dragStart s <> None).

(** Whether a completion can still happen without a reset: a sink is
    running, or the latch is clear. *)
Definition armed (s : State) : nat :=
  if active (sinking s) || negb (holeTriggered s) then 1 else 0.

Definition isRetry (e : Event) : bool :=
  match e with
  | Retry => true
  | _ => false
  end.

Definition noRetry (es : list Event) : bool := forallb (fun e => negb (isRetry e)) es.

(** A shot on level 1 used in the scenarios: the pointer goes down on
    the ground under the ball and is released 1.46 away, which aims the
    ball along (0.8, 0, -0.6), past the hole at a horizontal distance of
    0.6. *)
Definition shotDown : Vec := Vec3.zero.
Definition shotRelease : Vec := Vec3.mk (-1.168) 0 0.876.
Definition shotVelocity : Vec := Vec3.mk 5.84 0 (-4.38).

(** Where the sink of level 1 ends: the hole centre, 0.5 below ground. *)
Definition level1_sinkEnd : Vec := Vec3.mk 5 (-0.5) (-3).

(** The state with another velocity in [velocityRef]. *)
Definition withVelocity (s : State) (v : Vec) : State :=
  mkState (ballPos s) (ballScale s) v (sinking s) (holeTriggered s)
          (obstacles s) (obstacleTime s) (isAiming s) (dragStart s)
          (holeCompleteCalls s) (strokes s).

(** ** Confetti pool *)

(** One pool slot: the mesh's [visible] flag, position and roll
    ([rotation.z]), the velocity and the remaining life.  The colour and
    the initial tilt ([rotation.x]) are rendering only. *)
Record Confetti : Type := mkConfetti {
  c_visible : bool;
  c_position : Vec;
  c_rotationZ : R;
  c_vel : Vec;
  c_life : R
}.

(** [createConfettiPool(n)]: [n] hidden slots. *)
Definition createConfettiPool (n : nat) : list Confetti :=
  repeat (mkConfetti false Vec3.zero 0 Vec3.zero 0) n.

(** The loop of [spawnConfetti].  [Math.random] is the stream [rnd],
    read from index [k] on in the order of the calls: three for the
    position, three for the velocity, one for the life. *)
Fixpoint spawnConfetti_loop (pos : Vec) (count spawned : nat) (rnd : nat -> R)
    (k : nat) (pool : list Confetti) : list Confetti :=
  match pool with
  | [] => []
  | c :: rest =>
      if (count <=? spawned)%nat then pool
      else if c_visible c then
        c :: spawnConfetti_loop pos count spawned rnd k rest
      else
        let position :=
          Vec3.add pos
            (Vec3.mk ((rnd k - 0.5) * 1.2)
                     (0.4 + rnd (k + 1)%nat * 0.6)
                     ((rnd (k + 2)%nat - 0.5) * 1.2)) in
        let vel :=
          Vec3.mk ((rnd (k + 3)%nat - 0.5) * 4)
                  (3 + rnd (k + 4)%nat * 3)
                  ((rnd (k + 5)%nat - 0.5) * 4) in
        mkConfetti true position (c_rotationZ c) vel (1.2 + rnd (k + 6)%nat * 2)
          :: spawnConfetti_loop pos count (S spawned) rnd (k + 7)%nat rest
  end.

Definition spawnConfetti (pos : Vec) (count : nat) (rnd : nat -> R)
    (pool : list Confetti) : list Confetti :=
  spawnConfetti_loop pos count 0 rnd 0 pool.

(** The body of the loop of [updateConfetti]. *)
Definition updateParticle (dt : R) (c : Confetti) : Confetti :=
  if negb (c_visible c) then c
  else
    let vel := Vec3.setY (c_vel c) (Vec3.y (c_vel c) - 9.8 * dt) in
    let position := Vec3.addScaledVector (c_position c) vel dt in
    let rotZ := c_rotationZ c + dt * 4 in
    let life := c_life c - dt in
    if Rleb life 0 || Rltb (Vec3.y position) (-1)
    then mkConfetti false position rotZ vel life
    else mkConfetti true position rotZ vel life.

Definition updateConfetti (dt : R) (pool : list Confetti) : list Confetti :=
  map (updateParticle dt) pool.

(** [updateConfetti] once per frame delta. *)
Definition updatesConfetti (dts : list R) (pool : list Confetti) : list Confetti :=
  fold_left (fun p dt => updateConfetti dt p) dts pool.

Definition visibleCount (pool : list Confetti) : nat :=
  List.length (filter c_visible pool).

Definition hiddenCount (pool : list Confetti) : nat :=
  List.length (filter (fun c => negb (c_visible c)) pool).

(** The sum of a list of frame deltas. *)
Definition sumR (dts : list R) : R := fold_right Rplus 0 dts.

(** One slot through successive updates. *)
Definition updatesParticle (dts : list R) (c : Confetti) : Confetti :=
  fold_left (fun c dt => updateParticle dt c) dts c.

(** The direction a static box pushes the ball in: the horizontal unit
    vector from the box centre to the ball, or +x when the ball is
    exactly above the centre, as [collideObstacle] computes it. *)
Definition boxNormal (ballPos : Vec) (m : Mesh) : Vec :=
  let dir := Vec3.normalize (Vec3.setY (Vec3.subVectors ballPos (position m)) 0) in
  if Rltb (Vec3.lengthSq dir) 1e-6 then Vec3.mk 1 0 0 else dir.

(** The level has no moving block. *)
Definition noMoving (os : list Obstacle) : bool :=
  forallb (fun o => match o with OMoving _ _ _ _ _ => false | _ => true end) os.

(** ** The levels *)

(** The four rotating planks of level 3, [i] from 0 to 3. *)
Definition level3_plank (i : nat) : Obstacle :=
  ORotating (mkMesh (Vec3.mk (-6 + INR i * 3.6) 0.15 (-3 + INR i * -1.2)) 0
                    (Vec3.mk 5.2 0.35 0.9))
            (0.6 + INR i * 0.25).

(** The two ramps of level 5. *)
Definition level5_rampA : Obstacle :=
  ORamp (mkMesh (Vec3.mk (-6) 0.3 2) 0 (Vec3.mk 6 0.6 3))
        (Some (mkRampData 6 3 1.2)).

Definition level5_rampB : Obstacle :=
  ORamp (mkMesh (Vec3.mk 2 0.3 (-0.5)) 0 (Vec3.mk 6 0.6 3))
        (Some (mkRampData 6 3 1.2)).

(** The ramp and the two static walls of level 2. *)
Definition level2_ramp : Obstacle :=
  ORamp (mkMesh (Vec3.mk 0 0.25 (-10)) 0 (Vec3.mk 6 0.5 8))
        (Some (mkRampData 6 8 1.4)).

Definition level2_wallA : Mesh :=
  mkMesh (Vec3.mk 3.2 0.6 (-6)) 0 (Vec3.mk 0.6 1.2 3.5).

Definition level2_wallB : Mesh :=
  mkMesh (Vec3.mk (-2.2) 0.6 (-4.2)) 0 (Vec3.mk 0.6 1.2 3.5).

(** The [obstacles] array as the setup effect fills it for a level. *)
Definition levelObstacles (lvl : nat) : list Obstacle :=
  match lvl with
  | 2%nat => [ level2_ramp; OBox level2_wallA; OBox level2_wallB; level2_movingBlock ]
  | 3%nat =>
      map level3_plank [0%nat; 1%nat; 2%nat; 3%nat] ++
      [ ORamp (mkMesh (Vec3.mk 5 0.25 (-6)) 0 (Vec3.mk 5 0.5 6))
              (Some (mkRampData 5 6 1.2)) ]
  | 4%nat => level4_obstacles
  | 5%nat => [ level5_rampA; level5_rampB ]
  | _ => []
  end.

(** [holePosition] for a level. *)
Definition levelHole (lvl : nat) : Vec :=
  match lvl with
  | 2%nat => Vec3.mk 0 0.05 (-14)
  | 3%nat => Vec3.mk 6 0.05 (-6)
  | 4%nat => Vec3.mk (-5) 0.05 (-4)
  | 5%nat => Vec3.mk 10 0.05 0
  | _ => Vec3.mk 5 0.05 (-3)
  end.

(** A level load whose callbacks are functions and whose captured
    [holeDone] is [false]. *)
Definition levelEnv (lvl : nat) : Env :=
  mkEnv lvl (levelHole lvl) false true true.

(** The easing of the sink, [t * t * (3 - 2 * t)]. *)
Definition smoothstep (x : R) : R := x * x * (3 - 2 * x).

(** The frames of given deltas, as events. *)
Definition frames (dts : list R) : list Event := map Frame dts.

(** The time the frames of an event sequence add up to. *)
Fixpoint frameTime (es : list Event) : R :=
  match es with
  | [] => 0
  | Frame dt :: es' => dt + frameTime es'
  | _ :: es' => frameTime es'
  end.

(** What an obstacle may have become after frames totalling [T]: a box,
    a ramp and a pond are what they were; a plank has only turned, by
    its speed (0.6 when the speed is 0) times [T]; a moving block has
    only been translated. *)
Definition evolved (T : R) (o o' : Obstacle) : Prop :=
  match o, o' with
  | OBox m, OBox m' => m' = m
  | ORamp m d, ORamp m' d' => m' = m /\ d' = d
  | OWater c r, OWater c' r' => c' = c /\ r' = r
  | ORotating m sp, ORotating m' sp' =>
      position m' = position m /\ size m' = size m /\ sp' = sp /\
      rotationY m' = rotationY m + jsOr sp 0.6 * T
  | OMoving m ax amp sp bp, OMoving m' ax' amp' sp' bp' =>
      rotationY m' = rotationY m /\ size m' = size m /\
      ax' = ax /\ amp' = amp /\ sp' = sp /\ bp' = bp
  | _, _ => False
  end.

(** An obstacle that cannot push the ball past the -z edge of the
    course: it is no plank, and if it is a box, the -z face of its
    bounding box is at least 0.64 (ball radius plus nudge) inside the
    edge. *)
Definition clearBack (o : Obstacle) : Prop :=
  match o with
  | OBox m => - COURSE_LIMIT + 0.64 <= Vec3.z (bmin (Box3_setFromObject m))
  | ORotating _ _ => False
  | _ => True
  end.

(** A pointer-down event whose ground point is on the ground plane. *)
Definition pointerOnGround (e : Event) : Prop :=
  match e with
  | PointerDown p => Vec3.y p = 0
  | _ => True
  end.

(** ** Staying on the course *)

(** Every component of the position lies within the course limit. *)
Definition inBounds (p : Vec) : Prop :=
  - COURSE_LIMIT <= Vec3.x p <= COURSE_LIMIT /\
  - COURSE_LIMIT <= Vec3.y p <= COURSE_LIMIT /\
  - COURSE_LIMIT <= Vec3.z p <= COURSE_LIMIT.

(** An obstacle that cannot carry the ball past a wall.  A box or a
    plank, at any yaw, reaches no further from its centre than half its
    width plus half its depth on either axis; the ball touches it from
    at most 0.62 away and is pushed by at most 0.04: 0.66 in all, which
    must fit between the obstacle and each wall.  A moving block
    oscillates along x and stays out of the ball's reach behind the -z
    wall.  A ramp lifts the ball by at most its height. *)
Definition clearOfWalls (o : Obstacle) : Prop :=
  match o with
  | OBox m | ORotating m _ =>
      0 <= Vec3.x (size m) /\ 0 <= Vec3.z (size m) /\
      Rabs (Vec3.x (position m)) + (Vec3.x (size m) + Vec3.z (size m)) / 2 + 0.66
        <= COURSE_LIMIT /\
      Rabs (Vec3.z (position m)) + (Vec3.x (size m) + Vec3.z (size m)) / 2 + 0.66
        <= COURSE_LIMIT
  | OMoving m axis _ _ _ =>
      axis = "x"%string /\
      Vec3.z (position m) + (BALL_RADIUS + 0.6) <= - COURSE_LIMIT
  | ORamp _ data =>
      0 <= dataOr data height 1.2 /\
      BALL_RADIUS + dataOr data height 1.2 <= COURSE_LIMIT
  | OWater _ _ => True
  end.

(** A hole the sink can end in without leaving the course, or a hole no
    ball on the course comes near. *)
Definition holeOnCourse (h : Vec) : Prop :=
  (- COURSE_LIMIT <= Vec3.x h <= COURSE_LIMIT /\
   - COURSE_LIMIT <= Vec3.z h <= COURSE_LIMIT) \/
  Vec3.z h + HOLE_RADIUS <= - COURSE_LIMIT.

(** Pointer-down and pointer-up events whose point is on the ground
    plane, as [getMousePointOnGround] returns it. *)
Definition groundPointer (e : Event) : Prop :=
  match e with
  | PointerDown p | PointerUp p => Vec3.y p = 0
  | _ => True
  end.

(** What every state of a run satisfies: the handlers' invariant [wf];
    with no sink running the ball is within the limit on every axis; a
    running sink ends within the limit; the velocity is horizontal; the
    obstacles are clear of the walls; the stored drag start is on the
    ground. *)
Definition onCourse (s : State) : Prop :=
  wf s /\
  (active (sinking s) = false -> inBounds (ballPos s)) /\
  (forall e : Vec, active (sinking s) = true -> end_ (sinking s) = Some e -> inBounds e) /\
  Vec3.y (velocity s) = 0 /\
  Forall clearOfWalls (obstacles s) /\
  (forall ds : Vec, dragStart s = Some ds -> Vec3.y ds = 0).

(** The ball position a frame of [animate] computes before the hole
    detection, when no sink is running: the position after the physics
    update on the obstacles as the frame has just moved them. *)
Definition postPhysics (env : Env) (dt : R) (s : State) : Vec :=
  fst (fst (physics (level env) dt
              (map (animateObstacle (obstacleTime s + dt) dt) (obstacles s))
              (ballPos s) (velocity s))).

(** * Properties *)

(** ** Comparisons *)

Lemma Rltb_true (a b : R) : Rltb a b = true <-> a < b.
Proof. unfold Rltb; destruct (Rlt_dec a b); split; intros; auto; discriminate. Qed.

Lemma Rltb_false (a b : R) : Rltb a b = false <-> b <= a.
Proof.
  unfold Rltb; destruct (Rlt_dec a b); split; intros; auto; try discriminate; lra.
Qed.

Lemma Rleb_true (a b : R) : Rleb a b = true <-> a <= b.
Proof. unfold Rleb; destruct (Rle_dec a b); split; intros; auto; discriminate. Qed.

Lemma Rleb_false (a b : R) : Rleb a b = false <-> b < a.
Proof.
  unfold Rleb; destruct (Rle_dec a b); split; intros; auto; try discriminate; lra.
Qed.


(** ** Square roots and comparisons *)

Lemma sqrt_lt_sq (a r : R) : 0 <= a -> 0 <= r -> (sqrt a < r <-> a < r * r).
Proof.
  intros Ha Hr; split; intro H.
  - rewrite <- (sqrt_sqrt a Ha).
    pose proof (sqrt_pos a). nra.
  - rewrite <- (sqrt_square r Hr).
    apply sqrt_lt_1_alt. lra.
Qed.

Lemma sqrt_le_sq (a r : R) : 0 <= a -> 0 <= r -> (sqrt a <= r <-> a <= r * r).
Proof.
  intros Ha Hr; split; intro H.
  - rewrite <- (sqrt_sqrt a Ha).
    pose proof (sqrt_pos a). nra.
  - rewrite <- (sqrt_square r Hr).
    apply sqrt_le_1_alt. lra.
Qed.

Lemma sqrt_of_square (a r : R) : 0 <= r -> a = r * r -> sqrt a = r.
Proof. intros Hr ->. apply sqrt_square, Hr. Qed.

Lemma jsOr_nonzero (a d : R) : a <> 0 -> jsOr a d = a.
Proof. intro H; unfold jsOr; destruct (Req_dec_T a 0); [contradiction | reflexivity]. Qed.

Lemma jsOr_zero (d : R) : jsOr 0 d = d.
Proof. unfold jsOr; destruct (Req_dec_T 0 0); [reflexivity | contradiction]. Qed.

(** ** Vector lemmas *)

Module Vec3Facts.
Import Vec3.

Lemma eta (a : t) : a = mk (x a) (y a) (z a).
Proof. destruct a; reflexivity. Qed.

Lemma mk_ext (a b c a' b' c' : R) :
  a = a' -> b = b' -> c = c' -> mk a b c = mk a' b' c'.
Proof. intros -> -> ->; reflexivity. Qed.

Lemma lengthSq_nonneg (a : t) : 0 <= lengthSq a.
Proof. unfold lengthSq; nra. Qed.

Lemma length_nonneg (a : t) : 0 <= length a.
Proof. apply sqrt_pos. Qed.

Lemma length_sqr (a : t) : length a * length a = lengthSq a.
Proof. apply sqrt_sqrt, lengthSq_nonneg. Qed.

Lemma length_pos (a : t) : 0 < lengthSq a -> 0 < length a.
Proof. apply sqrt_lt_R0. Qed.

Lemma length_zero : length zero = 0.
Proof. unfold length, lengthSq, zero; simpl. apply sqrt_of_square; [ lra | ring ]. Qed.

Lemma lengthSq_multiplyScalar (a : t) (s : R) :
  lengthSq (multiplyScalar a s) = s * s * lengthSq a.
Proof. unfold lengthSq, multiplyScalar; simpl; ring. Qed.

Lemma length_multiplyScalar (a : t) (s : R) :
  0 <= s -> length (multiplyScalar a s) = s * length a.
Proof.
  intro Hs. unfold length. rewrite lengthSq_multiplyScalar.
  rewrite sqrt_mult; [ | nra | apply lengthSq_nonneg ].
  rewrite sqrt_square by exact Hs. reflexivity.
Qed.

Lemma multiplyScalar_assoc (a : t) (r s : R) :
  multiplyScalar (multiplyScalar a r) s = multiplyScalar a (r * s).
Proof. unfold multiplyScalar; simpl; apply mk_ext; ring. Qed.

Lemma normalize_moving (a : t) :
  0 < lengthSq a -> normalize a = multiplyScalar a (1 / length a).
Proof.
  intro H. unfold normalize, divideScalar.
  rewrite jsOr_nonzero; [ reflexivity | ].
  pose proof (length_pos a H); lra.
Qed.

Lemma normalize_zero : normalize zero = zero.
Proof.
  unfold normalize. rewrite length_zero, jsOr_zero.
  unfold divideScalar, multiplyScalar, zero; simpl. apply mk_ext; ring.
Qed.

Lemma length_normalize (a : t) : 0 < lengthSq a -> length (normalize a) = 1.
Proof.
  intro H. pose proof (length_pos a H) as Hp.
  rewrite normalize_moving by exact H.
  rewrite length_multiplyScalar.
  - field; lra.
  - apply Rlt_le. unfold Rdiv. rewrite Rmult_1_l. apply Rinv_0_lt_compat, Hp.
Qed.

Lemma setLength_moving (a : t) (l : R) :
  0 < lengthSq a -> setLength a l = multiplyScalar a (l / length a).
Proof.
  intro H. pose proof (length_pos a H) as Hp.
  unfold setLength. rewrite normalize_moving by exact H.
  rewrite multiplyScalar_assoc. f_equal. field; lra.
Qed.

Lemma length_setLength (a : t) (l : R) :
  0 < lengthSq a -> 0 <= l -> length (setLength a l) = l.
Proof.
  intros H Hl. unfold setLength.
  rewrite length_multiplyScalar by exact Hl.
  rewrite length_normalize by exact H. ring.
Qed.

Lemma setLength_zero_length (a : t) : setLength a 0 = zero.
Proof. unfold setLength, multiplyScalar, zero. apply mk_ext; ring. Qed.

End Vec3Facts.

(** ** Evaluation tactics *)

(** Decide the real comparisons in the goal by linear arithmetic. *)
Ltac rcompare :=
  unfold Rltb, Rleb;
  repeat (match goal with
          | |- context [Rlt_dec ?a ?b] => destruct (Rlt_dec a b)
          | |- context [Rle_dec ?a ?b] => destruct (Rle_dec a b)
          end; simpl in *; try lra).

Ltac unfold_consts :=
  unfold COURSE_LIMIT, COURSE_SIZE, HOLE_RADIUS, BALL_RADIUS, EPS in *.

(** ** Motion integrator *)

Section Integrator.
Import Vec3 Vec3Facts.

Variables (f dt : R) (p v : Vec).

Lemma integrate_guard_true :
  EPS < lengthSq v ->
  integrate f dt p v =
    (let '(p', v') := decayAndTranslate f dt p v in wallCollisions p' v').
Proof.
  intro H. unfold integrate. rewrite (proj2 (Rltb_true _ _) H). reflexivity.
Qed.

Lemma integrate_guard_false :
  lengthSq v <= EPS -> integrate f dt p v = (p, v).
Proof.
  intro H. unfold integrate. rewrite (proj2 (Rltb_false _ _) H). reflexivity.
Qed.

Lemma integrateFree_guard_false :
  lengthSq v <= EPS -> integrateFree f dt p v = (p, v).
Proof.
  intro H. unfold integrateFree. rewrite (proj2 (Rltb_false _ _) H). reflexivity.
Qed.

Lemma EPS_pos : 0 < EPS.
Proof. unfold EPS; lra. Qed.

Lemma decay_velocity :
  0 < lengthSq v ->
  snd (decayAndTranslate f dt p v) =
    multiplyScalar v (Rmax 0 (length v - f * dt) / length v).
Proof.
  intro H. unfold decayAndTranslate; simpl.
  apply setLength_moving, H.
Qed.

Lemma decay_speed :
  0 < lengthSq v ->
  length (snd (decayAndTranslate f dt p v)) = Rmax 0 (length v - f * dt).
Proof.
  intro H. unfold decayAndTranslate; simpl.
  apply length_setLength; [ exact H | apply Rmax_l ].
Qed.

End Integrator.

(** C3 (amended): for every velocity whose squared length is strictly
    above the stationary epsilon, one integration step with friction [f]
    and frame delta [dt] rescales the velocity by a non-negative factor
    (so its direction is kept) to the speed [max(0, |v| - f*dt)], then
    advances the position by the new velocity times [dt], and only then
    runs the wall tests.  From the origin with velocity (5,0,0),
    friction 1.5 and [dt] = 0.1 the step gives velocity (4.85,0,0), of
    length 4.85, and position (0.485,0,0). *)
Theorem C3_integrate_above_epsilon (f dt : R) (p v : Vec) :
  EPS < Vec3.lengthSq v ->
  let speed' := Rmax 0 (Vec3.length v - f * dt) in
  let v' := Vec3.multiplyScalar v (speed' / Vec3.length v) in
  let p' := Vec3.addScaledVector p v' dt in
  0 <= speed' / Vec3.length v /\
  Vec3.length v' = speed' /\
  decayAndTranslate f dt p v = (p', v') /\
  integrate f dt p v = wallCollisions p' v' /\
  integrate 1.5 0.1 Vec3.zero (Vec3.mk 5 0 0)
    = (Vec3.mk 0.485 0 0, Vec3.mk 4.85 0 0) /\
  Vec3.length (Vec3.mk 4.85 0 0) = 4.85.
Proof.
  intros H speed' v' p'.
  assert (Hsq : 0 < Vec3.lengthSq v) by (pose proof EPS_pos; lra).
  pose proof (Vec3Facts.length_pos v Hsq) as Hlen.
  assert (Hs : 0 <= speed') by apply Rmax_l.
  assert (Hv : snd (decayAndTranslate f dt p v) = v')
    by (apply decay_velocity, Hsq).
  assert (Hd : decayAndTranslate f dt p v = (p', v')).
  { unfold decayAndTranslate in *; simpl in *. subst p'. rewrite Hv. reflexivity. }
  repeat split.
  - apply Rmult_le_pos; [ exact Hs | apply Rlt_le, Rinv_0_lt_compat, Hlen ].
  - rewrite <- Hv. apply decay_speed, Hsq.
  - exact Hd.
  - rewrite integrate_guard_true by exact H. rewrite Hd. reflexivity.
  - assert (L5 : Vec3.length (Vec3.mk 5 0 0) = 5).
    { unfold Vec3.length, Vec3.lengthSq; simpl. apply sqrt_of_square; lra. }
    assert (G : EPS < Vec3.lengthSq (Vec3.mk 5 0 0)).
    { unfold EPS, Vec3.lengthSq; simpl; lra. }
    rewrite integrate_guard_true by exact G.
    unfold decayAndTranslate.
    rewrite Vec3Facts.setLength_moving by (unfold Vec3.lengthSq; simpl; lra).
    rewrite L5.
    rewrite Rmax_right by lra.
    unfold wallCollisions, Vec3.addScaledVector, Vec3.multiplyScalar, Vec3.zero,
      Vec3.setX, Vec3.setZ; simpl.
    unfold_consts. rcompare.
    f_equal; apply Vec3Facts.mk_ext; lra.
  - unfold Vec3.length, Vec3.lengthSq; simpl. apply sqrt_of_square; lra.
Qed.

Lemma C3_integrate_above_epsilon_witness :
  EPS < Vec3.lengthSq (Vec3.mk 5 0 0) /\
  integrate 1.5 0.1 Vec3.zero (Vec3.mk 5 0 0)
    = (Vec3.mk 0.485 0 0, Vec3.mk 4.85 0 0).
Proof.
  assert (G : EPS < Vec3.lengthSq (Vec3.mk 5 0 0)).
  { unfold EPS, Vec3.lengthSq; simpl; lra. }
  split; [ exact G | ].
  exact (proj1 (proj2 (proj2 (proj2 (proj2
    (C3_integrate_above_epsilon 1.5 0.1 Vec3.zero (Vec3.mk 5 0 0) G)))))).
Defined.

(** C3 as stated fails at the threshold itself: the guard of the source
    is [vel.lengthSq() > 1e-6], so a velocity of squared length exactly
    1e-6 is left untouched instead of being slowed to
    [max(0, |v| - f*dt)]. *)
Lemma C3_counterexample_at_epsilon :
  Vec3.lengthSq (Vec3.mk 0.001 0 0) = EPS /\
  integrate 1.5 0.1 Vec3.zero (Vec3.mk 0.001 0 0)
    = (Vec3.zero, Vec3.mk 0.001 0 0) /\
  Vec3.length (snd (integrate 1.5 0.1 Vec3.zero (Vec3.mk 0.001 0 0)))
    <> Rmax 0 (Vec3.length (Vec3.mk 0.001 0 0) - 1.5 * 0.1).
Proof.
  assert (E : Vec3.lengthSq (Vec3.mk 0.001 0 0) = EPS).
  { unfold EPS, Vec3.lengthSq; simpl; lra. }
  assert (L : Vec3.length (Vec3.mk 0.001 0 0) = 0.001).
  { unfold Vec3.length, Vec3.lengthSq; simpl. apply sqrt_of_square; lra. }
  assert (I : integrate 1.5 0.1 Vec3.zero (Vec3.mk 0.001 0 0)
              = (Vec3.zero, Vec3.mk 0.001 0 0)).
  { apply integrate_guard_false. rewrite E. lra. }
  repeat split; [ exact E | exact I | ].
  rewrite I; simpl. rewrite L. rewrite Rmax_left by lra. lra.
Qed.

(** ** Course boundary *)

Lemma COURSE_LIMIT_value : COURSE_LIMIT = 10.4.
Proof. unfold_consts; lra. Qed.

Lemma COURSE_LIMIT_pos : 0 < COURSE_LIMIT.
Proof. rewrite COURSE_LIMIT_value; lra. Qed.

Lemma spec_clampAxis_cases (c : R) :
  spec_clampAxis c =
    if Rltb c (- COURSE_LIMIT) then - COURSE_LIMIT
    else if Rltb COURSE_LIMIT c then COURSE_LIMIT else c.
Proof.
  unfold spec_clampAxis. pose proof COURSE_LIMIT_pos as HL.
  generalize dependent COURSE_LIMIT; intros L HL.
  unfold Rltb. destruct (Rlt_dec c (- L)).
  - rewrite Rmin_right by lra. rewrite Rmax_left by lra. reflexivity.
  - destruct (Rlt_dec L c).
    + rewrite Rmin_left by lra. rewrite Rmax_right by lra. reflexivity.
    + rewrite Rmin_right by lra. rewrite Rmax_right by lra. reflexivity.
Qed.

Lemma wallCollisions_spec (p v : Vec) :
  wallCollisions p v =
    (Vec3.mk (spec_clampAxis (Vec3.x p)) (Vec3.y p) (spec_clampAxis (Vec3.z p)),
     Vec3.mk (spec_bounceAxis (Vec3.x p) (Vec3.x v)) (Vec3.y v)
             (spec_bounceAxis (Vec3.z p) (Vec3.z v))).
Proof.
  destruct p as [px py pz], v as [vx vy vz].
  rewrite !spec_clampAxis_cases.
  unfold wallCollisions, spec_bounceAxis, Vec3.setX, Vec3.setZ; simpl.
  pose proof COURSE_LIMIT_pos as HL.
  generalize dependent COURSE_LIMIT; intros L HL.
  assert (F : Rltb L (- L) = false) by (apply Rltb_false; lra).
  destruct (Rltb px (- L)) eqn:X1; simpl.
  - assert (X2 : Rltb L px = false).
    { apply Rltb_true in X1. apply Rltb_false. lra. }
    rewrite F; simpl.
    destruct (Rltb pz (- L)) eqn:Z1; simpl.
    + rewrite F; reflexivity.
    + destruct (Rltb L pz); reflexivity.
  - destruct (Rltb L px) eqn:X2; simpl.
    + destruct (Rltb pz (- L)) eqn:Z1; simpl.
      * rewrite F; reflexivity.
      * destruct (Rltb L pz); reflexivity.
    + destruct (Rltb pz (- L)) eqn:Z1; simpl.
      * rewrite F; reflexivity.
      * destruct (Rltb L pz); reflexivity.
Qed.

Lemma wallCollisions_inside (p v : Vec) :
  insideCourse (fst (wallCollisions p v)).
Proof.
  rewrite wallCollisions_spec; unfold insideCourse, spec_clampAxis; simpl.
  pose proof COURSE_LIMIT_pos as HL.
  generalize dependent COURSE_LIMIT; intros L HL.
  split.
  - split; [ apply Rmax_l | ].
    apply Rmax_lub; [ lra | apply Rmin_l ].
  - split; [ apply Rmax_l | ].
    apply Rmax_lub; [ lra | apply Rmin_l ].
Qed.

(** The boundary scenario: a ball 0.01 short of the +x limit moving at
    (2,0,0) that crosses the limit within the frame. *)
Lemma integrate_crossing (f dt y0 : R) :
  0.01 < Rmax 0 (2 - f * dt) * dt ->
  integrate f dt (Vec3.mk (COURSE_LIMIT - 0.01) y0 0) (Vec3.mk 2 0 0)
    = (Vec3.mk COURSE_LIMIT y0 0, Vec3.mk (Rmax 0 (2 - f * dt) * -0.8) 0 0).
Proof.
  intro Hx.
  assert (L2 : Vec3.length (Vec3.mk 2 0 0) = 2).
  { unfold Vec3.length, Vec3.lengthSq; simpl. apply sqrt_of_square; lra. }
  assert (G : EPS < Vec3.lengthSq (Vec3.mk 2 0 0)).
  { unfold EPS, Vec3.lengthSq; simpl; lra. }
  rewrite integrate_guard_true by exact G.
  unfold decayAndTranslate.
  rewrite Vec3Facts.setLength_moving by (unfold Vec3.lengthSq; simpl; lra).
  rewrite L2. set (s := Rmax 0 (2 - f * dt)) in *.
  rewrite wallCollisions_spec, !spec_clampAxis_cases.
  unfold Vec3.addScaledVector, Vec3.multiplyScalar, spec_bounceAxis; simpl.
  pose proof COURSE_LIMIT_pos as HL.
  generalize dependent COURSE_LIMIT; intros L HL.
  assert (Hs : 0 <= s) by apply Rmax_l.
  assert (E2 : 2 * (s / 2) = s) by lra.
  assert (E0 : 0 * (s / 2) = 0) by lra.
  rewrite E2, E0.
  assert (Z0 : 0 + 0 * dt = 0) by lra. rewrite Z0.
  rewrite (proj2 (Rltb_true L (L - 0.01 + s * dt))) by lra.
  rewrite (proj2 (Rltb_false (L - 0.01 + s * dt) (- L))) by lra.
  rewrite (proj2 (Rltb_false 0 (- L))) by lra.
  rewrite (proj2 (Rltb_false L 0)) by lra. simpl.
  f_equal; apply Vec3Facts.mk_ext; lra.
Qed.

(** C4 (amended): the wall tests clamp the x and z coordinates
    independently to [[-limit, limit]] and, on each axis that was
    clamped, negate that axis's velocity component and scale it by 0.8.
    They run after friction decay and translation, so a ball at
    [x = limit - 0.01] with velocity (2,0,0) that crosses the boundary
    within a frame of friction [f > 0] and delta [dt > 0] ends with [x]
    exactly [limit] and [v.x] exactly [-0.8 * max(0, 2 - f*dt)], which
    is strictly smaller in magnitude than 1.6. *)
Theorem C4_wall_bounce (f dt y0 : R) (p v : Vec) :
  0 < f -> 0 < dt -> 0.01 < Rmax 0 (2 - f * dt) * dt ->
  wallCollisions p v =
    (Vec3.mk (spec_clampAxis (Vec3.x p)) (Vec3.y p) (spec_clampAxis (Vec3.z p)),
     Vec3.mk (spec_bounceAxis (Vec3.x p) (Vec3.x v)) (Vec3.y v)
             (spec_bounceAxis (Vec3.z p) (Vec3.z v))) /\
  integrate f dt (Vec3.mk (COURSE_LIMIT - 0.01) y0 0) (Vec3.mk 2 0 0)
    = (Vec3.mk COURSE_LIMIT y0 0, Vec3.mk (Rmax 0 (2 - f * dt) * -0.8) 0 0) /\
  -1.6 < Rmax 0 (2 - f * dt) * -0.8 <= 0.
Proof.
  intros Hf Hdt Hx.
  split; [ apply wallCollisions_spec | ].
  split; [ apply integrate_crossing, Hx | ].
  assert (Hfd : 0 < f * dt) by (apply Rmult_lt_0_compat; assumption).
  assert (0 <= Rmax 0 (2 - f * dt)) by apply Rmax_l.
  assert (Rmax 0 (2 - f * dt) < 2) by (apply Rmax_lub_lt; lra).
  lra.
Qed.

Lemma C4_wall_bounce_witness :
  integrate 1.5 0.1 (Vec3.mk (COURSE_LIMIT - 0.01) 0.6 0) (Vec3.mk 2 0 0)
    = (Vec3.mk COURSE_LIMIT 0.6 0, Vec3.mk (Rmax 0 (2 - 1.5 * 0.1) * -0.8) 0 0).
Proof.
  assert (H1 : 0 < 1.5) by lra.
  assert (H2 : 0 < 0.1) by lra.
  assert (H3 : 0.01 < Rmax 0 (2 - 1.5 * 0.1) * 0.1).
  { rewrite Rmax_right by lra. lra. }
  exact (proj1 (proj2
    (C4_wall_bounce 1.5 0.1 0.6 Vec3.zero Vec3.zero H1 H2 H3))).
Defined.

(** C4's scenario as stated fails: the crossing frame applies friction
    before the bounce, so with friction 1.5 and [dt] = 0.1 the ball ends
    at [x = limit] with [v.x = -1.48], not -1.6. *)
Lemma C4_counterexample_scenario :
  integrate 1.5 0.1 (Vec3.mk (COURSE_LIMIT - 0.01) 0.6 0) (Vec3.mk 2 0 0)
    = (Vec3.mk COURSE_LIMIT 0.6 0, Vec3.mk (-1.48) 0 0) /\
  Vec3.x (snd (integrate 1.5 0.1 (Vec3.mk (COURSE_LIMIT - 0.01) 0.6 0)
                 (Vec3.mk 2 0 0))) <> -1.6.
Proof.
  assert (H3 : 0.01 < Rmax 0 (2 - 1.5 * 0.1) * 0.1).
  { rewrite Rmax_right by lra. lra. }
  rewrite (integrate_crossing 1.5 0.1 0.6 H3).
  rewrite Rmax_right by lra. simpl.
  split; [ f_equal; apply Vec3Facts.mk_ext; lra | lra ].
Qed.

(** ** Components of a direction *)

Section NudgeBound.
Import Vec3 Vec3Facts.

Lemma Rabs_le_inv (a b : R) : Rabs a <= b -> - b <= a <= b.
Proof. unfold Rabs; destruct (Rcase_abs a); lra. Qed.

Lemma length_zero_inv (d : t) : length d = 0 -> x d = 0 /\ y d = 0 /\ z d = 0.
Proof.
  intro H. apply sqrt_eq_0 in H; [ | apply lengthSq_nonneg ].
  unfold lengthSq in H.
  assert (x d * x d = 0 /\ y d * y d = 0 /\ z d * z d = 0) as (Hx & Hy & Hz) by nra.
  repeat split; nra.
Qed.

Lemma normalize_components (d : t) :
  Rabs (x (normalize d)) <= 1 /\ Rabs (z (normalize d)) <= 1.
Proof.
  unfold normalize, divideScalar, jsOr.
  destruct (Req_dec_T (length d) 0) as [E | N]; simpl.
  - destruct (length_zero_inv d E) as (-> & _ & ->).
    rewrite !Rmult_0_l, Rabs_R0. lra.
  - pose proof (length_nonneg d) as Hn.
    pose proof (length_sqr d) as Hs. unfold lengthSq in Hs.
    set (l := length d) in *.
    assert (Hl : 0 < l) by lra.
    assert (Hi : 0 < 1 / l) by (unfold Rdiv; rewrite Rmult_1_l; apply Rinv_0_lt_compat, Hl).
    assert (Hil : l * (1 / l) = 1) by (field; lra).
    split; apply Rabs_le; nra.
Qed.

End NudgeBound.

(** ** Position bounds of one physics update *)

Lemma integrate_inside (f dt : R) (p v : Vec) :
  EPS < Vec3.lengthSq v -> insideCourse (fst (integrate f dt p v)).
Proof.
  intro H. rewrite integrate_guard_true by exact H.
  destruct (decayAndTranslate f dt p v) as [p1 v1].
  apply wallCollisions_inside.
Qed.

Lemma physics_unfold (lvl : nat) (dt : R) (os : list Obstacle) (p v : Vec) :
  physics lvl dt os p v =
    handleObstacleCollisions os
      (fst (integrate (frameFriction lvl os p) dt p v))
      (snd (integrate (frameFriction lvl os p) dt p v)).
Proof.
  unfold physics. destruct (integrate _ dt p v); reflexivity.
Qed.

Lemma wallNearLimit_hit :
  sphereIntersectsBox (Vec3.mk COURSE_LIMIT 0.6 0) BALL_RADIUS wallNearLimit = true.
Proof.
  pose proof COURSE_LIMIT_pos as HL.
  unfold sphereIntersectsBox, Box3_setFromObject, Box3_clampPoint, wallNearLimit;
    simpl.
  rewrite cos_0, sin_0, Rabs_R1, Rabs_R0.
  apply Rleb_true.
  unfold Vec3.distanceTo, Vec3.distanceToSquared, Vec3.clamp; simpl.
  set (L := COURSE_LIMIT) in *.
  rewrite (Rmin_left (L - 0.9 + (1 * (0.6 / 2) + 0 * (3.5 / 2))) L) by lra.
  rewrite (Rmax_right (L - 0.9 - (1 * (0.6 / 2) + 0 * (3.5 / 2)))) by lra.
  rewrite (Rmin_right (0.6 + 1.2 / 2) 0.6) by lra.
  rewrite (Rmax_right (0.6 - 1.2 / 2) 0.6) by lra.
  rewrite (Rmin_right (0 + (0 * (0.6 / 2) + 1 * (3.5 / 2))) 0) by lra.
  rewrite (Rmax_right (0 - (0 * (0.6 / 2) + 1 * (3.5 / 2))) 0) by lra.
  unfold BALL_RADIUS. apply sqrt_le_sq; [ nra | lra | nra ].
Qed.

Lemma handleObstacleCollisions_single (o : Obstacle) (p v : Vec) :
  handleObstacleCollisions [o] p v =
    (let '(p', v', o') := collideObstacle o p v in (p', v', [o'])).
Proof.
  simpl. destruct (collideObstacle o p v) as [[p1 v1] o1]. reflexivity.
Qed.

(** ** Friction decay over successive steps *)

Section Decay.
Import Vec3 Vec3Facts.

(** [integrateFree] is [integrate] whenever the translated ball stays
    inside the course. *)
Lemma integrate_no_wall (f dt : R) (p v : Vec) :
  insideCourse (fst (integrateFree f dt p v)) ->
  integrate f dt p v = integrateFree f dt p v.
Proof.
  unfold integrate, integrateFree.
  destruct (Rltb EPS (lengthSq v)); [ | reflexivity ].
  destruct (decayAndTranslate f dt p v) as [p1 v1]; simpl.
  intros [[Hx1 Hx2] [Hz1 Hz2]].
  rewrite wallCollisions_spec, !spec_clampAxis_cases. unfold spec_bounceAxis.
  rewrite (proj2 (Rltb_false (x p1) (- COURSE_LIMIT))) by lra.
  rewrite (proj2 (Rltb_false COURSE_LIMIT (x p1))) by lra.
  rewrite (proj2 (Rltb_false (z p1) (- COURSE_LIMIT))) by lra.
  rewrite (proj2 (Rltb_false COURSE_LIMIT (z p1))) by lra.
  simpl. rewrite <- !eta. reflexivity.
Qed.

Lemma integrateFree_speed (f dt : R) (p v : Vec) :
  EPS < lengthSq v ->
  length (snd (integrateFree f dt p v)) = Rmax 0 (length v - f * dt).
Proof.
  intro H. unfold integrateFree. rewrite (proj2 (Rltb_true _ _) H).
  apply decay_speed. pose proof EPS_pos; lra.
Qed.

Lemma integrateFree_speed_le (f dt : R) (p v : Vec) :
  0 <= f * dt -> length (snd (integrateFree f dt p v)) <= length v.
Proof.
  intro Hfd. destruct (Rlt_le_dec EPS (lengthSq v)) as [H | H].
  - rewrite integrateFree_speed by exact H.
    pose proof (length_nonneg v). apply Rmax_lub; lra.
  - rewrite integrateFree_guard_false by exact H. simpl; lra.
Qed.

Lemma freeRun_speed_le (f : R) (dts : list R) :
  0 < f -> Forall (fun dt => 0 < dt) dts ->
  forall p v, length (snd (freeRun f dts (p, v))) <= length v.
Proof.
  intros Hf Hd. induction Hd as [ | dt dts Hdt _ IH ]; intros p v; simpl.
  - lra.
  - destruct (integrateFree f dt p v) as [p1 v1] eqn:E.
    specialize (IH p1 v1).
    assert (Hfd : 0 <= f * dt) by (apply Rlt_le, Rmult_lt_0_compat; assumption).
    pose proof (integrateFree_speed_le f dt p v Hfd) as H1.
    rewrite E in H1; simpl in H1. lra.
Qed.

Lemma freeRun_frozen (f : R) (dts : list R) (p v : Vec) :
  lengthSq v <= EPS -> freeRun f dts (p, v) = (p, v).
Proof.
  intro H. induction dts as [ | dt dts IH ]; simpl.
  - reflexivity.
  - rewrite integrateFree_guard_false by exact H. exact IH.
Qed.

End Decay.

(** C5 (amended): for every friction [f > 0] and positive frame deltas,
    the speed along collision-free integration steps is never negative
    and never increases.  A step taken with squared speed strictly above
    the epsilon sets the speed to [max(0, |v| - f*dt)], strictly below
    the speed before, and to exactly 0 as soon as [|v| <= f*dt].  Once
    the squared speed is at or below the epsilon the step is skipped and
    the velocity stays exactly what it was for ever: exactly 0 if it
    was 0, but otherwise a small positive speed that never reaches 0. *)
Theorem C5_speed_decay (f : R) (dts : list R) (p v : Vec) :
  0 < f -> Forall (fun dt => 0 < dt) dts ->
  0 <= Vec3.length (snd (freeRun f dts (p, v))) <= Vec3.length v /\
  (forall dt, 0 < dt -> EPS < Vec3.lengthSq v ->
     Vec3.length (snd (integrateFree f dt p v)) = Rmax 0 (Vec3.length v - f * dt) /\
     Vec3.length (snd (integrateFree f dt p v)) < Vec3.length v /\
     (Vec3.length v <= f * dt -> snd (integrateFree f dt p v) = Vec3.zero)) /\
  (Vec3.lengthSq v <= EPS -> snd (freeRun f dts (p, v)) = v) /\
  snd (freeRun f dts (p, Vec3.zero)) = Vec3.zero.
Proof.
  intros Hf Hd. repeat split.
  - apply Vec3Facts.length_nonneg.
  - apply freeRun_speed_le; assumption.
  - apply integrateFree_speed; assumption.
  - rewrite integrateFree_speed by assumption.
    assert (0 < f * dt) by (apply Rmult_lt_0_compat; assumption).
    assert (0 < Vec3.length v).
    { apply Vec3Facts.length_pos. pose proof EPS_pos; lra. }
    apply Rmax_lub_lt; lra.
  - intro Hle. unfold integrateFree.
    rewrite (proj2 (Rltb_true _ _)) by assumption.
    unfold decayAndTranslate; simpl.
    rewrite Rmax_left by lra. apply Vec3Facts.setLength_zero_length.
  - intro H. rewrite freeRun_frozen by exact H. reflexivity.
  - rewrite freeRun_frozen; [ reflexivity | ].
    unfold Vec3.lengthSq, Vec3.zero, EPS; simpl; lra.
Qed.

Lemma C5_speed_decay_witness :
  0 <= Vec3.length (snd (freeRun 1.5 [0.1; 0.1] (Vec3.zero, Vec3.mk 5 0 0)))
    <= Vec3.length (Vec3.mk 5 0 0).
Proof.
  assert (Hf : 0 < 1.5) by lra.
  assert (Hd : Forall (fun dt => 0 < dt) [0.1; 0.1]).
  { repeat constructor; lra. }
  exact (proj1 (C5_speed_decay 1.5 [0.1; 0.1] Vec3.zero (Vec3.mk 5 0 0) Hf Hd)).
Defined.

(** C5 as stated fails: a speed in (0, 0.001] is below the integration
    guard, so it is neither decreased nor brought to 0, whatever the
    number of steps; and a ball that starts at speed 0.1505 lands on
    such a speed (0.0005) after one step of friction 1.5 and
    [dt] = 0.1, and keeps it for ever. *)
Lemma C5_counterexample_stuck :
  (0 < Vec3.length (Vec3.mk 0.0005 0 0) /\
   forall dts : list R,
     Vec3.length (snd (freeRun 1.5 dts (Vec3.zero, Vec3.mk 0.0005 0 0))) = 0.0005) /\
  (EPS < Vec3.lengthSq (Vec3.mk 0.1505 0 0) /\
   forall dts : list R,
     Vec3.length (snd (freeRun 1.5 (0.1 :: dts) (Vec3.zero, Vec3.mk 0.1505 0 0)))
       = 0.0005).
Proof.
  assert (L : Vec3.length (Vec3.mk 0.0005 0 0) = 0.0005).
  { unfold Vec3.length, Vec3.lengthSq; simpl. apply sqrt_of_square; lra. }
  assert (S : Vec3.lengthSq (Vec3.mk 0.0005 0 0) <= EPS).
  { unfold EPS, Vec3.lengthSq; simpl; lra. }
  split; split.
  - rewrite L; lra.
  - intro dts. rewrite freeRun_frozen by exact S. exact L.
  - unfold EPS, Vec3.lengthSq; simpl; lra.
  - intro dts. simpl freeRun.
    assert (G : EPS < Vec3.lengthSq (Vec3.mk 0.1505 0 0)).
    { unfold EPS, Vec3.lengthSq; simpl; lra. }
    assert (L1 : Vec3.length (Vec3.mk 0.1505 0 0) = 0.1505).
    { unfold Vec3.length, Vec3.lengthSq; simpl. apply sqrt_of_square; lra. }
    assert (E : snd (integrateFree 1.5 0.1 Vec3.zero (Vec3.mk 0.1505 0 0))
                = Vec3.mk 0.0005 0 0).
    { unfold integrateFree. rewrite (proj2 (Rltb_true _ _) G).
      rewrite decay_velocity by (unfold Vec3.lengthSq; simpl; lra).
      rewrite L1. rewrite Rmax_right by lra.
      unfold Vec3.multiplyScalar; simpl. apply Vec3Facts.mk_ext; lra. }
    destruct (integrateFree 1.5 0.1 Vec3.zero (Vec3.mk 0.1505 0 0)) as [p1 v1].
    simpl in E. subst v1.
    rewrite freeRun_frozen by exact S. exact L.
Qed.

(** ** Water friction *)

Lemma waterFriction_inPond (p : Vec) (acc : R) (o : Obstacle) :
  waterFriction p acc o = if inPond p o then 4.0 else acc.
Proof. destruct o; reflexivity. Qed.

Lemma fold_waterFriction (p : Vec) (os : list Obstacle) :
  forall acc : R,
  fold_left (waterFriction p) os acc
    = if existsb (inPond p) os then 4.0
      else acc.
Proof.
  induction os as [ | o os IH ]; intro acc; simpl.
  - reflexivity.
  - rewrite IH, waterFriction_inPond.
    destruct (inPond p o); simpl; [ | reflexivity ].
    destruct (existsb (inPond p) os); reflexivity.
Qed.

Lemma frameFriction_cases (lvl : nat) (os : list Obstacle) (p : Vec) :
  frameFriction lvl os p
    = if Nat.eqb lvl 4 && existsb (inPond p) os then 4.0 else 1.5.
Proof.
  unfold frameFriction. destruct (Nat.eqb lvl 4); simpl.
  - apply fold_waterFriction.
  - reflexivity.
Qed.

Lemma existsb_inPond (p : Vec) (os : list Obstacle) :
  existsb (inPond p) os = true <->
  exists c r, In (OWater c r) os /\ Vec3.distanceTo p c < r.
Proof.
  rewrite existsb_exists. split.
  - intros (o & Hin & Ho). destruct o; simpl in Ho; try discriminate.
    apply Rltb_true in Ho. eauto.
  - intros (c & r & Hin & Hd). exists (OWater c r). split; [ exact Hin | ].
    simpl. apply Rltb_true, Hd.
Qed.

(** C6 (amended): the friction of an integration step is a fresh local
    value, 1.5 by default, and it is 4.0 for that step exactly when the
    level is level 4 and the ball's position lies within a water
    obstacle's radius of the pond centre in full three-dimensional
    distance (the vertical offset between ball and pond counts); it is
    recomputed from the ball position at every update and stored
    nowhere. *)
Theorem C6_frame_friction (lvl : nat) (dt : R) (os : list Obstacle) (p v : Vec) :
  (frameFriction lvl os p = 4.0 <->
     lvl = 4%nat /\ exists c r, In (OWater c r) os /\ Vec3.distanceTo p c < r) /\
  (frameFriction lvl os p = 4.0 \/ frameFriction lvl os p = 1.5) /\
  physics lvl dt os p v =
    handleObstacleCollisions os
      (fst (integrate (frameFriction lvl os p) dt p v))
      (snd (integrate (frameFriction lvl os p) dt p v)).
Proof.
  split; [ | split ].
  - rewrite frameFriction_cases. split.
    + intro H. destruct (Nat.eqb lvl 4) eqn:El; simpl in H; [ | lra ].
      destruct (existsb (inPond p) os) eqn:Ee; [ | lra ].
      split; [ apply Nat.eqb_eq, El | apply existsb_inPond, Ee ].
    + intros [-> Hex]. apply existsb_inPond in Hex. rewrite Hex. reflexivity.
  - rewrite frameFriction_cases.
    destruct (Nat.eqb lvl 4 && existsb (inPond p) os); [ left | right ]; reflexivity.
  - apply physics_unfold.
Qed.

(** C6 as stated fails: on level 4 a ball resting on the ground at
    (-0.41, 0.6, -4) is 3.59 away from the pond centre horizontally,
    inside the pond's radius 3.6, yet the friction of the step is 1.5:
    the test measures the distance to the centre (-4, 0.02, -4) with the
    0.58 of height difference included. *)
Lemma C6_counterexample_vertical_offset :
  spec_horizontalDistance (Vec3.mk (-0.41) 0.6 (-4)) (Vec3.mk (-4) 0.02 (-4)) < 3.6 /\
  frameFriction 4 level4_obstacles (Vec3.mk (-0.41) 0.6 (-4)) = 1.5.
Proof.
  split.
  - unfold spec_horizontalDistance; simpl.
    apply sqrt_lt_sq; [ nra | lra | lra ].
  - rewrite frameFriction_cases; simpl.
    assert (F : Rltb (Vec3.distanceTo (Vec3.mk (-0.41) 0.6 (-4))
                        (Vec3.mk (-4) 0.02 (-4))) 3.6 = false).
    { apply Rltb_false. unfold Vec3.distanceTo, Vec3.distanceToSquared; simpl.
      apply Rnot_lt_le. intro H. apply sqrt_lt_sq in H; [ lra | nra | lra ]. }
    rewrite F. reflexivity.
Qed.

(** ** Moving block contact *)

Section MovingBlock.
Import Vec3 Vec3Facts.

Variables (m : Mesh) (axis : string) (amplitude speed : R) (basePos : Vec).
Variables (ballPos vel : Vec).


End MovingBlock.

(** ** Trajectory preview *)

Lemma simulateTrajectory_loop_length (n : nat) (dt f : R) :
  forall p v : Vec, (List.length (simulateTrajectory_loop n dt f p v) <= n)%nat.
Proof.
  induction n as [ | n IH ]; intros p v; simpl.
  - apply Nat.le_refl.
  - destruct (Rltb (Vec3.lengthSq v) EPS); simpl.
    + apply Nat.le_0_l.
    + apply le_n_S, IH.
Qed.

Lemma simulateTrajectory_loop_stop (n : nat) (dt f : R) (p v : Vec) :
  Vec3.lengthSq v < EPS -> simulateTrajectory_loop n dt f p v = [].
Proof.
  intro H. destruct n; simpl; [ reflexivity | ].
  rewrite (proj2 (Rltb_true _ _) H). reflexivity.
Qed.

(** One iteration of the preview against the live decay: the sample is
    the old position advanced by the velocity before decay, and the
    velocity handed to the next iteration is the one the live step
    computes. *)
Lemma simulateTrajectory_loop_step (n : nat) (dt f : R) (p v : Vec) :
  EPS <= Vec3.lengthSq v ->
  simulateTrajectory_loop (S n) dt f p v =
    Vec3.addScaledVector p v dt ::
    simulateTrajectory_loop n dt f (Vec3.addScaledVector p v dt)
      (snd (decayAndTranslate f dt p v)).
Proof.
  intro H. simpl. rewrite (proj2 (Rltb_false _ _) H). reflexivity.
Qed.

Lemma simulateTrajectory_any_level (lvl : nat) (start vel : Vec) :
  simulateTrajectory lvl start vel =
    simulateTrajectory_loop TRAJ_DOTS 0.06 1.5 start vel.
Proof. unfold simulateTrajectory. destruct (Nat.eqb lvl 4); reflexivity. Qed.

(** C8 (amended): the preview is a function of the start position and
    the initial velocity alone (the level does not change it, and the
    friction is 1.5 with no water override); it yields at most 40
    positions and yields none from the first sample whose squared speed
    is below the epsilon.  While it runs, each sample is the previous
    position advanced by the velocity as it is before that sample's
    friction decay, over the fixed delta 0.06; the velocity carried to
    the next sample is the one the live integrator's decay rule gives.
    The live integrator, in contrast, advances the position by the
    velocity after the decay.  The preview takes and returns values
    only, and the pointer-move handler that calls it returns the
    simulation state as it received it. *)
Theorem C8_preview (lvl n : nat) (f dt : R) (start vel p v : Vec) :
  EPS <= Vec3.lengthSq v ->
  simulateTrajectory lvl start vel
    = simulateTrajectory_loop TRAJ_DOTS 0.06 1.5 start vel /\
  (List.length (simulateTrajectory lvl start vel) <= 40)%nat /\
  simulateTrajectory_loop (S n) dt f p v =
    Vec3.addScaledVector p v dt ::
    simulateTrajectory_loop n dt f (Vec3.addScaledVector p v dt)
      (snd (decayAndTranslate f dt p v)) /\
  fst (decayAndTranslate f dt p v)
    = Vec3.addScaledVector p (snd (decayAndTranslate f dt p v)) dt /\
  (forall (k : nat) (q w : Vec),
     Vec3.lengthSq w < EPS -> simulateTrajectory_loop k dt f q w = []) /\
  (forall (current : Vec) (s s' : State) (dots : option (list Vec)),
     onPointerMove lvl current s = Some (s', dots) -> s' = s).
Proof.
  intro H. split; [ | split; [ | split; [ | split; [ | split ] ] ] ].
  - apply simulateTrajectory_any_level.
  - rewrite simulateTrajectory_any_level. apply simulateTrajectory_loop_length.
  - apply simulateTrajectory_loop_step, H.
  - reflexivity.
  - intros k q w Hw. apply simulateTrajectory_loop_stop, Hw.
  - intros current s s' dots. unfold onPointerMove.
    destruct (negb (isAiming s)); [ | destruct (dragStart s) ];
      intro E; try discriminate; injection E as <- _; reflexivity.
Qed.

Lemma C8_preview_witness :
  EPS <= Vec3.lengthSq (Vec3.mk 5 0 0) /\
  (List.length (simulateTrajectory 1 (Vec3.mk 0 0.6 0) (Vec3.mk 5 0 0)) <= 40)%nat.
Proof.
  assert (G : EPS <= Vec3.lengthSq (Vec3.mk 5 0 0)).
  { unfold EPS, Vec3.lengthSq; simpl; lra. }
  split; [ exact G | ].
  exact (proj1 (proj2
    (C8_preview 1 0 1.5 0.06 (Vec3.mk 0 0.6 0) (Vec3.mk 5 0 0)
       Vec3.zero (Vec3.mk 5 0 0) G))).
Defined.

(** C8 as stated fails on "the same integration rule": from (0, 0.6, 0)
    with velocity (5,0,0) the first previewed position is x = 0.3 (the
    undecayed velocity times 0.06), while one live integration step with
    the same friction 1.5 and the same delta 0.06 puts the ball at
    x = 0.2946 (the decayed velocity 4.91 times 0.06). *)
Lemma C8_counterexample_first_sample :
  hd Vec3.zero (simulateTrajectory 1 (Vec3.mk 0 0.6 0) (Vec3.mk 5 0 0))
    = Vec3.mk 0.3 0.6 0 /\
  integrate 1.5 0.06 (Vec3.mk 0 0.6 0) (Vec3.mk 5 0 0)
    = (Vec3.mk 0.2946 0.6 0, Vec3.mk 4.91 0 0) /\
  0.3 <> 0.2946.
Proof.
  assert (G : EPS < Vec3.lengthSq (Vec3.mk 5 0 0)).
  { unfold EPS, Vec3.lengthSq; simpl; lra. }
  split; [ | split; [ | lra ] ].
  - rewrite simulateTrajectory_any_level.
    change TRAJ_DOTS with (S 39).
    rewrite simulateTrajectory_loop_step
      by (unfold EPS, Vec3.lengthSq; simpl; lra).
    cbn [hd]. unfold Vec3.addScaledVector; cbn [Vec3.x Vec3.y Vec3.z].
    apply Vec3Facts.mk_ext; lra.
  - assert (L5 : Vec3.length (Vec3.mk 5 0 0) = 5).
    { unfold Vec3.length, Vec3.lengthSq; simpl. apply sqrt_of_square; lra. }
    rewrite integrate_guard_true by exact G.
    unfold decayAndTranslate.
    rewrite Vec3Facts.setLength_moving by (unfold Vec3.lengthSq; simpl; lra).
    rewrite L5, Rmax_right by lra.
    rewrite wallCollisions_spec, !spec_clampAxis_cases.
    unfold spec_bounceAxis, Vec3.addScaledVector, Vec3.multiplyScalar; simpl.
    pose proof COURSE_LIMIT_value as HL.
    set (L := COURSE_LIMIT) in *.
    assert (X : 0 + 5 * ((5 - 1.5 * 0.06) / 5) * 0.06 = 0.2946) by lra.
    assert (Z : 0 + 0 * ((5 - 1.5 * 0.06) / 5) * 0.06 = 0) by lra.
    rewrite X, Z.
    rewrite (proj2 (Rltb_false 0.2946 (- L))) by lra.
    rewrite (proj2 (Rltb_false L 0.2946)) by lra.
    rewrite (proj2 (Rltb_false 0 (- L))) by lra.
    rewrite (proj2 (Rltb_false L 0)) by lra. simpl.
    f_equal; apply Vec3Facts.mk_ext; lra.
Qed.

(** ** Aim release *)

Lemma releaseImpulse_spec (d : Vec) : releaseImpulse d = spec_impulse d.
Proof.
  unfold releaseImpulse, spec_impulse, Vec3.setLength.
  rewrite Vec3Facts.multiplyScalar_assoc. reflexivity.
Qed.

Lemma onPointerUp_aiming (env : Env) (release ds : Vec) (s : State) :
  isAiming s = true -> dragStart s = Some ds ->
  onPointerUp env release s =
    Some (mkState (ballPos s) (ballScale s)
                  (Vec3.add (velocity s) (releaseImpulse (Vec3.subVectors ds release)))
                  (sinking s) (holeTriggered s) (obstacles s) (obstacleTime s)
                  false (dragStart s) (holeCompleteCalls s)
                  (if setStrokesIsFn env then S (strokes s) else strokes s)).
Proof.
  intros Ha Hd. unfold onPointerUp. rewrite Ha, Hd. reflexivity.
Qed.

(** C10: when an aim gesture is released, the impulse (the drag
    direction with length [min(dragLength, 6)], scaled by 5) is added to
    the velocity the ball has at that moment; nothing else of the ball
    changes.  A ball still moving therefore keeps its motion and gains
    the impulse on top of it. *)
Theorem C10_release_adds_impulse (env : Env) (release ds : Vec) (s : State) :
  isAiming s = true -> dragStart s = Some ds ->
  exists s' : State,
    onPointerUp env release s = Some s' /\
    velocity s' = Vec3.add (velocity s) (spec_impulse (Vec3.subVectors ds release)) /\
    ballPos s' = ballPos s /\
    sinking s' = sinking s /\
    isAiming s' = false.
Proof.
  intros Ha Hd. eexists. split.
  - apply onPointerUp_aiming; eassumption.
  - simpl. rewrite releaseImpulse_spec. repeat split.
Qed.

Lemma C10_release_adds_impulse_witness :
  exists s' : State,
    onPointerUp level1_env (Vec3.mk 1 0 0)
      (mkState (Vec3.mk 0 0.6 0) 1 (Vec3.mk 0 0 2) (mkSinking false 0 None None)
               false [] 0 true (Some Vec3.zero) 0 0) = Some s' /\
    velocity s' = Vec3.add (Vec3.mk 0 0 2)
                    (spec_impulse (Vec3.subVectors Vec3.zero (Vec3.mk 1 0 0))) /\
    ballPos s' = Vec3.mk 0 0.6 0 /\
    sinking s' = mkSinking false 0 None None /\
    isAiming s' = false.
Proof.
  exact (C10_release_adds_impulse level1_env (Vec3.mk 1 0 0) Vec3.zero
           (mkState (Vec3.mk 0 0.6 0) 1 (Vec3.mk 0 0 2) (mkSinking false 0 None None)
                    false [] 0 true (Some Vec3.zero) 0 0)
           eq_refl eq_refl).
Defined.

(** ** Hole-sink state machine *)

Section SinkMachine.

Variable env : Env.

Lemma progress_complete (t1 : R) : Rleb 1 (Rmin 1 (t1 / 1.2)) = true <-> 1.2 <= t1.
Proof.
  rewrite Rleb_true. unfold Rmin.
  destruct (Rle_dec 1 (t1 / 1.2)) as [H | H]; split; intro G; lra.
Qed.

Lemma sinkingStep_inactive (dt : R) (p : Vec) (scale : R) (sk : Sinking) (calls : nat) :
  active sk = false ->
  sinkingStep env dt p scale sk calls = Some (p, scale, sk, calls).
Proof. intro H. unfold sinkingStep. rewrite H. reflexivity. Qed.

Lemma sinkingStep_complete (dt : R) (p : Vec) (scale : R) (sk : Sinking)
    (calls : nat) (e : Vec) :
  active sk = true -> end_ sk = Some e -> 1.2 <= t sk + dt ->
  sinkingStep env dt p scale sk calls =
    Some (e, 0.3, mkSinking false (t sk + dt) (start sk) (end_ sk),
          if onHoleCompleteIsFn env then S calls else calls).
Proof.
  intros Ha He Ht. unfold sinkingStep. rewrite Ha.
  rewrite (proj2 (progress_complete _) Ht). rewrite He.
  destruct (start sk); reflexivity.
Qed.

Lemma sinkingStep_running (dt : R) (p : Vec) (scale : R) (sk : Sinking) (calls : nat) :
  active sk = true -> t sk + dt < 1.2 ->
  exists (p' : Vec) (scale' : R),
    sinkingStep env dt p scale sk calls =
      Some (p', scale', mkSinking true (t sk + dt) (start sk) (end_ sk), calls) /\
    (forall a b, start sk = Some a -> end_ sk = Some b ->
       let tt := Rmin 1 ((t sk + dt) / 1.2) in
       let eased := tt * tt * (3 - 2 * tt) in
       p' = Vec3.lerpVectors a b eased /\ scale' = 1 - 0.7 * eased).
Proof.
  intros Ha Ht. unfold sinkingStep. rewrite Ha.
  assert (Hn : Rleb 1 (Rmin 1 ((t sk + dt) / 1.2)) = false).
  { destruct (Rleb 1 (Rmin 1 ((t sk + dt) / 1.2))) eqn:E; [ | reflexivity ].
    apply progress_complete in E. lra. }
  rewrite Hn.
  destruct (start sk) as [a | ], (end_ sk) as [b | ];
    eexists; eexists; (split; [ reflexivity | ]);
    intros a' b' Ea Eb; try discriminate.
  injection Ea as <-. injection Eb as <-. split; reflexivity.
Qed.

(** The two outcomes of the hole detection block. *)
Lemma holeDetection_cases (p vel : Vec) (sk : Sinking) (trig : bool) :
  holeDetection env p vel sk trig = (vel, sk, trig) \/
  (holeDone env = false /\ active sk = false /\ trig = false /\
   Vec3.distanceTo p (holePosition env) < HOLE_RADIUS /\
   holeDetection env p vel sk trig =
     (Vec3.zero,
      mkSinking true 0 (Some p) (Some (Vec3.setY (holePosition env) (-0.5))),
      true)).
Proof.
  unfold holeDetection.
  destruct (holeDone env); simpl; [ left; reflexivity | ].
  destruct (active sk); simpl; [ left; reflexivity | ].
  destruct trig; simpl; [ left; reflexivity | ].
  destruct (Rltb (Vec3.distanceTo p (holePosition env)) HOLE_RADIUS) eqn:E;
    [ right | left; reflexivity ].
  apply Rltb_true in E. repeat split; assumption.
Qed.

Lemma holeDetection_latched (p vel : Vec) (sk : Sinking) :
  holeDetection env p vel sk true = (vel, sk, true).
Proof.
  unfold holeDetection.
  destruct (negb (holeDone env) && negb (active sk)); reflexivity.
Qed.

Lemma holeDetection_active (p vel : Vec) (sk : Sinking) (trig : bool) :
  active sk = true -> holeDetection env p vel sk trig = (vel, sk, trig).
Proof.
  intro H. unfold holeDetection. rewrite H, andb_false_r. reflexivity.
Qed.

(** A frame during an active sink: no physics, no detection. *)
Lemma animate_active (dt : R) (s : State) :
  active (sinking s) = true ->
  animate env dt s =
    match sinkingStep env dt (ballPos s) (ballScale s) (sinking s)
            (holeCompleteCalls s) with
    | None => None
    | Some (p, scale, sk, calls) =>
        Some (mkState p scale (velocity s) sk (holeTriggered s)
                (map (animateObstacle (obstacleTime s + dt) dt) (obstacles s))
                (obstacleTime s + dt) (isAiming s) (dragStart s) calls (strokes s))
    end.
Proof.
  intro H. unfold animate. rewrite H; simpl negb; cbv iota.
  rewrite holeDetection_active by exact H. reflexivity.
Qed.

End SinkMachine.

(** ** The completion callback fires at most once per arming *)

Section Latch.

Variable env : Env.

Local Open Scope nat_scope.

Lemma animate_potential (dt : R) (s : State) :
  wf s ->
  exists s' : State,
    animate env dt s = Some s' /\ wf s' /\
    holeCompleteCalls s' + armed s' <= holeCompleteCalls s + armed s /\
    holeCompleteCalls s <= holeCompleteCalls s'.
Proof.
  intros [Hsink Haim].
  destruct (active (sinking s)) eqn:Ha.
  - destruct (Hsink eq_refl) as [Hlatch Hend].
    destruct (end_ (sinking s)) as [e | ] eqn:He; [ | contradiction ].
    rewrite animate_active by exact Ha.
    destruct (Rle_lt_dec 1.2 (t (sinking s) + dt)) as [Hdone | Hrun].
    + rewrite (sinkingStep_complete env dt _ _ _ _ e Ha He Hdone).
      eexists; split; [ reflexivity | ].
      unfold wf, armed; simpl. rewrite Ha, Hlatch; simpl.
      split; [ split; [ discriminate | exact Haim ] | ].
      destruct (onHoleCompleteIsFn env); lia.
    + destruct (sinkingStep_running env dt (ballPos s) (ballScale s) (sinking s)
                  (holeCompleteCalls s) Ha Hrun) as (p' & sc' & E & _).
      rewrite E.
      eexists; split; [ reflexivity | ].
      unfold wf, armed; simpl. rewrite Ha, Hlatch, He; simpl.
      split; [ split; [ intros _; split; [ reflexivity | discriminate ] | exact Haim ] | ].
      lia.
  - unfold animate. rewrite Ha; simpl negb; cbv iota.
    destruct (physics (level env) dt
                (map (animateObstacle (obstacleTime s + dt)%R dt) (obstacles s))
                (ballPos s) (velocity s)) as [[p1 v1] os1].
    destruct (holeDetection_cases env p1 v1 (sinking s) (holeTriggered s))
      as [E | (_ & _ & Htrig & _ & E)]; rewrite E.
    + rewrite sinkingStep_inactive by exact Ha.
      eexists; split; [ reflexivity | ].
      unfold wf, armed; simpl. rewrite Ha.
      split; [ split; [ discriminate | exact Haim ] | ].
      lia.
    + destruct (Rle_lt_dec 1.2 (0 + dt)) as [Hdone | Hrun].
      * rewrite (sinkingStep_complete env dt p1 (ballScale s)
                   (mkSinking true 0 (Some p1)
                      (Some (Vec3.setY (holePosition env) (-0.5))))
                   (holeCompleteCalls s) _ eq_refl eq_refl Hdone).
        eexists; split; [ reflexivity | ].
        unfold wf, armed; simpl. rewrite Ha, Htrig; simpl.
        split; [ split; [ discriminate | exact Haim ] | ].
        destruct (onHoleCompleteIsFn env); lia.
      * destruct (sinkingStep_running env dt p1 (ballScale s)
                    (mkSinking true 0 (Some p1)
                       (Some (Vec3.setY (holePosition env) (-0.5))))
                    (holeCompleteCalls s) eq_refl Hrun) as (p' & sc' & E' & _).
        rewrite E'.
        eexists; split; [ reflexivity | ].
        unfold wf, armed; simpl. rewrite Ha, Htrig; simpl.
        split; [ split; [ intros _; split; [ reflexivity | discriminate ] | exact Haim ] | ].
        lia.
Qed.

Lemma step_potential (e : Event) (s : State) :
  wf s -> isRetry e = false ->
  exists s' : State,
    step env e s = Some s' /\ wf s' /\
    holeCompleteCalls s' + armed s' <= holeCompleteCalls s + armed s /\
    holeCompleteCalls s <= holeCompleteCalls s'.
Proof.
  intros Hwf Hr. destruct e as [dt | p | p | p | ]; simpl in *; try discriminate.
  - apply animate_potential, Hwf.
  - eexists; split; [ reflexivity | ].
    destruct Hwf as [Hsink Haim]. unfold onPointerDown.
    destruct (Rltb _ _).
    + unfold wf, armed; simpl.
      split; [ split; [ exact Hsink | discriminate ] | lia ].
    + split; [ split; assumption | lia ].
  - exists s. unfold onPointerMove.
    destruct (isAiming s) eqn:Ea; simpl.
    + destruct (dragStart s) as [ds | ] eqn:Ed;
        [ | exfalso; apply (proj2 Hwf); [ exact Ea | exact Ed ] ].
      split; [ reflexivity | split; [ exact Hwf | lia ] ].
    + split; [ reflexivity | split; [ exact Hwf | lia ] ].
  - destruct Hwf as [Hsink Haim]. unfold onPointerUp.
    destruct (isAiming s) eqn:Ea; simpl.
    + destruct (dragStart s) as [ds | ] eqn:Ed; [ | exfalso; apply Haim; reflexivity ].
      eexists; split; [ reflexivity | ].
      unfold wf, armed; simpl.
      split; [ split; [ exact Hsink | discriminate ] | lia ].
    + eexists; split; [ reflexivity | ].
      split; [ split; [ exact Hsink | rewrite Ea; discriminate ] | lia ].
Qed.

Lemma run_potential (es : list Event) :
  forall s : State,
  wf s -> noRetry es = true ->
  exists s' : State,
    run env es s = Some s' /\ wf s' /\
    holeCompleteCalls s' + armed s' <= holeCompleteCalls s + armed s /\
    holeCompleteCalls s <= holeCompleteCalls s'.
Proof.
  induction es as [ | e es IH ]; intros s Hwf Hn; simpl in *.
  - exists s. split; [ reflexivity | split; [ exact Hwf | lia ] ].
  - apply andb_true_iff in Hn as [He Hes]. apply negb_true_iff in He.
    destruct (step_potential e s Hwf He) as (s1 & E1 & W1 & P1 & M1).
    rewrite E1.
    destruct (IH s1 W1 Hes) as (s2 & E2 & W2 & P2 & M2).
    exists s2. split; [ exact E2 | split; [ exact W2 | lia ] ].
Qed.

Lemma handleRetry_rearms (s : State) :
  wf s ->
  wf (handleRetry env s) /\
  holeCompleteCalls (handleRetry env s) = holeCompleteCalls s /\
  armed (handleRetry env s) = 1 /\
  holeTriggered (handleRetry env s) = false /\
  active (sinking (handleRetry env s)) = false.
Proof.
  intros [Hsink Haim]. unfold wf, armed, handleRetry; simpl.
  repeat split; try discriminate; assumption.
Qed.

Lemma initialState_wf (os : list Obstacle) : wf (initialState os).
Proof. unfold wf, initialState; simpl. split; discriminate. Qed.

(** From the initial state no sequence of frames, gestures and retries
    ever reads a [null] end point or drag start: every run yields a
    state, and that state is well formed. *)
Lemma run_total (es : list Event) :
  forall s : State, wf s -> exists s' : State, run env es s = Some s' /\ wf s'.
Proof.
  induction es as [ | e es IH ]; intros s Hwf; simpl.
  - exists s. split; [ reflexivity | exact Hwf ].
  - destruct (isRetry e) eqn:Er.
    + destruct e; try discriminate. simpl.
      apply IH. apply handleRetry_rearms, Hwf.
    + destruct (step_potential e s Hwf Er) as (s1 & E1 & W1 & _).
      rewrite E1. apply IH, W1.
Qed.

Lemma run_app (es1 es2 : list Event) (s : State) :
  run env (es1 ++ es2) s =
    match run env es1 s with
    | None => None
    | Some s1 => run env es2 s1
    end.
Proof.
  revert s. induction es1 as [ | e es1 IH ]; intro s; simpl.
  - reflexivity.
  - destruct (step env e s); [ apply IH | reflexivity ].
Qed.

End Latch.

(** ** A shot into the hole of level 1 *)

Section Level1.
Import Vec3 Vec3Facts.

Lemma shot_impulse :
  add zero (releaseImpulse (subVectors shotDown shotRelease)) = shotVelocity.
Proof.
  assert (L : length (subVectors shotDown shotRelease) = 1.46).
  { unfold length, lengthSq, shotDown, shotRelease, zero; simpl.
    apply sqrt_of_square; lra. }
  unfold releaseImpulse, setLength, normalize. rewrite L.
  rewrite jsOr_nonzero by lra. rewrite Rmin_left by lra.
  unfold add, multiplyScalar, divideScalar, subVectors, sub, shotDown,
    shotRelease, shotVelocity, zero; simpl.
  apply mk_ext; lra.
Qed.

Lemma shot_pointer_down :
  Rltb (distanceTo shotDown (mk 0 BALL_RADIUS 0)) 1.2 = true.
Proof.
  apply Rltb_true. unfold distanceTo, distanceToSquared, shotDown, zero, BALL_RADIUS;
    simpl.
  apply sqrt_lt_sq; [ nra | lra | lra ].
Qed.

Lemma shot_physics :
  physics 1 1 [] (mk 0 BALL_RADIUS 0) shotVelocity
    = (mk 4.64 0.6 (-3.48), mk 4.64 0 (-3.48), []).
Proof.
  rewrite physics_unfold.
  assert (F : frameFriction 1 [] (mk 0 BALL_RADIUS 0) = 1.5) by reflexivity.
  rewrite F.
  assert (G : EPS < lengthSq shotVelocity).
  { unfold EPS, lengthSq, shotVelocity; simpl; lra. }
  assert (L : length shotVelocity = 7.3).
  { unfold length, lengthSq, shotVelocity; simpl. apply sqrt_of_square; lra. }
  assert (I : integrate 1.5 1 (mk 0 BALL_RADIUS 0) shotVelocity
              = (mk 4.64 0.6 (-3.48), mk 4.64 0 (-3.48))).
  { rewrite integrate_guard_true by exact G.
    unfold decayAndTranslate.
    rewrite setLength_moving by (pose proof EPS_pos; lra).
    rewrite L, Rmax_right by lra.
    rewrite wallCollisions_spec, !spec_clampAxis_cases.
    unfold spec_bounceAxis, addScaledVector, multiplyScalar, shotVelocity,
      BALL_RADIUS; simpl.
    pose proof COURSE_LIMIT_value as HL.
    set (Lm := COURSE_LIMIT) in *.
    assert (X : 0 + 5.84 * ((7.3 - 1.5 * 1) / 7.3) * 1 = 4.64) by lra.
    assert (Z : 0 + -4.38 * ((7.3 - 1.5 * 1) / 7.3) * 1 = -3.48) by lra.
    rewrite X, Z.
    rewrite (proj2 (Rltb_false 4.64 (- Lm))) by lra.
    rewrite (proj2 (Rltb_false Lm 4.64)) by lra.
    rewrite (proj2 (Rltb_false (-3.48) (- Lm))) by lra.
    rewrite (proj2 (Rltb_false Lm (-3.48))) by lra. simpl.
    f_equal; apply mk_ext; lra. }
  rewrite I. reflexivity.
Qed.

Lemma shot_reaches_hole :
  distanceTo (mk 4.64 0.6 (-3.48)) (holePosition level1_env) < HOLE_RADIUS.
Proof.
  unfold distanceTo, distanceToSquared, level1_env, HOLE_RADIUS, BALL_RADIUS; simpl.
  apply sqrt_lt_sq; [ nra | lra | lra ].
Qed.

Lemma shot_detection (vel : Vec) (sk : Sinking) :
  active sk = false ->
  holeDetection level1_env (mk 4.64 0.6 (-3.48)) vel sk false
    = (zero, mkSinking true 0 (Some (mk 4.64 0.6 (-3.48))) (Some level1_sinkEnd), true).
Proof.
  intro Ha. unfold holeDetection. rewrite Ha.
  rewrite (proj2 (Rltb_true _ _) shot_reaches_hole). reflexivity.
Qed.

End Level1.

(** ** Frames around a sink *)

Section Frames.
Import Vec3 Vec3Facts.

(** A frame with the latch set and no sink running is physics only. *)
Lemma animate_latched (env : Env) (dt : R) (s : State) :
  active (sinking s) = false -> holeTriggered s = true ->
  animate env dt s =
    (let '(p, vel, os) :=
       physics (level env) dt
         (map (animateObstacle (obstacleTime s + dt) dt) (obstacles s))
         (ballPos s) (velocity s) in
     Some (mkState p (ballScale s) vel (sinking s) true os (obstacleTime s + dt)
             (isAiming s) (dragStart s) (holeCompleteCalls s) (strokes s))).
Proof.
  intros Ha Ht. unfold animate. rewrite Ha, Ht; simpl negb; cbv iota.
  destruct (physics _ _ _ _ _) as [[p1 v1] os1].
  rewrite holeDetection_latched.
  rewrite sinkingStep_inactive by exact Ha. reflexivity.
Qed.

(** The frame of one second that carries the shot into the hole and
    starts the sink. *)
Lemma shot_frame (s : State) :
  ballPos s = mk 0 BALL_RADIUS 0 -> velocity s = shotVelocity ->
  active (sinking s) = false -> holeTriggered s = false -> obstacles s = [] ->
  exists (p' : Vec) (sc' : R),
    animate level1_env 1 s =
      Some (mkState p' sc' zero
              (mkSinking true (0 + 1) (Some (mk 4.64 0.6 (-3.48))) (Some level1_sinkEnd))
              true [] (obstacleTime s + 1) (isAiming s) (dragStart s)
              (holeCompleteCalls s) (strokes s)).
Proof.
  intros Hp Hv Ha Ht Ho. unfold animate.
  rewrite Hp, Hv, Ha, Ht, Ho; simpl negb; cbv iota.
  simpl level. simpl map. rewrite shot_physics.
  rewrite shot_detection by exact Ha.
  destruct (sinkingStep_running level1_env 1 (mk 4.64 0.6 (-3.48)) (ballScale s)
              (mkSinking true 0 (Some (mk 4.64 0.6 (-3.48))) (Some level1_sinkEnd))
              (holeCompleteCalls s) eq_refl) as (p' & sc' & E & _).
  { simpl. lra. }
  rewrite E. exists p', sc'. reflexivity.
Qed.

(** Pointer down under the ball at its spawn point, release, and the
    frame of [shot_frame]. *)
Lemma shot_run (s : State) :
  ballPos s = mk 0 BALL_RADIUS 0 -> velocity s = zero ->
  active (sinking s) = false -> holeTriggered s = false -> obstacles s = [] ->
  exists (p' : Vec) (sc' : R),
    run level1_env [PointerDown shotDown; PointerUp shotRelease; Frame 1] s =
      Some (mkState p' sc' zero
              (mkSinking true (0 + 1) (Some (mk 4.64 0.6 (-3.48))) (Some level1_sinkEnd))
              true [] (obstacleTime s + 1) false (Some shotDown)
              (holeCompleteCalls s) (S (strokes s))).
Proof.
  intros Hp Hv Ha Ht Ho.
  unfold run, step, onPointerDown. rewrite Hp, shot_pointer_down.
  unfold onPointerUp; simpl negb; cbv iota.
  cbn [dragStart velocity]. rewrite Hv, shot_impulse.
  cbn [setStrokesIsFn level1_env strokes ballPos ballScale sinking holeTriggered
       obstacles obstacleTime holeCompleteCalls].
  match goal with
  | |- context [animate level1_env 1 ?st] =>
      destruct (shot_frame st) as (p' & sc' & E); try assumption; try reflexivity
  end.
  rewrite E. exists p', sc'. reflexivity.
Qed.

(** The frame that completes a level-1 sink started by the shot. *)
Lemma shot_completion (p sc : Vec3.t) (scale : R) (vel : Vec) (time : R)
    (aim : bool) (ds : option Vec) (calls str : nat) :
  animate level1_env 0.5
    (mkState p scale vel
       (mkSinking true (0 + 1) (Some sc) (Some level1_sinkEnd))
       true [] time aim ds calls str)
  = Some (mkState level1_sinkEnd 0.3 vel
            (mkSinking false (0 + 1 + 0.5) (Some sc) (Some level1_sinkEnd))
            true [] (time + 0.5) aim ds (S calls) str).
Proof.
  rewrite animate_active by reflexivity. cbn [sinking ballPos ballScale holeCompleteCalls].
  rewrite (sinkingStep_complete level1_env 0.5 p scale
             (mkSinking true (0 + 1) (Some sc) (Some level1_sinkEnd))
             calls level1_sinkEnd eq_refl eq_refl) by (simpl; lra).
  reflexivity.
Qed.

End Frames.

(** ** The level-1 scenario: sink, retry, sink again *)

Lemma physics_at_rest (lvl : nat) (dt : R) (p v : Vec) :
  Vec3.lengthSq v <= EPS -> physics lvl dt [] p v = (p, v, []).
Proof.
  intro H. rewrite physics_unfold.
  rewrite integrate_guard_false by exact H. reflexivity.
Qed.

Lemma zero_at_rest : Vec3.lengthSq Vec3.zero <= EPS.
Proof. unfold Vec3.lengthSq, Vec3.zero, EPS; simpl; lra. Qed.

(** On level 1, from the initial state: a shot sinks the ball and the
    callback is invoked once; two more frames invoke nothing; after a
    retry the same shot sinks the ball again and the callback is
    invoked exactly once more. *)
Lemma level1_retry_scenario :
  exists s1 s2 s3 : State,
    run level1_env [PointerDown shotDown; PointerUp shotRelease; Frame 1; Frame 0.5]
      (initialState []) = Some s1 /\
    holeCompleteCalls s1 = 1%nat /\
    ballPos s1 = level1_sinkEnd /\ ballScale s1 = 0.3 /\
    run level1_env [Frame 0.1; Frame 0.1; Retry] s1 = Some s2 /\
    holeCompleteCalls s2 = 1%nat /\
    ballPos s2 = Vec3.mk 0 BALL_RADIUS 0 /\ holeTriggered s2 = false /\
    run level1_env [PointerDown shotDown; PointerUp shotRelease; Frame 1; Frame 0.5]
      s2 = Some s3 /\
    holeCompleteCalls s3 = 2%nat /\
    ballPos s3 = level1_sinkEnd /\ ballScale s3 = 0.3.
Proof.
  destruct (shot_run (initialState [])) as (p1 & sc1 & E1); try reflexivity.
  change [PointerDown shotDown; PointerUp shotRelease; Frame 1; Frame 0.5]
    with ([PointerDown shotDown; PointerUp shotRelease; Frame 1] ++ [Frame 0.5]).
  eexists; eexists; eexists.
  split.
  { rewrite run_app, E1. cbn [run step]. rewrite shot_completion. reflexivity. }
  cbn [holeCompleteCalls ballPos ballScale initialState].
  split; [ reflexivity | ]. split; [ reflexivity | ]. split; [ reflexivity | ].
  split.
  { cbn [run step].
    rewrite animate_latched by reflexivity.
    cbn [level level1_env obstacles map ballPos velocity].
    rewrite physics_at_rest by apply zero_at_rest.
    rewrite animate_latched by reflexivity.
    cbn [level level1_env obstacles map ballPos velocity].
    rewrite physics_at_rest by apply zero_at_rest.
    reflexivity. }
  cbn [handleRetry holeCompleteCalls ballPos holeTriggered].
  split; [ reflexivity | ]. split; [ reflexivity | ]. split; [ reflexivity | ].
  match goal with
  | |- context [run level1_env (_ ++ _) ?st] =>
      destruct (shot_run st) as (p3 & sc3 & E3); try reflexivity
  end.
  split.
  { rewrite run_app, E3. cbn [run step]. rewrite shot_completion. reflexivity. }
  cbn [holeCompleteCalls ballPos ballScale].
  split; [ reflexivity | ]. split; reflexivity.
Qed.

(** ** Aim input during a sink *)

(** C9 (amended): while a sink is active, the ball's position, scale and
    sink progress after a frame are those of the sink interpolation
    alone: they are the same whatever the stored velocity is, and the
    frame leaves that velocity as it found it.  A released aim gesture
    is not ignored, though: its impulse is added to the stored velocity
    while the sink runs (the ball's position and the sink are not
    touched by the release); nothing zeroes the velocity again before a
    reset. *)
Theorem C9_sink_frames_ignore_velocity (env : Env) (dt : R) (s : State) (v : Vec) :
  wf s -> active (sinking s) = true ->
  (exists s1 s2 : State,
     animate env dt s = Some s1 /\
     animate env dt (withVelocity s v) = Some s2 /\
     ballPos s2 = ballPos s1 /\ ballScale s2 = ballScale s1 /\
     sinking s2 = sinking s1 /\
     holeCompleteCalls s2 = holeCompleteCalls s1 /\
     velocity s1 = velocity s /\ velocity s2 = v) /\
  (forall release ds : Vec,
     isAiming s = true -> dragStart s = Some ds ->
     exists s' : State,
       onPointerUp env release s = Some s' /\
       velocity s' = Vec3.add (velocity s) (spec_impulse (Vec3.subVectors ds release)) /\
       ballPos s' = ballPos s /\ ballScale s' = ballScale s /\
       sinking s' = sinking s).
Proof.
  intros Hwf Ha. split.
  - assert (Ha' : active (sinking (withVelocity s v)) = true) by exact Ha.
    rewrite (animate_active env dt s Ha), (animate_active env dt _ Ha').
    cbn [withVelocity ballPos ballScale sinking holeCompleteCalls velocity
         holeTriggered obstacles obstacleTime isAiming dragStart strokes].
    destruct (animate_potential env dt s Hwf) as (s1 & E1 & _).
    rewrite animate_active in E1 by exact Ha.
    destruct (sinkingStep env dt (ballPos s) (ballScale s) (sinking s)
                (holeCompleteCalls s)) as [[[[p1 sc1] sk1] c1] | ];
      [ | discriminate ].
    eexists; eexists. split; [ reflexivity | ]. split; [ reflexivity | ].
    repeat split.
  - intros release ds Hi Hd. eexists. split.
    + apply onPointerUp_aiming; eassumption.
    + simpl. rewrite releaseImpulse_spec. repeat split.
Qed.

Lemma C9_sink_frames_ignore_velocity_witness :
  exists s1 s2 : State,
    animate level1_env 0.1
      (mkState (Vec3.mk 4.64 0.6 (-3.48)) 1 Vec3.zero
         (mkSinking true (0 + 1) (Some (Vec3.mk 4.64 0.6 (-3.48)))
            (Some level1_sinkEnd))
         true [] 1 true (Some shotDown) 0 1) = Some s1 /\
    animate level1_env 0.1
      (mkState (Vec3.mk 4.64 0.6 (-3.48)) 1 (Vec3.mk (-5) 0 0)
         (mkSinking true (0 + 1) (Some (Vec3.mk 4.64 0.6 (-3.48)))
            (Some level1_sinkEnd))
         true [] 1 true (Some shotDown) 0 1) = Some s2 /\
    ballPos s2 = ballPos s1.
Proof.
  assert (W : wf (mkState (Vec3.mk 4.64 0.6 (-3.48)) 1 Vec3.zero
                    (mkSinking true (0 + 1) (Some (Vec3.mk 4.64 0.6 (-3.48)))
                       (Some level1_sinkEnd))
                    true [] 1 true (Some shotDown) 0 1)).
  { unfold wf; simpl. split; [ intros _; split; [ reflexivity | discriminate ]
                             | intros _; discriminate ]. }
  destruct (proj1 (C9_sink_frames_ignore_velocity level1_env 0.1 _
                     (Vec3.mk (-5) 0 0) W eq_refl))
    as (s1 & s2 & E1 & E2 & Hp & _).
  exists s1, s2. repeat split; assumption.
Defined.

Lemma second_impulse :
  Vec3.add Vec3.zero (releaseImpulse (Vec3.subVectors shotDown (Vec3.mk 1 0 0)))
    = Vec3.mk (-5) 0 0.
Proof.
  assert (L : Vec3.length (Vec3.subVectors shotDown (Vec3.mk 1 0 0)) = 1).
  { unfold Vec3.length, Vec3.lengthSq, shotDown, Vec3.zero; simpl.
    apply sqrt_of_square; lra. }
  unfold releaseImpulse, Vec3.setLength, Vec3.normalize. rewrite L.
  rewrite jsOr_nonzero by lra. rewrite Rmin_left by lra.
  unfold Vec3.add, Vec3.multiplyScalar, Vec3.divideScalar, Vec3.subVectors,
    Vec3.sub, shotDown, Vec3.zero; simpl.
  apply Vec3Facts.mk_ext; lra.
Qed.

Lemma roll_out_of_hole :
  physics 1 0.1 [] level1_sinkEnd (Vec3.mk (-5) 0 0)
    = (Vec3.mk 4.515 (-0.5) (-3), Vec3.mk (-4.85) 0 0, []).
Proof.
  rewrite physics_unfold.
  assert (F : frameFriction 1 [] level1_sinkEnd = 1.5) by reflexivity.
  rewrite F.
  assert (G : EPS < Vec3.lengthSq (Vec3.mk (-5) 0 0)).
  { unfold EPS, Vec3.lengthSq; simpl; lra. }
  assert (L : Vec3.length (Vec3.mk (-5) 0 0) = 5).
  { unfold Vec3.length, Vec3.lengthSq; simpl. apply sqrt_of_square; lra. }
  assert (I : integrate 1.5 0.1 level1_sinkEnd (Vec3.mk (-5) 0 0)
              = (Vec3.mk 4.515 (-0.5) (-3), Vec3.mk (-4.85) 0 0)).
  { rewrite integrate_guard_true by exact G.
    unfold decayAndTranslate.
    rewrite Vec3Facts.setLength_moving by (pose proof EPS_pos; lra).
    rewrite L, Rmax_right by lra.
    rewrite wallCollisions_spec, !spec_clampAxis_cases.
    unfold spec_bounceAxis, Vec3.addScaledVector, Vec3.multiplyScalar,
      level1_sinkEnd; simpl.
    pose proof COURSE_LIMIT_value as HL.
    set (Lm := COURSE_LIMIT) in *.
    assert (X : 5 + -5 * ((5 - 1.5 * 0.1) / 5) * 0.1 = 4.515) by lra.
    assert (Z : -3 + 0 * ((5 - 1.5 * 0.1) / 5) * 0.1 = -3) by lra.
    rewrite X, Z.
    rewrite (proj2 (Rltb_false 4.515 (- Lm))) by lra.
    rewrite (proj2 (Rltb_false Lm 4.515)) by lra.
    rewrite (proj2 (Rltb_false (-3) (- Lm))) by lra.
    rewrite (proj2 (Rltb_false Lm (-3))) by lra. simpl.
    f_equal; apply Vec3Facts.mk_ext; lra. }
  rewrite I. reflexivity.
Qed.

Lemma aimed_shot_run :
  exists (p' : Vec) (sc' : R),
    run level1_env
      [PointerDown shotDown; PointerUp shotRelease; PointerDown shotDown; Frame 1]
      (initialState []) =
      Some (mkState p' sc' Vec3.zero
              (mkSinking true (0 + 1) (Some (Vec3.mk 4.64 0.6 (-3.48)))
                 (Some level1_sinkEnd))
              true [] (0 + 1) true (Some shotDown) 0 1).
Proof.
  unfold run, step, onPointerDown, initialState.
  cbn [ballPos]. rewrite shot_pointer_down.
  unfold onPointerUp; simpl negb; cbv iota.
  cbn [dragStart velocity]. rewrite shot_impulse.
  cbn [setStrokesIsFn level1_env strokes ballPos ballScale sinking holeTriggered
       obstacles obstacleTime holeCompleteCalls isAiming dragStart velocity].
  rewrite shot_pointer_down.
  match goal with
  | |- context [animate level1_env 1 ?st] =>
      destruct (shot_frame st) as (p' & sc' & E); try reflexivity
  end.
  rewrite E. exists p', sc'. reflexivity.
Qed.

(** C9 as stated fails.  On level 1 the pointer goes down a second time
    before the shot reaches the hole and is released while the sink
    runs: the release changes the velocity from 0 to (-5,0,0) during the
    active sink, and once the sink has completed the next frame rolls
    the ball from the end position to x = 4.515, whereas without the
    release it stays at the end position. *)
Lemma C9_counterexample_release_during_sink :
  exists s4 s5 s7 s7' : State,
    run level1_env
      [PointerDown shotDown; PointerUp shotRelease; PointerDown shotDown; Frame 1]
      (initialState []) = Some s4 /\
    active (sinking s4) = true /\ velocity s4 = Vec3.zero /\
    step level1_env (PointerUp (Vec3.mk 1 0 0)) s4 = Some s5 /\
    active (sinking s5) = true /\ velocity s5 = Vec3.mk (-5) 0 0 /\
    run level1_env [Frame 0.5; Frame 0.1] s5 = Some s7 /\
    ballPos s7 = Vec3.mk 4.515 (-0.5) (-3) /\
    run level1_env [Frame 0.5; Frame 0.1] s4 = Some s7' /\
    ballPos s7' = level1_sinkEnd.
Proof.
  destruct aimed_shot_run as (p' & sc' & E4).
  eexists; eexists; eexists; eexists.
  split; [ exact E4 | ].
  split; [ reflexivity | ]. split; [ reflexivity | ].
  split.
  { cbn [step]. rewrite (onPointerUp_aiming level1_env _ shotDown) by reflexivity.
    cbn [velocity ballPos ballScale sinking holeTriggered obstacles obstacleTime
         dragStart holeCompleteCalls strokes setStrokesIsFn level1_env].
    rewrite second_impulse. reflexivity. }
  split; [ reflexivity | ]. split; [ reflexivity | ].
  split.
  { cbn [run step]. rewrite shot_completion.
    rewrite animate_latched by reflexivity.
    cbn [level level1_env obstacles map ballPos velocity].
    rewrite roll_out_of_hole. reflexivity. }
  split; [ reflexivity | ].
  split.
  { cbn [run step]. rewrite shot_completion.
    rewrite animate_latched by reflexivity.
    cbn [level level1_env obstacles map ballPos velocity].
    rewrite physics_at_rest by apply zero_at_rest. reflexivity. }
  reflexivity.
Qed.

(** * Further properties of the component *)

(** ** Confetti pool *)

Section ConfettiSpawn.

Variables (pos : Vec) (count : nat) (rnd : nat -> R).

Local Open Scope nat_scope.

Lemma spawnConfetti_loop_length (pool : list Confetti) :
  forall spawned k,
  List.length (spawnConfetti_loop pos count spawned rnd k pool) = List.length pool.
Proof.
  induction pool as [ | c rest IH ]; intros spawned k; simpl.
  - reflexivity.
  - destruct (count <=? spawned); [ reflexivity | ].
    destruct (c_visible c); simpl; rewrite IH; reflexivity.
Qed.

Lemma spawnConfetti_loop_visible (pool : list Confetti) :
  forall spawned k,
  visibleCount (spawnConfetti_loop pos count spawned rnd k pool)
    = visibleCount pool + Nat.min (count - spawned) (hiddenCount pool).
Proof.
  unfold visibleCount, hiddenCount.
  induction pool as [ | c rest IH ]; intros spawned k; simpl.
  - rewrite Nat.min_0_r. reflexivity.
  - destruct (count <=? spawned) eqn:E.
    + apply Nat.leb_le in E.
      replace (count - spawned) with 0 by lia. simpl. lia.
    + apply Nat.leb_gt in E.
      destruct (c_visible c) eqn:V; simpl; rewrite ?V; simpl; rewrite IH.
      * reflexivity.
      * replace (count - spawned) with (S (count - S spawned)) by lia.
        simpl. lia.
Qed.

Lemma spawnConfetti_loop_keeps (pool : list Confetti) :
  forall spawned k i c,
  nth_error pool i = Some c -> c_visible c = true ->
  nth_error (spawnConfetti_loop pos count spawned rnd k pool) i = Some c.
Proof.
  induction pool as [ | c0 rest IH ]; intros spawned k i c Hn Hv.
  - destruct i; discriminate.
  - simpl. destruct (count <=? spawned); [ exact Hn | ].
    destruct i as [ | i ]; simpl in Hn.
    + injection Hn as ->. rewrite Hv. reflexivity.
    + destruct (c_visible c0); simpl; apply IH; assumption.
Qed.

End ConfettiSpawn.

(** X1: a spawn request never changes the size of the pool, and it shows
    exactly as many particles as requested or, when fewer slots are
    hidden, exactly the hidden ones: a request larger than the free
    slots is served in part, without error. *)
Theorem spawnConfetti_activates (pos : Vec) (count : nat) (rnd : nat -> R)
    (pool : list Confetti) :
  List.length (spawnConfetti pos count rnd pool) = List.length pool /\
  visibleCount (spawnConfetti pos count rnd pool)
    = (visibleCount pool + Nat.min count (hiddenCount pool))%nat /\
  hiddenCount (spawnConfetti pos count rnd pool)
    = (hiddenCount pool - count)%nat.
Proof.
  assert (P : forall l : list Confetti,
             (visibleCount l + hiddenCount l)%nat = List.length l).
  { unfold visibleCount, hiddenCount.
    induction l as [ | c l IH ]; simpl; [ reflexivity | ].
    destruct (c_visible c); simpl; lia. }
  assert (L := spawnConfetti_loop_length pos count rnd pool 0 0).
  assert (V := spawnConfetti_loop_visible pos count rnd pool 0 0).
  rewrite Nat.sub_0_r in V.
  unfold spawnConfetti. split; [ exact L | ]. split; [ exact V | ].
  pose proof (P pool). pose proof (P (spawnConfetti_loop pos count 0 rnd 0 pool)).
  lia.
Qed.

(** X2: a spawn request leaves every particle that is already visible
    exactly as it is (position, velocity and remaining life), whatever
    the random numbers are. *)
Theorem spawnConfetti_keeps_visible (pos : Vec) (count : nat) (rnd : nat -> R)
    (pool : list Confetti) (i : nat) (c : Confetti) :
  nth_error pool i = Some c -> c_visible c = true ->
  nth_error (spawnConfetti pos count rnd pool) i = Some c.
Proof. apply spawnConfetti_loop_keeps. Qed.

Lemma spawnConfetti_keeps_visible_witness :
  nth_error
    (spawnConfetti Vec3.zero 2 (fun _ => 0.5)
       [mkConfetti true (Vec3.mk 1 2 3) 0 Vec3.zero 1.5;
        mkConfetti false Vec3.zero 0 Vec3.zero 0]) 0
  = Some (mkConfetti true (Vec3.mk 1 2 3) 0 Vec3.zero 1.5).
Proof.
  exact (spawnConfetti_keeps_visible Vec3.zero 2 (fun _ => 0.5)
           [mkConfetti true (Vec3.mk 1 2 3) 0 Vec3.zero 1.5;
            mkConfetti false Vec3.zero 0 Vec3.zero 0] 0
           (mkConfetti true (Vec3.mk 1 2 3) 0 Vec3.zero 1.5) eq_refl eq_refl).
Defined.

Section ConfettiUpdate.

Lemma updateParticle_hidden (dt : R) (c : Confetti) :
  c_visible c = false -> updateParticle dt c = c.
Proof. intro H. unfold updateParticle. rewrite H. reflexivity. Qed.

Lemma updateParticle_visible (dt : R) (c : Confetti) :
  c_visible (updateParticle dt c) = true ->
  c_visible c = true /\
  c_life (updateParticle dt c) = c_life c - dt /\
  0 < c_life (updateParticle dt c) /\
  -1 <= Vec3.y (c_position (updateParticle dt c)) /\
  c_vel (updateParticle dt c)
    = Vec3.setY (c_vel c) (Vec3.y (c_vel c) - 9.8 * dt) /\
  c_position (updateParticle dt c)
    = Vec3.addScaledVector (c_position c) (c_vel (updateParticle dt c)) dt.
Proof.
  unfold updateParticle. destruct (c_visible c) eqn:V; simpl.
  - destruct (Rleb (c_life c - dt) 0) eqn:L; simpl; [ discriminate | ].
    destruct (Rltb _ (-1)) eqn:Y; simpl; [ discriminate | ].
    intros _. apply Rleb_false in L. apply Rltb_false in Y.
    repeat split; try reflexivity; assumption.
  - rewrite V. discriminate.
Qed.

Lemma updatesParticle_hidden (dts : list R) (c : Confetti) :
  c_visible c = false -> updatesParticle dts c = c.
Proof.
  intro H. unfold updatesParticle.
  induction dts as [ | dt dts IH ]; simpl; [ reflexivity | ].
  rewrite updateParticle_hidden by exact H. exact IH.
Qed.

Lemma updatesParticle_visible (dts : list R) :
  forall c : Confetti,
  dts <> [] ->
  c_visible (updatesParticle dts c) = true ->
  c_visible c = true /\
  c_life (updatesParticle dts c) = c_life c - sumR dts /\
  0 < c_life (updatesParticle dts c).
Proof.
  induction dts as [ | dt dts IH ]; intros c Hne Hv; [ contradiction | ].
  change (updatesParticle (dt :: dts) c)
    with (updatesParticle dts (updateParticle dt c)) in *.
  destruct dts as [ | dt' dts' ].
  - unfold updatesParticle in *; simpl in *.
    destruct (updateParticle_visible dt c Hv) as (V & L & P & _).
    repeat split; [ exact V | rewrite L; lra | exact P ].
  - destruct (IH (updateParticle dt c)) as (V1 & L1 & P1);
      [ discriminate | exact Hv | ].
    destruct (updateParticle_visible dt c V1) as (V & L & _).
    repeat split; [ exact V | | exact P1 ].
    rewrite L1, L. simpl. lra.
Qed.

Lemma updatesConfetti_map (dts : list R) :
  forall pool : list Confetti,
  updatesConfetti dts pool = map (updatesParticle dts) pool.
Proof.
  unfold updatesConfetti, updatesParticle.
  induction dts as [ | dt dts IH ]; intro pool; simpl.
  - rewrite map_id. reflexivity.
  - rewrite IH. unfold updateConfetti. rewrite map_map. reflexivity.
Qed.

Lemma spawnConfetti_loop_life (pos : Vec) (count : nat) (rnd : nat -> R) (b : R) :
  (forall k, 1.2 + rnd k * 2 <= b) ->
  forall (pool : list Confetti) (spawned k : nat),
  Forall (fun c => c_visible c = true -> c_life c <= b) pool ->
  Forall (fun c => c_visible c = true -> c_life c <= b)
         (spawnConfetti_loop pos count spawned rnd k pool).
Proof.
  intros Hr. induction pool as [ | c rest IH ]; intros spawned k Hall; simpl.
  - constructor.
  - destruct (count <=? spawned)%nat; [ exact Hall | ].
    inversion Hall as [ | c' rest' Hc Hrest ]; subst.
    destruct (c_visible c) eqn:V.
    + constructor; [ intros _; apply Hc; reflexivity | apply IH, Hrest ].
    + constructor; [ intros _; simpl; apply Hr | apply IH, Hrest ].
Qed.

End ConfettiUpdate.

(** X3: an update never shows a hidden particle and never touches one,
    and it keeps the pool size.  A particle still visible after the
    update has lost [dt] of life and 9.8*[dt] of vertical velocity, has
    moved by its new velocity times [dt], has life left and is not below
    height -1. *)
Theorem updateConfetti_step (dt : R) (pool : list Confetti) :
  List.length (updateConfetti dt pool) = List.length pool /\
  (forall (i : nat) (c' : Confetti),
     nth_error (updateConfetti dt pool) i = Some c' ->
     exists c : Confetti,
       nth_error pool i = Some c /\
       (c_visible c = false -> c' = c) /\
       (c_visible c' = true ->
          c_visible c = true /\
          c_life c' = c_life c - dt /\ 0 < c_life c' /\
          -1 <= Vec3.y (c_position c') /\
          c_vel c' = Vec3.setY (c_vel c) (Vec3.y (c_vel c) - 9.8 * dt) /\
          c_position c' = Vec3.addScaledVector (c_position c) (c_vel c') dt)).
Proof.
  unfold updateConfetti. split; [ apply length_map | ].
  intros i c' H. rewrite nth_error_map in H.
  destruct (nth_error pool i) as [ c | ]; [ | discriminate ].
  injection H as <-. exists c. split; [ reflexivity | ].
  split; [ apply updateParticle_hidden | apply updateParticle_visible ].
Qed.

(** X4: confetti always disappear.  If the random numbers are at most 1
    (as [Math.random] gives them) and no visible particle of the pool
    has more than 3.2 s of life, then after a spawn request every
    particle of the pool is hidden once updates totalling at least
    3.2 s have run, whatever the individual frame deltas are. *)
Theorem confetti_gone_after (pos : Vec) (count : nat) (rnd : nat -> R)
    (pool : list Confetti) (dts : list R) :
  (forall k, rnd k <= 1) ->
  Forall (fun c => c_visible c = true -> c_life c <= 3.2) pool ->
  3.2 <= sumR dts ->
  Forall (fun c => c_visible c = false)
         (updatesConfetti dts (spawnConfetti pos count rnd pool)).
Proof.
  intros Hr Hall Hsum.
  assert (Hne : dts <> []).
  { intros ->. simpl in Hsum. lra. }
  assert (S : Forall (fun c => c_visible c = true -> c_life c <= 3.2)
                     (spawnConfetti pos count rnd pool)).
  { apply spawnConfetti_loop_life; [ | exact Hall ].
    intro k. specialize (Hr k). lra. }
  rewrite updatesConfetti_map. apply Forall_map.
  eapply Forall_impl; [ | exact S ].
  intros c Hc. simpl.
  destruct (c_visible (updatesParticle dts c)) eqn:V; [ | reflexivity ].
  destruct (updatesParticle_visible dts c Hne V) as (V0 & L & P).
  specialize (Hc V0). lra.
Qed.

Lemma confetti_gone_after_witness :
  Forall (fun c => c_visible c = false)
         (updatesConfetti [2; 1.5]
            (spawnConfetti (Vec3.mk 5 0.05 (-3)) 60 (fun _ => 0.5)
               (createConfettiPool 160))).
Proof.
  apply (confetti_gone_after (Vec3.mk 5 0.05 (-3)) 60 (fun _ => 0.5)
           (createConfettiPool 160) [2; 1.5]).
  - intro k. lra.
  - unfold createConfettiPool. apply Forall_forall. intros c Hin.
    apply repeat_spec in Hin. subst c. simpl. discriminate.
  - simpl. lra.
Defined.

(** ** Contacts with static boxes, planks and ramps *)

Section Contacts.
Import Vec3 Vec3Facts.

Lemma length_le_of_sq (a b : t) : lengthSq a <= lengthSq b -> length a <= length b.
Proof. intro H. unfold length. apply sqrt_le_1_alt, H. Qed.

Lemma reflect_unit (v n : t) : lengthSq n = 1 -> lengthSq (reflect v n) = lengthSq v.
Proof.
  intro H. unfold lengthSq in H.
  unfold reflect, lengthSq, sub, multiplyScalar, dot; simpl.
  set (k := x v * x n + y v * y n + z v * z n).
  replace ((x v - x n * (2 * k)) * (x v - x n * (2 * k))
           + (y v - y n * (2 * k)) * (y v - y n * (2 * k))
           + (z v - z n * (2 * k)) * (z v - z n * (2 * k)))
    with (x v * x v + y v * y v + z v * z v
          + 4 * k * k * (x n * x n + y n * y n + z n * z n) - 4 * k * k)
    by (unfold k; ring).
  rewrite H. ring.
Qed.

Lemma reflect_null (v n : t) : lengthSq n = 0 -> reflect v n = v.
Proof.
  intro H. pose proof (length_zero_inv n) as Z.
  unfold length in Z. rewrite H, sqrt_0 in Z.
  destruct (Z eq_refl) as (Hx & Hy & Hz).
  destruct v as [vx vy vz].
  unfold reflect, sub, multiplyScalar; simpl. rewrite Hx, Hy, Hz.
  apply mk_ext; ring.
Qed.

(** A normalized vector has squared length 1, or 0 when the vector was
    null. *)
Lemma normalize_lengthSq (d : t) :
  (0 < lengthSq d /\ lengthSq (normalize d) = 1) \/
  (lengthSq d = 0 /\ lengthSq (normalize d) = 0).
Proof.
  pose proof (lengthSq_nonneg d) as Hn.
  destruct (Rle_lt_dec (lengthSq d) 0) as [Hz | Hp].
  - right. assert (E : lengthSq d = 0) by lra. split; [ exact E | ].
    unfold normalize, length. rewrite E, sqrt_0, jsOr_zero.
    unfold divideScalar. rewrite lengthSq_multiplyScalar, E. ring.
  - left. split; [ exact Hp | ].
    pose proof (length_normalize d Hp) as L.
    rewrite <- (length_sqr (normalize d)), L. ring.
Qed.

Lemma boxNormal_unit (p : t) (m : Mesh) :
  lengthSq (boxNormal p m) = 1 /\ y (boxNormal p m) = 0.
Proof.
  unfold boxNormal.
  set (d := setY (subVectors p (position m)) 0).
  destruct (normalize_lengthSq d) as [[Hp Hl] | [Hz Hl]]; rewrite Hl.
  - rewrite (proj2 (Rltb_false 1 1e-6)) by lra.
    split; [ exact Hl | ].
    unfold normalize, divideScalar, multiplyScalar, d, setY; simpl. ring.
  - rewrite (proj2 (Rltb_true 0 1e-6)) by lra.
    unfold lengthSq; simpl. split; ring.
Qed.

Lemma collide_box_contact (m : Mesh) (p v : t) :
  sphereIntersectsBox p BALL_RADIUS m = true ->
  collideObstacle (OBox m) p v =
    (add p (multiplyScalar (boxNormal p m) 0.04),
     multiplyScalar (reflect v (boxNormal p m)) 0.7,
     OBox m).
Proof. intro H. unfold collideObstacle. rewrite H. reflexivity. Qed.

Lemma collide_box_clear (m : Mesh) (p v : t) :
  sphereIntersectsBox p BALL_RADIUS m = false ->
  collideObstacle (OBox m) p v = (p, v, OBox m).
Proof. intro H. unfold collideObstacle. rewrite H. reflexivity. Qed.

End Contacts.

(** X5: a static box in contact with the ball scales the speed by
    exactly 0.7 (the reflection itself keeps the speed), keeps the
    ball's height and moves it horizontally by exactly 0.04, away from
    the box centre: unless the ball is exactly above the centre, its
    horizontal distance to the centre grows by exactly 0.04.  The box
    itself is never changed. *)
Theorem box_contact (m : Mesh) (p v : Vec) :
  sphereIntersectsBox p BALL_RADIUS m = true ->
  exists p' v' : Vec,
    collideObstacle (OBox m) p v = (p', v', OBox m) /\
    Vec3.length v' = 0.7 * Vec3.length v /\
    Vec3.y p' = Vec3.y p /\
    spec_horizontalDistance p' p = 0.04 /\
    (0 < spec_horizontalDistance p (position m) ->
     spec_horizontalDistance p' (position m)
       = spec_horizontalDistance p (position m) + 0.04).
Proof.
  intro H. rewrite collide_box_contact by exact H.
  destruct (boxNormal_unit p m) as [Hu Hy].
  eexists; eexists. split; [ reflexivity | ].
  split; [ | split; [ | split ] ].
  - rewrite Vec3Facts.length_multiplyScalar by lra.
    unfold Vec3.length. rewrite reflect_unit by exact Hu. reflexivity.
  - simpl. rewrite Hy. ring.
  - unfold spec_horizontalDistance; simpl.
    unfold Vec3.lengthSq in Hu. rewrite Hy in Hu.
    apply sqrt_of_square; [ lra | ].
    set (nx := Vec3.x (boxNormal p m)) in *.
    set (nz := Vec3.z (boxNormal p m)) in *.
    replace ((Vec3.x p + nx * 0.04 - Vec3.x p) * (Vec3.x p + nx * 0.04 - Vec3.x p)
             + (Vec3.z p + nz * 0.04 - Vec3.z p) * (Vec3.z p + nz * 0.04 - Vec3.z p))
      with (0.04 * 0.04 * (nx * nx + 0 * 0 + nz * nz)) by ring.
    rewrite Hu. ring.
  - intro Hpos. unfold spec_horizontalDistance in *.
    set (dx := Vec3.x p - Vec3.x (position m)) in *.
    set (dz := Vec3.z p - Vec3.z (position m)) in *.
    set (L := sqrt (dx * dx + dz * dz)) in *.
    assert (HL : L * L = dx * dx + dz * dz).
    { apply sqrt_sqrt. nra. }
    assert (Hd : Vec3.lengthSq (Vec3.setY (Vec3.subVectors p (position m)) 0)
                 = dx * dx + dz * dz).
    { unfold Vec3.lengthSq, Vec3.setY, Vec3.subVectors, Vec3.sub; simpl.
      unfold dx, dz. ring. }
    assert (Hlen : Vec3.length (Vec3.setY (Vec3.subVectors p (position m)) 0) = L).
    { unfold Vec3.length. rewrite Hd. reflexivity. }
    assert (Hn : boxNormal p m = Vec3.mk (dx * (1 / L)) 0 (dz * (1 / L))).
    { unfold boxNormal.
      destruct (normalize_lengthSq (Vec3.setY (Vec3.subVectors p (position m)) 0))
        as [[Hp Hl] | [Hz Hl]].
      - rewrite Hl. rewrite (proj2 (Rltb_false 1 1e-6)) by lra.
        unfold Vec3.normalize. rewrite Hlen. rewrite jsOr_nonzero by lra.
        unfold Vec3.divideScalar, Vec3.multiplyScalar, Vec3.setY, Vec3.subVectors,
          Vec3.sub; simpl.
        apply Vec3Facts.mk_ext; unfold dx, dz; ring.
      - rewrite Hd in Hz. rewrite <- HL in Hz. nra. }
    rewrite Hn; simpl.
    apply sqrt_of_square; [ lra | ].
    fold dx dz.
    assert (Hi : L * (1 / L) = 1) by (field; lra).
    replace (Vec3.x p + dx * (1 / L) * 0.04 - Vec3.x (position m))
      with (dx * (1 + 0.04 * (1 / L))) by (unfold dx; ring).
    replace (Vec3.z p + dz * (1 / L) * 0.04 - Vec3.z (position m))
      with (dz * (1 + 0.04 * (1 / L))) by (unfold dz; ring).
    replace (dx * (1 + 0.04 * (1 / L)) * (dx * (1 + 0.04 * (1 / L)))
             + dz * (1 + 0.04 * (1 / L)) * (dz * (1 + 0.04 * (1 / L))))
      with ((dx * dx + dz * dz) * ((1 + 0.04 * (1 / L)) * (1 + 0.04 * (1 / L))))
      by ring.
    rewrite <- HL.
    replace (L * L * ((1 + 0.04 * (1 / L)) * (1 + 0.04 * (1 / L))))
      with ((L + 0.04 * (L * (1 / L))) * (L + 0.04 * (L * (1 / L)))) by ring.
    rewrite Hi. ring.
Qed.

Lemma box_contact_witness :
  exists p' v' : Vec,
    collideObstacle (OBox wallNearLimit) (Vec3.mk COURSE_LIMIT 0.6 0) (Vec3.mk 2 0 0)
      = (p', v', OBox wallNearLimit) /\
    Vec3.length v' = 0.7 * Vec3.length (Vec3.mk 2 0 0).
Proof.
  destruct (box_contact wallNearLimit (Vec3.mk COURSE_LIMIT 0.6 0) (Vec3.mk 2 0 0)
              wallNearLimit_hit) as (p' & v' & E & L & _).
  exists p', v'. split; assumption.
Defined.

(** X6: a rotating plank in contact with the ball scales the speed by
    exactly 0.75, keeps the ball's height, moves the ball horizontally
    by at most 0.03, and is itself not changed.  When the ball is
    exactly above the plank's centre there is no push at all, and the
    velocity is only scaled. *)
Theorem plank_contact (m : Mesh) (speed : R) (p v : Vec) :
  Vec3.distanceTo (Box3_clampPoint (Box3_setFromObject m) p) p
    <= BALL_RADIUS + 0.02 ->
  exists p' v' : Vec,
    collideObstacle (ORotating m speed) p v = (p', v', ORotating m speed) /\
    Vec3.length v' = 0.75 * Vec3.length v /\
    Vec3.y p' = Vec3.y p /\
    spec_horizontalDistance p' p <= 0.03 /\
    (spec_horizontalDistance p (position m) = 0 ->
     p' = p /\ v' = Vec3.multiplyScalar v 0.75).
Proof.
  intro H. unfold collideObstacle.
  rewrite (proj2 (Rleb_true _ _) H).
  set (d := Vec3.setY (Vec3.subVectors p (position m)) 0).
  assert (Hy : Vec3.y (Vec3.normalize d) = 0).
  { unfold Vec3.normalize, Vec3.divideScalar, Vec3.multiplyScalar, d, Vec3.setY;
      simpl. ring. }
  assert (Hd : Vec3.lengthSq d
               = (Vec3.x p - Vec3.x (position m)) * (Vec3.x p - Vec3.x (position m))
                 + (Vec3.z p - Vec3.z (position m)) * (Vec3.z p - Vec3.z (position m))).
  { unfold Vec3.lengthSq, d, Vec3.setY, Vec3.subVectors, Vec3.sub; simpl. ring. }
  eexists; eexists. split; [ reflexivity | ].
  assert (Hs : forall n : Vec, Vec3.y n = 0 ->
            spec_horizontalDistance (Vec3.add p (Vec3.multiplyScalar n 0.03)) p
            = 0.03 * sqrt (Vec3.lengthSq n)).
  { intros n Hn. unfold spec_horizontalDistance, Vec3.lengthSq; simpl. rewrite Hn.
    replace ((Vec3.x p + Vec3.x n * 0.03 - Vec3.x p)
             * (Vec3.x p + Vec3.x n * 0.03 - Vec3.x p)
             + (Vec3.z p + Vec3.z n * 0.03 - Vec3.z p)
               * (Vec3.z p + Vec3.z n * 0.03 - Vec3.z p))
      with (0.03 * 0.03 * (Vec3.x n * Vec3.x n + 0 * 0 + Vec3.z n * Vec3.z n)) by ring.
    rewrite sqrt_mult; [ | lra | nra ].
    rewrite sqrt_square by lra. reflexivity. }
  destruct (normalize_lengthSq d) as [[Hp Hl] | [Hz Hl]].
  - split; [ | split; [ | split ] ].
    + rewrite Vec3Facts.length_multiplyScalar by lra.
      unfold Vec3.length. rewrite reflect_unit by exact Hl. reflexivity.
    + unfold Vec3.add; cbn [Vec3.y]. unfold Vec3.multiplyScalar; cbn [Vec3.y].
      rewrite Hy. ring.
    + rewrite Hs by exact Hy. rewrite Hl, sqrt_1. lra.
    + unfold spec_horizontalDistance. rewrite <- Hd. intro H0.
      apply sqrt_eq_0 in H0; lra.
  - split; [ | split; [ | split ] ].
    + rewrite reflect_null by exact Hl.
      apply Vec3Facts.length_multiplyScalar. lra.
    + unfold Vec3.add; cbn [Vec3.y]. unfold Vec3.multiplyScalar; cbn [Vec3.y].
      rewrite Hy. ring.
    + rewrite Hs by exact Hy. rewrite Hl, sqrt_0. lra.
    + intros _. rewrite reflect_null by exact Hl.
      split; [ | reflexivity ].
      destruct (length_zero_inv (Vec3.normalize d)) as (Nx & Ny & Nz).
      { unfold Vec3.length. rewrite Hl. apply sqrt_0. }
      destruct p as [px py pz].
      unfold Vec3.add, Vec3.multiplyScalar. rewrite Nx, Ny, Nz. simpl.
      apply Vec3Facts.mk_ext; ring.
Qed.

(** X7: a ramp is decided by its footprint test alone.  When the ball
    is inside the footprint (horizontal offset from the ramp's centre
    below half the width plus 0.6, and depth offset below half the
    depth plus 0.6, with the defaults 4, 6 and 1.2 for missing data)
    the ball is put at the ball radius plus the ramp's height times the
    clamped fraction of the depth it has travelled, the vertical
    velocity is scaled by 0.2, and nothing else changes: the resulting
    height lies between the ball radius and the ball radius plus the
    ramp's height, it is the ball radius at or before the low edge and
    the full height at or beyond the far edge.  When the ball is
    outside the footprint on either axis, ball and velocity are left
    exactly as they were.  In both cases the horizontal position, the
    horizontal velocity and the ramp itself never change. *)
Theorem ramp_contact (m : Mesh) (data : option RampData) (p v : Vec) :
  snd (collideObstacle (ORamp m data) p v) = ORamp m data /\
  Vec3.x (fst (fst (collideObstacle (ORamp m data) p v))) = Vec3.x p /\
  Vec3.z (fst (fst (collideObstacle (ORamp m data) p v))) = Vec3.z p /\
  Vec3.x (snd (fst (collideObstacle (ORamp m data) p v))) = Vec3.x v /\
  Vec3.z (snd (fst (collideObstacle (ORamp m data) p v))) = Vec3.z v /\
  (fst (collideObstacle (ORamp m data) p v) = (p, v) \/
   (Vec3.y (snd (fst (collideObstacle (ORamp m data) p v))) = Vec3.y v * 0.2 /\
    BALL_RADIUS + Rmin 0 (dataOr data height 1.2)
      <= Vec3.y (fst (fst (collideObstacle (ORamp m data) p v)))
      <= BALL_RADIUS + Rmax 0 (dataOr data height 1.2))) /\
  (Rabs (Vec3.x p - Vec3.x (position m)) < dataOr data width 4 / 2 + 0.6 ->
   Rabs (Vec3.z p - Vec3.z (position m)) < dataOr data depth 6 / 2 + 0.6 ->
   collideObstacle (ORamp m data) p v
     = (Vec3.setY p
          (BALL_RADIUS
           + dataOr data height 1.2
             * MathUtils_clamp
                 ((Vec3.z p - (Vec3.z (position m) - dataOr data depth 6 / 2))
                  / dataOr data depth 6) 0 1),
        Vec3.setY v (Vec3.y v * 0.2), ORamp m data) /\
     (0 < dataOr data depth 6 ->
      Vec3.z p <= Vec3.z (position m) - dataOr data depth 6 / 2 ->
      Vec3.y (fst (fst (collideObstacle (ORamp m data) p v))) = BALL_RADIUS) /\
     (0 < dataOr data depth 6 ->
      Vec3.z (position m) + dataOr data depth 6 / 2 <= Vec3.z p ->
      Vec3.y (fst (fst (collideObstacle (ORamp m data) p v)))
        = BALL_RADIUS + dataOr data height 1.2)) /\
  (dataOr data width 4 / 2 + 0.6 <= Rabs (Vec3.x p - Vec3.x (position m)) \/
   dataOr data depth 6 / 2 + 0.6 <= Rabs (Vec3.z p - Vec3.z (position m)) ->
   collideObstacle (ORamp m data) p v = (p, v, ORamp m data)).
Proof.
  split; [ | split; [ | split; [ | split; [ | split; [ | split; [ | split ] ] ] ] ] ].
  - unfold collideObstacle. destruct (Rltb _ _ && Rltb _ _); reflexivity.
  - unfold collideObstacle. destruct (Rltb _ _ && Rltb _ _); reflexivity.
  - unfold collideObstacle. destruct (Rltb _ _ && Rltb _ _); reflexivity.
  - unfold collideObstacle. destruct (Rltb _ _ && Rltb _ _); reflexivity.
  - unfold collideObstacle. destruct (Rltb _ _ && Rltb _ _); reflexivity.
  - unfold collideObstacle.
    destruct (Rltb _ _ && Rltb _ _); simpl.
    + right. split; [ reflexivity | ].
      set (h := dataOr data height 1.2).
      set (lz := (Vec3.z p - (Vec3.z (position m) - dataOr data depth 6 / 2))
                 / dataOr data depth 6).
      assert (Ht : 0 <= MathUtils_clamp lz 0 1 <= 1).
      { unfold MathUtils_clamp. split; [ apply Rmax_l | ].
        apply Rmax_lub; [ lra | apply Rmin_l ]. }
      set (tt := MathUtils_clamp lz 0 1) in *.
      unfold Rmin, Rmax. destruct (Rle_dec 0 h); nra.
    + left. reflexivity.
  - intros Hx Hz.
    assert (E : collideObstacle (ORamp m data) p v
                = (Vec3.setY p
                     (BALL_RADIUS
                      + dataOr data height 1.2
                        * MathUtils_clamp
                            ((Vec3.z p - (Vec3.z (position m) - dataOr data depth 6 / 2))
                             / dataOr data depth 6) 0 1),
                   Vec3.setY v (Vec3.y v * 0.2), ORamp m data)).
    { unfold collideObstacle.
      rewrite (proj2 (Rltb_true _ _) Hx), (proj2 (Rltb_true _ _) Hz). reflexivity. }
    split; [ exact E | ]. rewrite E. cbn [fst snd]. unfold Vec3.setY; cbn [Vec3.y].
    set (d := dataOr data depth 6). set (h := dataOr data height 1.2).
    split.
    + intros Hd Hlow.
      assert (L : (Vec3.z p - (Vec3.z (position m) - d / 2)) / d <= 0).
      { apply Rmult_le_reg_r with d; [ exact Hd | ].
        unfold Rdiv. rewrite Rmult_assoc, Rinv_l by lra. lra. }
      unfold MathUtils_clamp. rewrite Rmin_right by lra.
      rewrite Rmax_left by exact L. ring.
    + intros Hd Hfar.
      assert (L : 1 <= (Vec3.z p - (Vec3.z (position m) - d / 2)) / d).
      { apply Rmult_le_reg_r with d; [ exact Hd | ].
        unfold Rdiv. rewrite Rmult_assoc, Rinv_l by lra. lra. }
      unfold MathUtils_clamp. rewrite Rmin_left by exact L.
      rewrite Rmax_right by lra. ring.
  - intros Hout. unfold collideObstacle.
    destruct Hout as [Hx | Hz].
    + rewrite (proj2 (Rltb_false _ _)) by exact Hx. reflexivity.
    + rewrite (proj2 (Rltb_false _ _) Hz), andb_false_r. reflexivity.
Qed.

(** The second ramp of level 5 under the ball at its spawn point: the
    ball is inside the footprint, 0.5 + 1.5 = 2 units beyond the low
    edge of a ramp 3 deep, so it is lifted by two thirds of 1.2. *)
Lemma ramp_contact_witness :
  collideObstacle level5_rampB (Vec3.mk 0 BALL_RADIUS 0) (Vec3.mk 1 1 0)
    = (Vec3.mk 0 1.4 0, Vec3.mk 1 0.2 0, level5_rampB).
Proof.
  destruct (ramp_contact (mkMesh (Vec3.mk 2 0.3 (-0.5)) 0 (Vec3.mk 6 0.6 3))
              (Some (mkRampData 6 3 1.2))
              (Vec3.mk 0 BALL_RADIUS 0) (Vec3.mk 1 1 0))
    as (_ & _ & _ & _ & _ & _ & Hin & _).
  destruct Hin as (E & _).
  - unfold dataOr; simpl. rewrite jsOr_nonzero by lra.
    unfold Rabs; destruct (Rcase_abs _); lra.
  - unfold dataOr; simpl. rewrite jsOr_nonzero by lra.
    unfold Rabs; destruct (Rcase_abs _); lra.
  - unfold level5_rampB. rewrite E. unfold dataOr; simpl.
    rewrite !jsOr_nonzero by lra.
    unfold MathUtils_clamp, BALL_RADIUS.
    rewrite Rmin_right by lra. rewrite Rmax_right by lra.
    f_equal. f_equal; apply Vec3Facts.mk_ext; simpl; lra.
Defined.

(** ** Speed never grows without a moving block *)

Section Speed.
Import Vec3 Vec3Facts.

Lemma wallCollisions_speed (p v : t) :
  lengthSq (snd (wallCollisions p v)) <= lengthSq v.
Proof.
  rewrite wallCollisions_spec. unfold lengthSq, spec_bounceAxis; simpl.
  destruct (Rltb (x p) (- COURSE_LIMIT) || Rltb COURSE_LIMIT (x p));
    destruct (Rltb (z p) (- COURSE_LIMIT) || Rltb COURSE_LIMIT (z p)); nra.
Qed.

Lemma integrate_speed_le (f dt : R) (p v : t) :
  0 <= f * dt -> length (snd (integrate f dt p v)) <= length v.
Proof.
  intro Hfd. destruct (Rlt_le_dec EPS (lengthSq v)) as [H | H].
  - rewrite integrate_guard_true by exact H.
    assert (Hsq : 0 < lengthSq v) by (pose proof EPS_pos; lra).
    pose proof (decay_speed f dt p v Hsq) as D.
    destruct (decayAndTranslate f dt p v) as [p1 v1]; simpl in D.
    apply Rle_trans with (length v1).
    + apply length_le_of_sq, wallCollisions_speed.
    + rewrite D. pose proof (length_nonneg v). apply Rmax_lub; lra.
  - rewrite integrate_guard_false by exact H. simpl; lra.
Qed.

Lemma collideObstacle_speed (o : Obstacle) (p v : t) :
  noMoving [o] = true ->
  lengthSq (snd (fst (collideObstacle o p v))) <= lengthSq v.
Proof.
  pose proof (lengthSq_nonneg v) as Hv. intro Hn.
  destruct o as [m | m ax amp spd bp | m spd | m data | c r];
    try (simpl in Hn; discriminate); clear Hn.
  - destruct (sphereIntersectsBox p BALL_RADIUS m) eqn:E.
    + rewrite (collide_box_contact m p v E); simpl.
      rewrite lengthSq_multiplyScalar.
      rewrite reflect_unit by apply boxNormal_unit. lra.
    + rewrite (collide_box_clear m p v E); simpl. lra.
  - unfold collideObstacle. destruct (Rleb _ _); simpl; [ | lra ].
    rewrite lengthSq_multiplyScalar.
    destruct (normalize_lengthSq (setY (subVectors p (position m)) 0))
      as [[_ Hl] | [_ Hl]].
    + rewrite reflect_unit by exact Hl. lra.
    + rewrite reflect_null by exact Hl. lra.
  - unfold collideObstacle. destruct (_ && _); simpl; [ | lra ].
    unfold lengthSq; simpl. nra.
  - simpl. lra.
Qed.

Lemma handleObstacleCollisions_speed (os : list Obstacle) :
  noMoving os = true ->
  forall p v : t,
  lengthSq (snd (fst (handleObstacleCollisions os p v))) <= lengthSq v.
Proof.
  induction os as [ | o rest IH ]; intros Hn p v; simpl.
  - lra.
  - assert (Ho : noMoving [o] = true /\ noMoving rest = true).
    { unfold noMoving in *; simpl in *. apply andb_true_iff in Hn as [H1 H2].
      rewrite H1. split; [ reflexivity | exact H2 ]. }
    destruct Ho as [Ho Hr].
    pose proof (collideObstacle_speed o p v Ho) as H1.
    destruct (collideObstacle o p v) as [[p1 v1] o1]; simpl in H1.
    pose proof (IH Hr p1 v1) as H2.
    destruct (handleObstacleCollisions rest p1 v1) as [[p2 v2] r2]; simpl in *.
    lra.
Qed.

Lemma frameFriction_nonneg (lvl : nat) (os : list Obstacle) (p : t) :
  0 <= frameFriction lvl os p.
Proof.
  rewrite frameFriction_cases.
  destruct (Nat.eqb lvl 4 && existsb (inPond p) os); lra.
Qed.

End Speed.

(** X8: one integration step, wall bounces included, never increases
    the speed when the frame delta is not negative. *)
Theorem integrate_never_accelerates (f dt : R) (p v : Vec) :
  0 <= f -> 0 <= dt ->
  Vec3.length (snd (integrate f dt p v)) <= Vec3.length v.
Proof.
  intros Hf Hdt. apply integrate_speed_le. apply Rmult_le_pos; assumption.
Qed.

Lemma integrate_never_accelerates_witness :
  Vec3.length (snd (integrate 1.5 0.1 (Vec3.mk (COURSE_LIMIT - 0.01) 0.6 0)
                      (Vec3.mk 2 0 0)))
    <= Vec3.length (Vec3.mk 2 0 0).
Proof.
  apply (integrate_never_accelerates 1.5 0.1); lra.
Defined.

(** X9: on a level without a moving block, a whole physics update
    (friction, walls, then boxes, planks, ramps and water) never
    increases the ball's speed when the frame delta is not negative.
    Only the impulse of a moving block can speed the ball up. *)
Theorem physics_never_accelerates (lvl : nat) (dt : R) (os : list Obstacle)
    (p v : Vec) :
  noMoving os = true -> 0 <= dt ->
  Vec3.length (snd (fst (physics lvl dt os p v))) <= Vec3.length v.
Proof.
  intros Hn Hdt. rewrite physics_unfold.
  pose proof (integrate_speed_le (frameFriction lvl os p) dt p v) as H1.
  destruct (integrate (frameFriction lvl os p) dt p v) as [p1 v1]; simpl in *.
  apply Rle_trans with (Vec3.length v1).
  - apply length_le_of_sq, handleObstacleCollisions_speed, Hn.
  - apply H1. apply Rmult_le_pos; [ apply frameFriction_nonneg | exact Hdt ].
Qed.

Lemma physics_never_accelerates_witness :
  Vec3.length (snd (fst (physics 4 0.1 (levelObstacles 4) (Vec3.mk 0 0.6 0)
                           (Vec3.mk 2 0 0))))
    <= Vec3.length (Vec3.mk 2 0 0).
Proof.
  apply (physics_never_accelerates 4 0.1 (levelObstacles 4)); [ reflexivity | lra ].
Defined.

(** ** The ball comes to rest *)

Lemma freeRun_speed_cases (f : R) (dts : list R) :
  forall p v : Vec,
  Vec3.lengthSq (snd (freeRun f dts (p, v))) <= EPS \/
  Vec3.length (snd (freeRun f dts (p, v))) = Vec3.length v - f * sumR dts.
Proof.
  induction dts as [ | dt dts IH ]; intros p v.
  - right. simpl. lra.
  - destruct (Rlt_le_dec EPS (Vec3.lengthSq v)) as [H | H].
    + simpl freeRun. cbn [fst snd].
      pose proof (integrateFree_speed f dt p v H) as S1.
      destruct (integrateFree f dt p v) as [p1 v1] eqn:E. cbn [snd] in S1.
      destruct (Rle_lt_dec (Vec3.length v - f * dt) 0) as [Hz | Hp].
      * left. rewrite Rmax_left in S1 by lra.
        assert (Z : Vec3.lengthSq v1 <= EPS).
        { rewrite <- (Vec3Facts.length_sqr v1), S1. pose proof EPS_pos. lra. }
        rewrite freeRun_frozen by exact Z. exact Z.
      * rewrite Rmax_right in S1 by lra.
        destruct (IH p1 v1) as [L | R]; [ left; exact L | right ].
        rewrite R, S1. simpl. lra.
    + left. rewrite freeRun_frozen by exact H. exact H.
Qed.

(** X10: friction brings the ball to rest.  Along collision-free
    integration steps, once the friction times the elapsed time has
    used up the initial speed, the squared speed is at or below the
    stationary epsilon, and from then on further steps change neither
    the velocity nor the position. *)
Theorem ball_comes_to_rest (f : R) (dts : list R) (p v : Vec) :
  Vec3.length v <= f * sumR dts ->
  Vec3.lengthSq (snd (freeRun f dts (p, v))) <= EPS /\
  (forall more : list R,
     freeRun f more (freeRun f dts (p, v)) = freeRun f dts (p, v)).
Proof.
  intro H.
  assert (Z : Vec3.lengthSq (snd (freeRun f dts (p, v))) <= EPS).
  { destruct (freeRun_speed_cases f dts p v) as [L | R]; [ exact L | ].
    pose proof (Vec3Facts.length_nonneg (snd (freeRun f dts (p, v)))) as N.
    rewrite <- (Vec3Facts.length_sqr (snd (freeRun f dts (p, v)))).
    assert (E : Vec3.length (snd (freeRun f dts (p, v))) = 0) by lra.
    rewrite E. pose proof EPS_pos. lra. }
  split; [ exact Z | ].
  intro more. destruct (freeRun f dts (p, v)) as [p1 v1]; simpl in Z.
  apply freeRun_frozen, Z.
Qed.

Lemma ball_comes_to_rest_witness :
  Vec3.lengthSq (snd (freeRun 1.5 [1; 1; 1; 1] (Vec3.zero, Vec3.mk 5 0 0))) <= EPS.
Proof.
  assert (L5 : Vec3.length (Vec3.mk 5 0 0) = 5).
  { unfold Vec3.length, Vec3.lengthSq; simpl. apply sqrt_of_square; lra. }
  assert (H : Vec3.length (Vec3.mk 5 0 0) <= 1.5 * sumR [1; 1; 1; 1]).
  { rewrite L5. simpl. lra. }
  exact (proj1 (ball_comes_to_rest 1.5 [1; 1; 1; 1] Vec3.zero (Vec3.mk 5 0 0) H)).
Defined.

(** ** Aim gesture *)

Lemma releaseImpulse_length (d : Vec) :
  Vec3.length (releaseImpulse d) = 5 * Rmin (Vec3.length d) 6.
Proof.
  pose proof (Vec3Facts.length_nonneg d) as Hn.
  assert (Hm : 0 <= Rmin (Vec3.length d) 6) by (apply Rmin_glb; lra).
  unfold releaseImpulse.
  destruct (normalize_lengthSq d) as [[Hp _] | [Hz _]].
  - rewrite Vec3Facts.length_setLength; [ ring | exact Hp | lra ].
  - assert (L : Vec3.length d = 0) by (unfold Vec3.length; rewrite Hz; apply sqrt_0).
    rewrite L. rewrite Rmin_left by lra.
    replace (0 * 5) with 0 by ring.
    rewrite Vec3Facts.setLength_zero_length, Vec3Facts.length_zero. ring.
Qed.

(** X11: the impulse of a released shot has length exactly five times
    the drag length, capped at 30 for drags of length 6 or more; a shot
    can never add more than 30 to the speed. *)
Theorem release_impulse_capped (d : Vec) :
  Vec3.length (releaseImpulse d) = 5 * Rmin (Vec3.length d) 6 /\
  Vec3.length (releaseImpulse d) <= 30 /\
  (6 <= Vec3.length d -> Vec3.length (releaseImpulse d) = 30).
Proof.
  rewrite releaseImpulse_length.
  split; [ reflexivity | ]. split.
  - pose proof (Rmin_r (Vec3.length d) 6). lra.
  - intro H. rewrite Rmin_right by exact H. ring.
Qed.

(** X12: a tap costs a stroke.  Releasing the pointer where it went down
    changes nothing of the ball (the impulse is null) but ends the aim
    and still counts one stroke. *)
Theorem tap_counts_a_stroke (env : Env) (ds : Vec) (s : State) :
  isAiming s = true -> dragStart s = Some ds -> setStrokesIsFn env = true ->
  exists s' : State,
    onPointerUp env ds s = Some s' /\
    velocity s' = velocity s /\ ballPos s' = ballPos s /\
    isAiming s' = false /\ strokes s' = S (strokes s).
Proof.
  intros Ha Hd Hf. rewrite (onPointerUp_aiming env ds ds s Ha Hd), Hf.
  eexists. split; [ reflexivity | ]. cbn [velocity ballPos isAiming strokes].
  split; [ | repeat split ].
  assert (L : Vec3.length (Vec3.subVectors ds ds) = 0).
  { unfold Vec3.length, Vec3.lengthSq, Vec3.subVectors, Vec3.sub; simpl.
    apply sqrt_of_square; [ lra | ring ]. }
  unfold releaseImpulse. rewrite L. rewrite Rmin_left by lra.
  replace (0 * 5) with 0 by ring.
  rewrite Vec3Facts.setLength_zero_length.
  destruct (velocity s) as [vx vy vz]. unfold Vec3.add, Vec3.zero; simpl.
  apply Vec3Facts.mk_ext; ring.
Qed.

Lemma tap_counts_a_stroke_witness :
  exists s' : State,
    onPointerUp level1_env shotDown
      (mkState (Vec3.mk 0 0.6 0) 1 (Vec3.mk 0 0 2) (mkSinking false 0 None None)
               false [] 0 true (Some shotDown) 0 3) = Some s' /\
    velocity s' = Vec3.mk 0 0 2 /\ strokes s' = 4%nat.
Proof.
  destruct (tap_counts_a_stroke level1_env shotDown
              (mkState (Vec3.mk 0 0.6 0) 1 (Vec3.mk 0 0 2) (mkSinking false 0 None None)
                       false [] 0 true (Some shotDown) 0 3)
              eq_refl eq_refl eq_refl) as (s' & E & V & _ & _ & S).
  exists s'. repeat split; assumption.
Defined.

Lemma distanceTo_vertical (a b : Vec) : Rabs (Vec3.y a - Vec3.y b) <= Vec3.distanceTo a b.
Proof.
  unfold Vec3.distanceTo, Vec3.distanceToSquared.
  rewrite <- sqrt_Rsqr_abs. apply sqrt_le_1_alt. unfold Rsqr. cbv zeta.
  pose proof (Rle_0_sqr (Vec3.x a - Vec3.x b)) as Hx.
  pose proof (Rle_0_sqr (Vec3.z a - Vec3.z b)) as Hz.
  unfold Rsqr in Hx, Hz. lra.
Qed.

(** X13: the ball cannot be aimed from 1.2 or more below it.  A
    pointer-down whose ground point lies at least 1.2 lower than the
    ball's centre (a ball lifted by a ramp to height 1.2 or more, the
    pointer on the ground plane) starts no aim and changes nothing. *)
Theorem pointer_down_out_of_reach (p : Vec) (s : State) :
  1.2 <= Vec3.y (ballPos s) - Vec3.y p ->
  onPointerDown p s = s.
Proof.
  intro H. unfold onPointerDown.
  rewrite (proj2 (Rltb_false _ _)); [ reflexivity | ].
  pose proof (distanceTo_vertical p (ballPos s)) as D.
  apply Rabs_le_inv in D. lra.
Qed.

Lemma pointer_down_out_of_reach_witness :
  onPointerDown Vec3.zero
    (mkState (Vec3.mk 0 1.4 0) 1 Vec3.zero (mkSinking false 0 None None)
             false [] 0 false None 0 0)
  = mkState (Vec3.mk 0 1.4 0) 1 Vec3.zero (mkSinking false 0 None None)
            false [] 0 false None 0 0.
Proof.
  apply pointer_down_out_of_reach. simpl. lra.
Defined.

(** ** The sink animation *)

Lemma smoothstep_range (x : R) : 0 <= x < 1 -> 0 <= smoothstep x < 1.
Proof.
  intros [H0 H1]. unfold smoothstep. split.
  - apply Rmult_le_pos; [ nra | lra ].
  - assert (E : 1 - x * x * (3 - 2 * x) = (1 - x) * (1 - x) * (1 + 2 * x)) by ring.
    assert (P : 0 < (1 - x) * (1 - x) * (1 + 2 * x)).
    { apply Rmult_lt_0_compat; [ apply Rmult_lt_0_compat; lra | lra ]. }
    lra.
Qed.

(** X14: a frame of a running sink that stays short of 1.2 s puts the
    ball on the segment from the stored start to the stored end at the
    smoothstep of the elapsed fraction, with scale 1 - 0.7 times that
    value; the scale is above 0.3 and at most 1, nothing is reported,
    and at an elapsed time of 0.6 s the ball is exactly half way with
    scale 0.65. *)
Theorem sink_frame_interpolates (env : Env) (dt : R) (s : State) (a b : Vec) :
  active (sinking s) = true ->
  start (sinking s) = Some a -> end_ (sinking s) = Some b ->
  0 <= t (sinking s) + dt < 1.2 ->
  exists s' : State,
    animate env dt s = Some s' /\
    ballPos s' = Vec3.lerpVectors a b (smoothstep ((t (sinking s) + dt) / 1.2)) /\
    ballScale s' = 1 - 0.7 * smoothstep ((t (sinking s) + dt) / 1.2) /\
    0 <= smoothstep ((t (sinking s) + dt) / 1.2) < 1 /\
    0.3 < ballScale s' <= 1 /\
    active (sinking s') = true /\
    holeCompleteCalls s' = holeCompleteCalls s /\
    (t (sinking s) + dt = 0.6 ->
     ballScale s' = 0.65 /\ ballPos s' = Vec3.lerpVectors a b 0.5).
Proof.
  intros Ha Hs He [H0 H1].
  rewrite animate_active by exact Ha.
  destruct (sinkingStep_running env dt (ballPos s) (ballScale s) (sinking s)
              (holeCompleteCalls s) Ha H1) as (p' & sc' & E & F).
  rewrite E. destruct (F a b Hs He) as [Fp Fs]. cbv zeta in Fp, Fs.
  assert (Hx : 0 <= (t (sinking s) + dt) / 1.2 < 1) by (split; lra).
  rewrite Rmin_right in Fp, Fs by lra.
  fold (smoothstep ((t (sinking s) + dt) / 1.2)) in Fp, Fs.
  pose proof (smoothstep_range _ Hx) as R.
  eexists. split; [ reflexivity | ].
  cbn [ballPos ballScale sinking active holeCompleteCalls].
  split; [ exact Fp | ]. split; [ exact Fs | ]. split; [ exact R | ].
  split; [ rewrite Fs; lra | ]. split; [ reflexivity | ]. split; [ reflexivity | ].
  intro Hm. rewrite Fp, Fs, Hm.
  assert (S5 : smoothstep (0.6 / 1.2) = 0.5) by (unfold smoothstep; lra).
  rewrite S5. split; [ lra | reflexivity ].
Qed.

Lemma sink_frame_interpolates_witness :
  exists s' : State,
    animate level1_env 0.6
      (mkState (Vec3.mk 0 0.6 0) 1 Vec3.zero
         (mkSinking true 0 (Some (Vec3.mk 0 0.6 0)) (Some level1_sinkEnd))
         true [] 0 false None 0 1) = Some s' /\
    ballScale s' = 0.65 /\
    ballPos s' = Vec3.lerpVectors (Vec3.mk 0 0.6 0) level1_sinkEnd 0.5.
Proof.
  assert (T : 0 <= 0 + 0.6 < 1.2) by lra.
  destruct (sink_frame_interpolates level1_env 0.6
              (mkState (Vec3.mk 0 0.6 0) 1 Vec3.zero
                 (mkSinking true 0 (Some (Vec3.mk 0 0.6 0)) (Some level1_sinkEnd))
                 true [] 0 false None 0 1)
              (Vec3.mk 0 0.6 0) level1_sinkEnd eq_refl eq_refl eq_refl T)
    as (s' & E & _ & _ & _ & _ & _ & _ & M).
  assert (M' : 0 + 0.6 = 0.6) by lra.
  destruct (M M') as [Hs Hp].
  exists s'. repeat split; assumption.
Defined.

Section SinkLiveness.

Variable env : Env.

Lemma noRetry_frames (dts : list R) : noRetry (frames dts) = true.
Proof. induction dts as [ | dt dts IH ]; simpl; [ reflexivity | exact IH ]. Qed.

Lemma sink_completes_aux (dts : list R) :
  forall s : State,
  wf s -> onHoleCompleteIsFn env = true ->
  active (sinking s) = true -> t (sinking s) < 1.2 ->
  1.2 <= t (sinking s) + sumR dts ->
  exists s' : State,
    run env (frames dts) s = Some s' /\
    active (sinking s') = false /\
    holeCompleteCalls s' = S (holeCompleteCalls s).
Proof.
  induction dts as [ | dt dts IH ]; intros s Hwf Hfn Ha Hlt Hsum.
  - simpl in Hsum. lra.
  - simpl in Hsum. simpl run.
    assert (Hlatch : holeTriggered s = true) by (apply (proj1 Hwf), Ha).
    destruct (end_ (sinking s)) as [e | ] eqn:He;
      [ | exfalso; apply (proj2 (proj1 Hwf Ha)); exact He ].
    rewrite animate_active by exact Ha.
    destruct (Rle_lt_dec 1.2 (t (sinking s) + dt)) as [Hdone | Hrun].
    + rewrite (sinkingStep_complete env dt _ _ _ _ e Ha He Hdone), Hfn.
      match goal with
      | |- context [run env (frames dts) ?st] =>
          assert (W1 : wf st);
          [ | destruct (run_potential env (frames dts) st W1 (noRetry_frames dts))
                as (s2 & E2 & W2 & P2 & M2) ]
      end.
      { unfold wf; simpl. split; [ discriminate | apply (proj2 Hwf) ]. }
      exists s2. split; [ exact E2 | ].
      unfold armed in P2; cbn [sinking active holeTriggered holeCompleteCalls] in *.
      rewrite Hlatch in P2. simpl in P2.
      destruct (active (sinking s2)); destruct (holeTriggered s2);
        simpl in P2; split; try reflexivity; lia.
    + destruct (sinkingStep_running env dt (ballPos s) (ballScale s) (sinking s)
                  (holeCompleteCalls s) Ha Hrun) as (p' & sc' & E & _).
      rewrite E.
      match goal with
      | |- context [run env (frames dts) ?st] =>
          destruct (IH st) as (s2 & E2 & A2 & C2)
      end.
      * unfold wf; simpl. rewrite He.
        split; [ intros _; split; [ exact Hlatch | discriminate ]
               | apply (proj2 Hwf) ].
      * exact Hfn.
      * reflexivity.
      * simpl. exact Hrun.
      * simpl. lra.
      * exists s2. split; [ exact E2 | ]. split; [ exact A2 | exact C2 ].
Qed.

End SinkLiveness.

(** X15: a sink always finishes.  From a running sink, any sequence of
    frames whose deltas bring the elapsed time to 1.2 s or more ends
    with the sink inactive and the completion callback invoked exactly
    once, however the time is cut into frames. *)
Theorem sink_completes (env : Env) (dts : list R) (s : State) :
  wf s -> onHoleCompleteIsFn env = true ->
  active (sinking s) = true -> t (sinking s) < 1.2 ->
  1.2 <= t (sinking s) + sumR dts ->
  exists s' : State,
    run env (frames dts) s = Some s' /\
    active (sinking s') = false /\
    holeCompleteCalls s' = S (holeCompleteCalls s).
Proof. apply sink_completes_aux. Qed.

Lemma sink_completes_witness :
  exists s' : State,
    run level1_env (frames [0.5; 0.5; 0.5])
      (mkState (Vec3.mk 0 0.6 0) 1 Vec3.zero
         (mkSinking true 0 (Some (Vec3.mk 0 0.6 0)) (Some level1_sinkEnd))
         true [] 0 false None 0 1) = Some s' /\
    active (sinking s') = false /\ holeCompleteCalls s' = 1%nat.
Proof.
  apply (sink_completes level1_env [0.5; 0.5; 0.5]).
  - unfold wf; simpl. split; [ intros _; split; [ reflexivity | discriminate ]
                             | discriminate ].
  - reflexivity.
  - reflexivity.
  - simpl. lra.
  - simpl. lra.
Defined.

(** ** Obstacles over a run *)

Section Evolution.

Lemma evolved_refl (o : Obstacle) : evolved 0 o o.
Proof.
  destruct o; simpl; repeat split; try reflexivity. ring.
Qed.

Lemma evolved_trans (T1 T2 : R) (o o1 o2 : Obstacle) :
  evolved T1 o o1 -> evolved T2 o1 o2 -> evolved (T1 + T2) o o2.
Proof.
  destruct o, o1; simpl; try contradiction; destruct o2; simpl; try contradiction.
  - intros -> ->. reflexivity.
  - intros (R1 & S1 & -> & -> & -> & ->) (R2 & S2 & -> & -> & -> & ->).
    repeat split; try reflexivity; congruence.
  - intros (P1 & S1 & -> & Y1) (P2 & S2 & -> & Y2).
    repeat split; try congruence. rewrite Y2, Y1. ring.
  - intros (-> & ->) (-> & ->). split; reflexivity.
  - intros (-> & ->) (-> & ->). split; reflexivity.
Qed.

Lemma Forall2_evolved_refl (os : list Obstacle) : Forall2 (evolved 0) os os.
Proof. induction os; constructor; [ apply evolved_refl | assumption ]. Qed.

Lemma Forall2_evolved_trans (T1 T2 : R) (os : list Obstacle) :
  forall os1 os2,
  Forall2 (evolved T1) os os1 -> Forall2 (evolved T2) os1 os2 ->
  Forall2 (evolved (T1 + T2)) os os2.
Proof.
  induction os as [ | o os IH ]; intros os1 os2 H1 H2.
  - inversion H1; subst. inversion H2; subst. constructor.
  - inversion H1 as [ | ? o1 ? os1' E1 F1 ]; subst.
    inversion H2 as [ | ? o2 ? os2' E2 F2 ]; subst.
    constructor; [ eapply evolved_trans; eassumption | eapply IH; eassumption ].
Qed.

Lemma animateObstacle_evolved (time dt : R) (o : Obstacle) :
  evolved dt o (animateObstacle time dt o).
Proof.
  destruct o as [m | m ax amp spd bp | m spd | m data | c r]; simpl;
    try (repeat split; reflexivity).
  destruct (String.eqb ax "x"); simpl; repeat split; reflexivity.
Qed.

Lemma collideObstacle_evolved (o : Obstacle) (p v : Vec) :
  evolved 0 o (snd (collideObstacle o p v)).
Proof.
  destruct o as [m | m ax amp spd bp | m spd | m data | c r];
    unfold collideObstacle.
  - destruct (sphereIntersectsBox _ _ _); apply evolved_refl.
  - destruct (Rltb _ _); [ | apply evolved_refl ].
    simpl. repeat split; reflexivity.
  - destruct (Rleb _ _); apply evolved_refl.
  - destruct (_ && _); apply evolved_refl.
  - apply evolved_refl.
Qed.

Lemma handleObstacleCollisions_evolved (os : list Obstacle) :
  forall p v : Vec,
  Forall2 (evolved 0) os (snd (handleObstacleCollisions os p v)).
Proof.
  induction os as [ | o rest IH ]; intros p v; simpl.
  - constructor.
  - pose proof (collideObstacle_evolved o p v) as H1.
    destruct (collideObstacle o p v) as [[p1 v1] o1]; simpl in H1.
    pose proof (IH p1 v1) as H2.
    destruct (handleObstacleCollisions rest p1 v1) as [[p2 v2] r2]; simpl in *.
    constructor; assumption.
Qed.

Lemma map_animateObstacle_evolved (time dt : R) (os : list Obstacle) :
  Forall2 (evolved dt) os (map (animateObstacle time dt) os).
Proof.
  induction os; simpl; constructor; [ apply animateObstacle_evolved | assumption ].
Qed.

Lemma animate_evolved (env : Env) (dt : R) (s s' : State) :
  animate env dt s = Some s' ->
  obstacleTime s' = obstacleTime s + dt /\
  Forall2 (evolved dt) (obstacles s) (obstacles s').
Proof.
  unfold animate.
  pose proof (map_animateObstacle_evolved (obstacleTime s + dt) dt (obstacles s)) as M.
  set (os0 := map (animateObstacle (obstacleTime s + dt) dt) (obstacles s)) in *.
  destruct (negb (active (sinking s))).
  - unfold physics.
    destruct (integrate _ dt (ballPos s) (velocity s)) as [p1 v1].
    pose proof (handleObstacleCollisions_evolved os0 p1 v1) as C.
    destruct (handleObstacleCollisions os0 p1 v1) as [[p2 v2] os2]; simpl in C.
    destruct (holeDetection env p2 v2 (sinking s) (holeTriggered s)) as [[v3 sk3] tr3].
    destruct (sinkingStep env dt p2 (ballScale s) sk3 (holeCompleteCalls s))
      as [[[[p4 sc4] sk4] c4] | ]; [ | discriminate ].
    intro E; injection E as <-; simpl. split; [ reflexivity | ].
    replace dt with (dt + 0) by ring.
    eapply Forall2_evolved_trans; eassumption.
  - destruct (holeDetection env (ballPos s) (velocity s) (sinking s) (holeTriggered s))
      as [[v3 sk3] tr3].
    destruct (sinkingStep env dt (ballPos s) (ballScale s) sk3 (holeCompleteCalls s))
      as [[[[p4 sc4] sk4] c4] | ]; [ | discriminate ].
    intro E; injection E as <-; simpl. split; [ reflexivity | exact M ].
Qed.

Lemma step_evolved (env : Env) (e : Event) (s s' : State) :
  step env e s = Some s' ->
  obstacleTime s' = obstacleTime s + frameTime [e] /\
  Forall2 (evolved (frameTime [e])) (obstacles s) (obstacles s').
Proof.
  destruct e as [dt | p | p | p | ]; simpl.
  - intro E. destruct (animate_evolved env dt s s' E) as [H1 H2].
    replace (dt + 0) with dt by ring. split; assumption.
  - intro E; injection E as <-. unfold onPointerDown.
    destruct (Rltb _ _); simpl; (split; [ ring | apply Forall2_evolved_refl ]).
  - unfold onPointerMove. destruct (negb (isAiming s)); [ | destruct (dragStart s) ];
      intro E; try discriminate; injection E as <-;
      (split; [ ring | apply Forall2_evolved_refl ]).
  - unfold onPointerUp. destruct (negb (isAiming s)); [ | destruct (dragStart s) ];
      intro E; try discriminate; injection E as <-; simpl;
      (split; [ ring | apply Forall2_evolved_refl ]).
  - intro E; injection E as <-. simpl.
    split; [ ring | apply Forall2_evolved_refl ].
Qed.

End Evolution.

(** X16: over any sequence of frames, aim gestures and retries, the
    obstacle clock advances by exactly the sum of the frame deltas (it
    runs during a sink and is not restarted by a retry), the obstacle
    list keeps its length and order, boxes, ramps and ponds stay exactly
    as created, each plank has turned by exactly its speed times that
    sum, and a moving block has only been translated. *)
Theorem run_obstacles_evolve (env : Env) (es : list Event) :
  forall s s' : State,
  run env es s = Some s' ->
  obstacleTime s' = obstacleTime s + frameTime es /\
  Forall2 (evolved (frameTime es)) (obstacles s) (obstacles s').
Proof.
  induction es as [ | e es IH ]; intros s s' H.
  - simpl in H. injection H as <-. simpl.
    split; [ ring | apply Forall2_evolved_refl ].
  - simpl in H. destruct (step env e s) as [ s1 | ] eqn:E1; [ | discriminate ].
    destruct (step_evolved env e s s1 E1) as [T1 F1].
    destruct (IH s1 s' H) as [T2 F2].
    assert (FT : frameTime (e :: es) = frameTime [e] + frameTime es).
    { destruct e; simpl; ring. }
    rewrite FT. split; [ rewrite T2, T1; ring | ].
    eapply Forall2_evolved_trans; eassumption.
Qed.

Lemma run_obstacles_evolve_witness :
  exists s' : State,
    run (levelEnv 3) [Frame 0.5; Retry; Frame 0.25]
        (initialState (levelObstacles 3)) = Some s' /\
    obstacleTime s' = 0 + (0.5 + (0.25 + 0)) /\
    Forall2 (evolved (0.5 + (0.25 + 0))) (levelObstacles 3) (obstacles s').
Proof.
  destruct (run_total (levelEnv 3) [Frame 0.5; Retry; Frame 0.25]
              (initialState (levelObstacles 3))
              (initialState_wf (levelObstacles 3))) as (s' & E & _).
  exists s'. split; [ exact E | ].
  exact (run_obstacles_evolve (levelEnv 3) [Frame 0.5; Retry; Frame 0.25]
           (initialState (levelObstacles 3)) s' E).
Defined.

(** ** A hole behind the back wall *)

Section BackWall.
Import Vec3 Vec3Facts.

Variable env : Env.

Hypothesis hole_behind : z (holePosition env) + HOLE_RADIUS <= - COURSE_LIMIT.

Lemma distanceTo_depth (a b : t) : Rabs (z a - z b) <= distanceTo a b.
Proof.
  unfold distanceTo, distanceToSquared.
  rewrite <- sqrt_Rsqr_abs. apply sqrt_le_1_alt. unfold Rsqr. cbv zeta.
  pose proof (Rle_0_sqr (x a - x b)) as Hx.
  pose proof (Rle_0_sqr (y a - y b)) as Hy.
  unfold Rsqr in Hx, Hy. lra.
Qed.

Lemma no_detection (p vel : t) (sk : Sinking) (trig : bool) :
  - COURSE_LIMIT <= z p ->
  holeDetection env p vel sk trig = (vel, sk, trig).
Proof.
  intro Hz.
  destruct (holeDetection_cases env p vel sk trig) as [E | (_ & _ & _ & D & _)];
    [ exact E | exfalso ].
  pose proof (distanceTo_depth p (holePosition env)) as Hd.
  apply Rabs_le_inv in Hd. lra.
Qed.

Lemma box_reach (m : Mesh) (p : t) :
  sphereIntersectsBox p BALL_RADIUS m = true ->
  z (bmin (Box3_setFromObject m)) - BALL_RADIUS <= z p.
Proof.
  unfold sphereIntersectsBox. intro H. apply Rleb_true in H.
  pose proof (distanceTo_depth (Box3_clampPoint (Box3_setFromObject m) p) p) as Hd.
  apply Rabs_le_inv in Hd.
  assert (Hc : z (bmin (Box3_setFromObject m))
               <= z (Box3_clampPoint (Box3_setFromObject m) p)).
  { unfold Box3_clampPoint, clamp; cbn [z]. apply Rmax_l. }
  set (q := Box3_clampPoint (Box3_setFromObject m) p) in *.
  lra.
Qed.

Lemma collideObstacle_back (o : Obstacle) (p v : t) :
  clearBack o -> - COURSE_LIMIT <= z p ->
  - COURSE_LIMIT <= z (fst (fst (collideObstacle o p v))) /\
  clearBack (snd (collideObstacle o p v)).
Proof.
  intros Hc Hz.
  destruct o as [m | m ax amp spd bp | m spd | m data | c r];
    try (simpl in Hc; contradiction).
  - destruct (sphereIntersectsBox p BALL_RADIUS m) eqn:E.
    + rewrite (collide_box_contact m p v E). cbn [fst snd add multiplyScalar z].
      split; [ | exact Hc ].
      pose proof (box_reach m p E) as Hr.
      destruct (boxNormal_unit p m) as [Hu _]. unfold lengthSq in Hu.
      unfold clearBack in Hc. unfold BALL_RADIUS in Hr.
      assert (Hn : -1 <= z (boxNormal p m)) by nra.
      lra.
    + rewrite (collide_box_clear m p v E). split; [ exact Hz | exact Hc ].
  - unfold collideObstacle. destruct (Rltb _ _); simpl; split; auto.
  - unfold collideObstacle. destruct (_ && _); simpl; split; auto.
  - simpl. split; auto.
Qed.

Lemma handleObstacleCollisions_back (os : list Obstacle) :
  forall p v : t,
  Forall clearBack os -> - COURSE_LIMIT <= z p ->
  - COURSE_LIMIT <= z (fst (fst (handleObstacleCollisions os p v))) /\
  Forall clearBack (snd (handleObstacleCollisions os p v)).
Proof.
  induction os as [ | o rest IH ]; intros p v Hall Hz; simpl.
  - split; [ exact Hz | constructor ].
  - inversion Hall as [ | ? ? Ho Hrest ]; subst.
    destruct (collideObstacle_back o p v Ho Hz) as [Z1 C1].
    destruct (collideObstacle o p v) as [[p1 v1] o1]; simpl in Z1, C1.
    destruct (IH p1 v1 Hrest Z1) as [Z2 C2].
    destruct (handleObstacleCollisions rest p1 v1) as [[p2 v2] r2]; simpl in *.
    split; [ exact Z2 | constructor; assumption ].
Qed.

Lemma animateObstacle_back (time dt : R) (o : Obstacle) :
  clearBack o -> clearBack (animateObstacle time dt o).
Proof.
  destruct o as [m | m ax amp spd bp | m spd | m data | c r]; simpl; auto.
  destruct (String.eqb ax "x"); simpl; auto.
Qed.

Lemma integrate_back (f dt : R) (p v : t) :
  - COURSE_LIMIT <= z p -> - COURSE_LIMIT <= z (fst (integrate f dt p v)).
Proof.
  intro Hz. destruct (Rlt_le_dec EPS (lengthSq v)) as [H | H].
  - apply (integrate_inside f dt p v H).
  - rewrite integrate_guard_false by exact H. exact Hz.
Qed.

(** The invariant of a level whose hole lies behind the back wall. *)
Lemma step_back (e : Event) (s : State) :
  active (sinking s) = false -> - COURSE_LIMIT <= z (ballPos s) ->
  Forall clearBack (obstacles s) ->
  (isAiming s = true -> dragStart s <> None) ->
  exists s' : State,
    step env e s = Some s' /\
    active (sinking s') = false /\ - COURSE_LIMIT <= z (ballPos s') /\
    Forall clearBack (obstacles s') /\
    (isAiming s' = true -> dragStart s' <> None) /\
    holeCompleteCalls s' = holeCompleteCalls s.
Proof.
  intros Ha Hz Hc Haim.
  destruct e as [dt | p | p | p | ]; simpl.
  - unfold animate. rewrite Ha; simpl negb; cbv iota.
    rewrite physics_unfold.
    set (os0 := map (animateObstacle (obstacleTime s + dt) dt) (obstacles s)).
    assert (C0 : Forall clearBack os0).
    { unfold os0. apply Forall_map.
      eapply Forall_impl; [ | exact Hc ]. intros o. apply animateObstacle_back. }
    pose proof (integrate_back (frameFriction (level env) os0 (ballPos s)) dt
                  (ballPos s) (velocity s) Hz) as Z1.
    destruct (integrate _ dt (ballPos s) (velocity s)) as [p1 v1]; cbn [fst snd] in *.
    destruct (handleObstacleCollisions_back os0 p1 v1 C0 Z1) as [Z2 C2].
    destruct (handleObstacleCollisions os0 p1 v1) as [[p2 v2] os2]; cbn [fst snd] in *.
    rewrite no_detection by exact Z2.
    rewrite sinkingStep_inactive by exact Ha.
    eexists. split; [ reflexivity | ]. simpl.
    repeat split; assumption.
  - eexists. split; [ reflexivity | ]. unfold onPointerDown.
    destruct (Rltb _ _); simpl; repeat split; try assumption; try discriminate.
  - unfold onPointerMove. destruct (isAiming s) eqn:Ea; simpl.
    + destruct (dragStart s) eqn:Ed; [ | exfalso; apply Haim; reflexivity ].
      eexists. split; [ reflexivity | ]. repeat split; try assumption.
      rewrite Ea, Ed. discriminate.
    + eexists. split; [ reflexivity | ]. repeat split; try assumption.
      rewrite Ea. discriminate.
  - unfold onPointerUp. destruct (isAiming s) eqn:Ea; simpl.
    + destruct (dragStart s) eqn:Ed; [ | exfalso; apply Haim; reflexivity ].
      eexists. split; [ reflexivity | ]. simpl.
      repeat split; try assumption; try discriminate.
    + eexists. split; [ reflexivity | ]. repeat split; try assumption.
      rewrite Ea. discriminate.
  - eexists. split; [ reflexivity | ]. simpl.
    pose proof COURSE_LIMIT_pos.
    repeat split; try assumption; try reflexivity. lra.
Qed.

Lemma run_back (es : list Event) :
  forall s : State,
  active (sinking s) = false -> - COURSE_LIMIT <= z (ballPos s) ->
  Forall clearBack (obstacles s) ->
  (isAiming s = true -> dragStart s <> None) ->
  exists s' : State,
    run env es s = Some s' /\
    active (sinking s') = false /\
    holeCompleteCalls s' = holeCompleteCalls s.
Proof.
  induction es as [ | e es IH ]; intros s Ha Hz Hc Haim; simpl.
  - exists s. repeat split; assumption.
  - destruct (step_back e s Ha Hz Hc Haim) as (s1 & E1 & A1 & Z1 & C1 & M1 & N1).
    rewrite E1.
    destruct (IH s1 A1 Z1 C1 M1) as (s2 & E2 & A2 & N2).
    exists s2. split; [ exact E2 | ]. split; [ exact A2 | congruence ].
Qed.

End BackWall.

(** X17: a hole behind the back wall is never reached.  If the hole lies
    more than the hole radius beyond the -z edge of the course and no
    obstacle can push the ball over that edge, then from any state with
    the ball inside that edge and no sink running, no sequence of
    frames, aim gestures and retries ever starts a sink or invokes the
    completion callback. *)
Theorem hole_behind_wall_never_sinks (env : Env) (es : list Event) (s : State) :
  Vec3.z (holePosition env) + HOLE_RADIUS <= - COURSE_LIMIT ->
  active (sinking s) = false -> - COURSE_LIMIT <= Vec3.z (ballPos s) ->
  Forall clearBack (obstacles s) ->
  (isAiming s = true -> dragStart s <> None) ->
  exists s' : State,
    run env es s = Some s' /\
    active (sinking s') = false /\
    holeCompleteCalls s' = holeCompleteCalls s.
Proof. intros Hh. apply run_back, Hh. Qed.

Lemma level2_hole_behind :
  Vec3.z (holePosition (levelEnv 2)) + HOLE_RADIUS <= - COURSE_LIMIT.
Proof. simpl. unfold_consts. lra. Qed.

Lemma level2_clearBack : Forall clearBack (levelObstacles 2).
Proof.
  simpl. repeat constructor; unfold clearBack, Box3_setFromObject; simpl;
    rewrite sin_0, cos_0, Rabs_R0, Rabs_R1; unfold_consts; lra.
Qed.

Lemma hole_behind_wall_never_sinks_witness :
  exists s' : State,
    run (levelEnv 2) [PointerDown shotDown; PointerUp shotRelease; Frame 1; Frame 1]
        (initialState (levelObstacles 2)) = Some s' /\
    active (sinking s') = false /\
    holeCompleteCalls s' = 0%nat.
Proof.
  apply (hole_behind_wall_never_sinks (levelEnv 2)
           [PointerDown shotDown; PointerUp shotRelease; Frame 1; Frame 1]
           (initialState (levelObstacles 2))).
  - exact level2_hole_behind.
  - reflexivity.
  - simpl. pose proof COURSE_LIMIT_pos. lra.
  - exact level2_clearBack.
  - simpl. discriminate.
Defined.

(** X18: level 2 cannot be completed.  Its hole is at z = -14, 3.6
    beyond the course limit that bounds the ball, so from the initial
    state of level 2 no sequence of frames, aim gestures and retries
    ever starts the sink or invokes the completion callback. *)
Theorem level2_never_completes (es : list Event) :
  exists s' : State,
    run (levelEnv 2) es (initialState (levelObstacles 2)) = Some s' /\
    active (sinking s') = false /\
    holeCompleteCalls s' = 0%nat.
Proof.
  apply (run_back (levelEnv 2) level2_hole_behind es
           (initialState (levelObstacles 2))).
  - reflexivity.
  - simpl. pose proof COURSE_LIMIT_pos. lra.
  - exact level2_clearBack.
  - simpl. discriminate.
Qed.

(** ** Level 5: the ball on the landing ramp *)

Section Level5.
Import Vec3 Vec3Facts.

Lemma onPointerDown_far (p : Vec) (s : State) :
  1.2 <= y (ballPos s) - y p -> onPointerDown p s = s.
Proof.
  intro H. unfold onPointerDown.
  rewrite (proj2 (Rltb_false _ _)); [ reflexivity | ].
  pose proof (distanceTo_vertical p (ballPos s)) as D.
  apply Rabs_le_inv in D. lra.
Qed.

Lemma level5_rampA_misses (yy : R) (v : Vec) :
  collideObstacle level5_rampA (mk 0 yy 0) v = (mk 0 yy 0, v, level5_rampA).
Proof.
  unfold collideObstacle, level5_rampA, dataOr; cbn [width depth position x z].
  rewrite !jsOr_nonzero by lra.
  rewrite Rabs_pos_eq by lra.
  rewrite (proj2 (Rltb_false (0 - -6) (6 / 2 + 0.6))) by lra.
  reflexivity.
Qed.

Lemma level5_rampB_lifts (yy : R) :
  collideObstacle level5_rampB (mk 0 yy 0) zero = (mk 0 1.4 0, zero, level5_rampB).
Proof.
  unfold collideObstacle, level5_rampB, dataOr;
    cbn [width depth height position x z].
  rewrite !jsOr_nonzero by lra.
  rewrite (Rabs_left (0 - 2)) by lra.
  rewrite (Rabs_pos_eq (0 - -0.5)) by lra.
  rewrite (proj2 (Rltb_true (- (0 - 2)) (6 / 2 + 0.6))) by lra.
  rewrite (proj2 (Rltb_true (0 - -0.5) (3 / 2 + 0.6))) by lra.
  cbn [andb]. unfold MathUtils_clamp.
  rewrite (Rmin_right 1 ((0 - (-0.5 - 3 / 2)) / 3)) by lra.
  rewrite (Rmax_right 0 ((0 - (-0.5 - 3 / 2)) / 3)) by lra.
  unfold setY, zero, BALL_RADIUS; simpl.
  assert (Y : 0.6 + 1.2 * ((0 - (-0.5 - 3 / 2)) / 3) = 1.4) by lra.
  assert (V : 0 * 0.2 = 0) by lra.
  rewrite Y, V. reflexivity.
Qed.

Lemma level5_far_from_hole :
  ~ distanceTo (mk 0 1.4 0) (holePosition (levelEnv 5)) < HOLE_RADIUS.
Proof.
  intro H. unfold distanceTo, distanceToSquared, HOLE_RADIUS, BALL_RADIUS in H;
    simpl in H.
  apply sqrt_lt_sq in H; [ lra | nra | lra ].
Qed.

(** A frame of level 5 with the ball at rest above the origin. *)
Lemma level5_frame (dt yy : R) (s : State) :
  ballPos s = mk 0 yy 0 -> velocity s = zero ->
  active (sinking s) = false -> obstacles s = levelObstacles 5 ->
  animate (levelEnv 5) dt s =
    Some (mkState (mk 0 1.4 0) (ballScale s) zero (sinking s) (holeTriggered s)
            (levelObstacles 5) (obstacleTime s + dt) (isAiming s) (dragStart s)
            (holeCompleteCalls s) (strokes s)).
Proof.
  intros Hp Hv Ha Ho. unfold animate.
  rewrite Hp, Hv, Ha, Ho; simpl negb; cbv iota.
  assert (M : map (animateObstacle (obstacleTime s + dt) dt) (levelObstacles 5)
              = levelObstacles 5) by reflexivity.
  rewrite M, physics_unfold.
  rewrite integrate_guard_false by apply zero_at_rest. cbn [fst snd].
  assert (C : handleObstacleCollisions (levelObstacles 5) (mk 0 yy 0) zero
              = (mk 0 1.4 0, zero, levelObstacles 5)).
  { cbn [levelObstacles handleObstacleCollisions].
    rewrite level5_rampA_misses, level5_rampB_lifts. reflexivity. }
  rewrite C.
  destruct (holeDetection_cases (levelEnv 5) (mk 0 1.4 0) zero (sinking s)
              (holeTriggered s)) as [E | (_ & _ & _ & D & _)];
    [ | exfalso; exact (level5_far_from_hole D) ].
  rewrite E. rewrite sinkingStep_inactive by exact Ha. reflexivity.
Qed.

Lemma level5_step (e : Event) (s : State) :
  isRetry e = false -> pointerOnGround e ->
  ballPos s = mk 0 1.4 0 -> velocity s = zero ->
  active (sinking s) = false -> obstacles s = levelObstacles 5 ->
  isAiming s = false ->
  exists s' : State,
    step (levelEnv 5) e s = Some s' /\
    ballPos s' = mk 0 1.4 0 /\ velocity s' = zero /\
    active (sinking s') = false /\ obstacles s' = levelObstacles 5 /\
    isAiming s' = false /\
    strokes s' = strokes s /\ holeCompleteCalls s' = holeCompleteCalls s.
Proof.
  intros Hr Hg Hp Hv Ha Ho Hi.
  destruct e as [dt | p | p | p | ]; simpl in *; try discriminate.
  - rewrite (level5_frame dt 1.4 s Hp Hv Ha Ho).
    eexists. split; [ reflexivity | ]. simpl. repeat split; assumption.
  - rewrite onPointerDown_far by (rewrite Hp, Hg; simpl; lra).
    exists s. repeat split; assumption.
  - unfold onPointerMove. rewrite Hi. simpl.
    exists s. repeat split; assumption.
  - unfold onPointerUp. rewrite Hi. simpl.
    exists s. repeat split; assumption.
Qed.

Lemma level5_run (es : list Event) :
  forall s : State,
  noRetry es = true -> Forall pointerOnGround es ->
  ballPos s = mk 0 1.4 0 -> velocity s = zero ->
  active (sinking s) = false -> obstacles s = levelObstacles 5 ->
  isAiming s = false ->
  exists s' : State,
    run (levelEnv 5) es s = Some s' /\
    ballPos s' = mk 0 1.4 0 /\ velocity s' = zero /\
    isAiming s' = false /\
    strokes s' = strokes s /\ holeCompleteCalls s' = holeCompleteCalls s.
Proof.
  induction es as [ | e es IH ]; intros s Hn Hg Hp Hv Ha Ho Hi.
  - exists s. simpl. repeat split; assumption.
  - simpl in Hn. apply andb_true_iff in Hn as [He Hes]. apply negb_true_iff in He.
    inversion Hg as [ | ? ? Ge Ges ]; subst.
    destruct (level5_step e s He Ge Hp Hv Ha Ho Hi)
      as (s1 & E1 & P1 & V1 & A1 & O1 & I1 & S1 & C1).
    destruct (IH s1 Hes Ges P1 V1 A1 O1 I1) as (s2 & E2 & P2 & V2 & I2 & S2 & C2).
    exists s2. simpl. rewrite E1.
    split; [ exact E2 | ]. repeat split; try assumption; congruence.
Qed.

End Level5.

(** X19: on level 5 the ball cannot be played once a frame has run.  The
    spawn point lies in the footprint of the landing ramp, so the first
    frame lifts the resting ball to height 1.4; every pointer-down on
    the ground plane is then 1.4 or more away from the ball's centre
    and starts no aim.  From a level-5 state with the ball at rest on
    its spawn point, after one frame no sequence of frames and pointer
    events on the ground (without a retry) ever moves the ball, counts a
    stroke or completes the hole. *)
Theorem level5_ball_stuck (dt0 : R) (es : list Event) (s : State) :
  ballPos s = Vec3.mk 0 BALL_RADIUS 0 -> velocity s = Vec3.zero ->
  active (sinking s) = false -> obstacles s = levelObstacles 5 ->
  isAiming s = false ->
  noRetry es = true -> Forall pointerOnGround es ->
  exists s' : State,
    run (levelEnv 5) (Frame dt0 :: es) s = Some s' /\
    ballPos s' = Vec3.mk 0 1.4 0 /\ velocity s' = Vec3.zero /\
    isAiming s' = false /\
    strokes s' = strokes s /\ holeCompleteCalls s' = holeCompleteCalls s.
Proof.
  intros Hp Hv Ha Ho Hi Hn Hg.
  cbn [run step]. rewrite (level5_frame dt0 BALL_RADIUS s Hp Hv Ha Ho).
  match goal with
  | |- context [run (levelEnv 5) es ?st] =>
      destruct (level5_run es st Hn Hg) as (s2 & E2 & P2 & V2 & I2 & S2 & C2);
        try reflexivity; try assumption
  end.
  exists s2. split; [ exact E2 | ]. repeat split; assumption.
Qed.

Lemma level5_ball_stuck_witness :
  exists s' : State,
    run (levelEnv 5)
        [Frame 0.016; PointerDown Vec3.zero; PointerUp (Vec3.mk 1 0 0); Frame 0.016]
        (initialState (levelObstacles 5)) = Some s' /\
    ballPos s' = Vec3.mk 0 1.4 0 /\ velocity s' = Vec3.zero /\
    strokes s' = 0%nat.
Proof.
  destruct (level5_ball_stuck 0.016
              [PointerDown Vec3.zero; PointerUp (Vec3.mk 1 0 0); Frame 0.016]
              (initialState (levelObstacles 5))
              eq_refl eq_refl eq_refl eq_refl eq_refl eq_refl)
    as (s' & E & P & V & _ & S & _).
  { repeat constructor. }
  exists s'. repeat split; assumption.
Defined.

(** ** Remaining witnesses and the aim preview *)

Lemma clamp_inside (lo hi v : R) : lo <= v <= hi -> Rmax lo (Rmin hi v) = v.
Proof. intros [H1 H2]. rewrite Rmin_right by exact H2. apply Rmax_right, H1. Qed.

Lemma clamp_above (lo hi v : R) : lo <= hi <= v -> Rmax lo (Rmin hi v) = hi.
Proof. intros [H1 H2]. rewrite Rmin_left by exact H2. apply Rmax_right, H1. Qed.

Lemma plank_contact_witness :
  exists p' v' : Vec,
    collideObstacle (level3_plank 0) (Vec3.mk (-6) 0.6 (-3)) (Vec3.mk 0 0 2)
      = (p', v', level3_plank 0) /\
    Vec3.length v' = 0.75 * Vec3.length (Vec3.mk 0 0 2).
Proof.
  assert (H : Vec3.distanceTo
                (Box3_clampPoint
                   (Box3_setFromObject
                      (mkMesh (Vec3.mk (-6 + INR 0 * 3.6) 0.15 (-3 + INR 0 * -1.2)) 0
                              (Vec3.mk 5.2 0.35 0.9)))
                   (Vec3.mk (-6) 0.6 (-3)))
                (Vec3.mk (-6) 0.6 (-3)) <= BALL_RADIUS + 0.02).
  { unfold Box3_clampPoint, Box3_setFromObject, Vec3.clamp, Vec3.distanceTo,
      Vec3.distanceToSquared, BALL_RADIUS; simpl.
    rewrite sin_0, cos_0, Rabs_R0, Rabs_R1.
    rewrite clamp_inside by lra.
    rewrite clamp_above by lra.
    rewrite clamp_inside by lra.
    apply sqrt_le_sq; [ nra | lra | nra ]. }
  destruct (plank_contact _ (0.6 + INR 0 * 0.25) (Vec3.mk (-6) 0.6 (-3))
              (Vec3.mk 0 0 2) H) as (p' & v' & E & L & _).
  exists p', v'. split; assumption.
Defined.

(** X20: the aim preview is the shot taken from rest.  While aiming, a
    pointer move simulates the trajectory from the ball's position with
    exactly the impulse a release at the same point would add, ignoring
    the velocity the ball has; it shows at most 40 dots, and none when
    the pointer is where it went down. *)
Theorem preview_is_shot_from_rest (lvl : nat) (current ds : Vec) (s : State) :
  isAiming s = true -> dragStart s = Some ds ->
  onPointerMove lvl current s =
    Some (s, Some (map (fun q => Vec3.setY q BALL_RADIUS)
                       (simulateTrajectory lvl (ballPos s)
                          (releaseImpulse (Vec3.subVectors ds current))))) /\
  (List.length
     (map (fun q => Vec3.setY q BALL_RADIUS)
          (simulateTrajectory lvl (ballPos s)
             (releaseImpulse (Vec3.subVectors ds current)))) <= 40)%nat /\
  simulateTrajectory lvl (ballPos s) (releaseImpulse (Vec3.subVectors ds ds)) = [].
Proof.
  intros Ha Hd. split; [ | split ].
  - unfold onPointerMove. rewrite Ha, Hd. simpl negb. cbv iota.
    rewrite releaseImpulse_spec. reflexivity.
  - rewrite length_map, simulateTrajectory_any_level.
    apply simulateTrajectory_loop_length.
  - rewrite simulateTrajectory_any_level.
    apply simulateTrajectory_loop_stop.
    assert (L0 : Vec3.length (Vec3.subVectors ds ds) = 0).
    { unfold Vec3.length, Vec3.lengthSq, Vec3.subVectors, Vec3.sub; simpl.
      apply sqrt_of_square; [ lra | ring ]. }
    pose proof (releaseImpulse_length (Vec3.subVectors ds ds)) as L.
    rewrite L0, Rmin_left in L by lra.
    rewrite <- (Vec3Facts.length_sqr (releaseImpulse (Vec3.subVectors ds ds))), L.
    pose proof EPS_pos. lra.
Qed.

Lemma preview_is_shot_from_rest_witness :
  onPointerMove 1 shotRelease
    (mkState (Vec3.mk 0 0.6 0) 1 (Vec3.mk 0 0 2) (mkSinking false 0 None None)
             false [] 0 true (Some shotDown) 0 0)
  = Some (mkState (Vec3.mk 0 0.6 0) 1 (Vec3.mk 0 0 2) (mkSinking false 0 None None)
                  false [] 0 true (Some shotDown) 0 0,
          Some (map (fun q => Vec3.setY q BALL_RADIUS)
                    (simulateTrajectory 1 (Vec3.mk 0 0.6 0)
                       (releaseImpulse (Vec3.subVectors shotDown shotRelease))))).
Proof.
  exact (proj1 (preview_is_shot_from_rest 1 shotRelease shotDown
                  (mkState (Vec3.mk 0 0.6 0) 1 (Vec3.mk 0 0 2)
                     (mkSinking false 0 None None)
                     false [] 0 true (Some shotDown) 0 0)
                  eq_refl eq_refl)).
Defined.

(** * Completion and reset, the moving block, the course bounds *)

(** ** Completion of the sink, reset and new entry *)

Section Rearm.

Variable env : Env.
Hypothesis Hfn : onHoleCompleteIsFn env = true.

(** With a completion callback in place the sum of the calls made and
    of what is still armed is kept by every frame. *)
Lemma animate_potential_exact (dt : R) (s : State) :
  wf s ->
  exists s' : State,
    animate env dt s = Some s' /\ wf s' /\
    (holeCompleteCalls s' + armed s' = holeCompleteCalls s + armed s)%nat.
Proof.
  intros [Hsink Haim].
  destruct (active (sinking s)) eqn:Ha.
  - destruct (Hsink eq_refl) as [Hlatch Hend].
    destruct (end_ (sinking s)) as [e | ] eqn:He; [ | contradiction ].
    rewrite animate_active by exact Ha.
    destruct (Rle_lt_dec 1.2 (t (sinking s) + dt)) as [Hdone | Hrun].
    + rewrite (sinkingStep_complete env dt _ _ _ _ e Ha He Hdone), Hfn.
      eexists; split; [ reflexivity | ].
      unfold wf, armed; simpl. rewrite Ha, Hlatch; simpl.
      split; [ split; [ discriminate | exact Haim ] | lia ].
    + destruct (sinkingStep_running env dt (ballPos s) (ballScale s) (sinking s)
                  (holeCompleteCalls s) Ha Hrun) as (p' & sc' & E & _).
      rewrite E.
      eexists; split; [ reflexivity | ].
      unfold wf, armed; simpl. rewrite Ha, Hlatch, He; simpl.
      split; [ split; [ intros _; split; [ reflexivity | discriminate ] | exact Haim ] | ].
      lia.
  - unfold animate. rewrite Ha; simpl negb; cbv iota.
    destruct (physics (level env) dt
                (map (animateObstacle (obstacleTime s + dt)%R dt) (obstacles s))
                (ballPos s) (velocity s)) as [[p1 v1] os1].
    destruct (holeDetection_cases env p1 v1 (sinking s) (holeTriggered s))
      as [E | (_ & _ & Htrig & _ & E)]; rewrite E.
    + rewrite sinkingStep_inactive by exact Ha.
      eexists; split; [ reflexivity | ].
      unfold wf, armed; simpl. rewrite Ha.
      split; [ split; [ discriminate | exact Haim ] | ].
      lia.
    + destruct (Rle_lt_dec 1.2 (0 + dt)) as [Hdone | Hrun].
      * rewrite (sinkingStep_complete env dt p1 (ballScale s)
                   (mkSinking true 0 (Some p1)
                      (Some (Vec3.setY (holePosition env) (-0.5))))
                   (holeCompleteCalls s) _ eq_refl eq_refl Hdone), Hfn.
        eexists; split; [ reflexivity | ].
        unfold wf, armed; simpl. rewrite Ha, Htrig; simpl.
        split; [ split; [ discriminate | exact Haim ] | lia ].
      * destruct (sinkingStep_running env dt p1 (ballScale s)
                    (mkSinking true 0 (Some p1)
                       (Some (Vec3.setY (holePosition env) (-0.5))))
                    (holeCompleteCalls s) eq_refl Hrun) as (p' & sc' & E' & _).
        rewrite E'.
        eexists; split; [ reflexivity | ].
        unfold wf, armed; simpl. rewrite Ha, Htrig; simpl.
        split; [ split; [ intros _; split; [ reflexivity | discriminate ] | exact Haim ] | ].
        lia.
Qed.

Lemma step_potential_exact (e : Event) (s : State) :
  wf s -> isRetry e = false ->
  exists s' : State,
    step env e s = Some s' /\ wf s' /\
    (holeCompleteCalls s' + armed s' = holeCompleteCalls s + armed s)%nat.
Proof.
  intros Hwf Hr. destruct e as [dt | p | p | p | ]; simpl in *; try discriminate.
  - apply animate_potential_exact, Hwf.
  - eexists; split; [ reflexivity | ].
    destruct Hwf as [Hsink Haim]. unfold onPointerDown.
    destruct (Rltb _ _).
    + unfold wf, armed; simpl.
      split; [ split; [ exact Hsink | discriminate ] | reflexivity ].
    + split; [ split; assumption | reflexivity ].
  - exists s. unfold onPointerMove.
    destruct (isAiming s) eqn:Ea; simpl.
    + destruct (dragStart s) as [ds | ] eqn:Ed;
        [ | exfalso; apply (proj2 Hwf); [ exact Ea | exact Ed ] ].
      split; [ reflexivity | split; [ exact Hwf | reflexivity ] ].
    + split; [ reflexivity | split; [ exact Hwf | reflexivity ] ].
  - destruct Hwf as [Hsink Haim]. unfold onPointerUp.
    destruct (isAiming s) eqn:Ea; simpl.
    + destruct (dragStart s) as [ds | ] eqn:Ed; [ | exfalso; apply Haim; reflexivity ].
      eexists; split; [ reflexivity | ].
      unfold wf, armed; simpl.
      split; [ split; [ exact Hsink | discriminate ] | reflexivity ].
    + eexists; split; [ reflexivity | ].
      split; [ split; [ exact Hsink | rewrite Ea; discriminate ] | reflexivity ].
Qed.

Lemma run_potential_exact (es : list Event) :
  forall s : State,
  wf s -> noRetry es = true ->
  exists s' : State,
    run env es s = Some s' /\ wf s' /\
    (holeCompleteCalls s' + armed s' = holeCompleteCalls s + armed s)%nat.
Proof.
  induction es as [ | e es IH ]; intros s Hwf Hn; simpl in *.
  - exists s. split; [ reflexivity | split; [ exact Hwf | reflexivity ] ].
  - apply andb_true_iff in Hn as [He Hes]. apply negb_true_iff in He.
    destruct (step_potential_exact e s Hwf He) as (s1 & E1 & W1 & P1).
    rewrite E1.
    destruct (IH s1 W1 Hes) as (s2 & E2 & W2 & P2).
    exists s2. split; [ exact E2 | split; [ exact W2 | lia ] ].
Qed.

(** Nothing armed means: latch set and no sink running. *)
Lemma armed_zero (s : State) :
  armed s = 0%nat -> active (sinking s) = false /\ holeTriggered s = true.
Proof.
  unfold armed. destruct (active (sinking s)), (holeTriggered s); simpl;
    intro H; try discriminate; split; reflexivity.
Qed.

(** A frame that brings the ball of an armed state within the hole
    radius starts the sink. *)
Lemma entry_frame (dt : R) (s : State) :
  wf s -> active (sinking s) = false -> holeTriggered s = false ->
  holeDone env = false ->
  Vec3.distanceTo (postPhysics env dt s) (holePosition env) < HOLE_RADIUS ->
  exists s' : State,
    animate env dt s = Some s' /\ wf s' /\
    holeTriggered s' = true /\ velocity s' = Vec3.zero /\
    start (sinking s') = Some (postPhysics env dt s) /\
    end_ (sinking s') = Some (Vec3.setY (holePosition env) (-0.5)) /\
    t (sinking s') = 0 + dt /\
    (dt < 1.2 ->
       active (sinking s') = true /\ holeCompleteCalls s' = holeCompleteCalls s) /\
    (1.2 <= dt ->
       active (sinking s') = false /\
       holeCompleteCalls s' = S (holeCompleteCalls s) /\
       ballPos s' = Vec3.setY (holePosition env) (-0.5) /\ ballScale s' = 0.3).
Proof.
  intros [Hsink Haim] Ha Ht Hd Hnear.
  unfold postPhysics in *. unfold animate. rewrite Ha; simpl negb; cbv iota.
  destruct (physics (level env) dt
              (map (animateObstacle (obstacleTime s + dt) dt) (obstacles s))
              (ballPos s) (velocity s)) as [[p1 v1] os1].
  cbn [fst] in Hnear.
  unfold holeDetection. rewrite Hd, Ha, Ht. simpl negb. simpl andb.
  rewrite (proj2 (Rltb_true _ _) Hnear).
  destruct (Rle_lt_dec 1.2 (0 + dt)) as [Hdone | Hrun].
  - rewrite (sinkingStep_complete env dt p1 (ballScale s)
               (mkSinking true 0 (Some p1)
                  (Some (Vec3.setY (holePosition env) (-0.5))))
               (holeCompleteCalls s) _ eq_refl eq_refl Hdone), Hfn.
    eexists; split; [ reflexivity | ].
    unfold wf; simpl.
    split; [ split; [ discriminate | exact Haim ] | ].
    repeat (split; [ reflexivity | ]).
    split; [ intro; lra | intros _; repeat split; reflexivity ].
  - destruct (sinkingStep_running env dt p1 (ballScale s)
                (mkSinking true 0 (Some p1)
                   (Some (Vec3.setY (holePosition env) (-0.5))))
                (holeCompleteCalls s) eq_refl Hrun) as (p' & sc' & E' & _).
    rewrite E'.
    eexists; split; [ reflexivity | ].
    unfold wf; simpl.
    split; [ split; [ intros _; split; [ reflexivity | discriminate ] | exact Haim ] | ].
    repeat (split; [ reflexivity | ]).
    split; [ intros _; split; reflexivity | intro; lra ].
Qed.

(** From there, frames that add up to the 1.2 s of the sink invoke the
    callback exactly once. *)
Lemma entry_completes (dt : R) (dts : list R) (s : State) :
  wf s -> active (sinking s) = false -> holeTriggered s = false ->
  holeDone env = false ->
  Vec3.distanceTo (postPhysics env dt s) (holePosition env) < HOLE_RADIUS ->
  1.2 <= dt + sumR dts ->
  exists s' : State,
    run env (Frame dt :: frames dts) s = Some s' /\ wf s' /\
    holeCompleteCalls s' = S (holeCompleteCalls s) /\
    active (sinking s') = false /\ holeTriggered s' = true.
Proof.
  intros Hwf Ha Ht Hd Hnear Hsum.
  destruct (entry_frame dt s Hwf Ha Ht Hd Hnear)
    as (s1 & E1 & W1 & L1 & _ & _ & _ & T1 & Hrun & Hdone).
  cbn [run step]. rewrite E1.
  destruct (run_potential_exact (frames dts) s1 W1 (noRetry_frames dts))
    as (s2 & E2 & W2 & P2).
  exists s2. split; [ exact E2 | ]. split; [ exact W2 | ].
  destruct (Rle_lt_dec 1.2 dt) as [H | H].
  - destruct (Hdone H) as (A1 & C1 & _).
    destruct (run_potential env (frames dts) s1 W1 (noRetry_frames dts))
      as (s2' & E2' & _ & _ & M2).
    rewrite E2 in E2'. injection E2' as <-.
    unfold armed at 2 in P2. rewrite A1, L1 in P2. simpl in P2.
    assert (Z : armed s2 = 0%nat) by lia.
    destruct (armed_zero s2 Z) as [A2 L2].
    split; [ lia | split; assumption ].
  - destruct (Hrun H) as (A1 & C1).
    destruct (sink_completes_aux env dts s1 W1 Hfn A1) as (s2' & E2' & A2 & C2).
    + rewrite T1. lra.
    + rewrite T1. lra.
    + rewrite E2 in E2'. injection E2' as <-.
      unfold armed at 2 in P2. rewrite A1 in P2. simpl in P2.
      assert (Z : armed s2 = 0%nat) by lia.
      destruct (armed_zero s2 Z) as [_ L2].
      split; [ lia | split; assumption ].
Qed.

End Rearm.

(** Pointer down under the ball at its spawn point and release, on
    level 1: the aim gesture of [shot_run] without the frame. *)
Lemma aim_run (s : State) :
  ballPos s = Vec3.mk 0 BALL_RADIUS 0 -> velocity s = Vec3.zero ->
  run level1_env [PointerDown shotDown; PointerUp shotRelease] s =
    Some (mkState (Vec3.mk 0 BALL_RADIUS 0) (ballScale s) shotVelocity (sinking s)
            (holeTriggered s) (obstacles s) (obstacleTime s) false (Some shotDown)
            (holeCompleteCalls s) (S (strokes s))).
Proof.
  intros Hp Hv.
  unfold run, step, onPointerDown. rewrite Hp, shot_pointer_down.
  unfold onPointerUp; simpl negb; cbv iota.
  cbn [dragStart velocity]. rewrite Hv, shot_impulse.
  reflexivity.
Qed.

(** C1: in a frame where the elapsed time of an active sink reaches the
    total duration of 1.2 s, the ball is put exactly at the stored end
    position, its scale is exactly 0.3, and the completion callback is
    invoked once.  A frame of the sink that stays short of 1.2 s invokes
    nothing.  After the completing frame no sequence of frames and aim
    gestures invokes the callback again, wherever the ball goes, as long
    as no reset happens: the latch stays set.  A reset clears the latch,
    stops any sink and puts the ball at rest at its spawn point with
    scale 1, without a call.  After the reset the calls made plus what
    is armed stay one above the calls at the reset: the callback is
    invoked at most once more, and, with the hole not yet marked done,
    as soon as a frame brings the still-armed ball within the hole
    radius and the frames from there add up to 1.2 s, it has been
    invoked exactly once more, the latch is set again, and nothing
    invokes it a further time. *)
Theorem C1_completion_once (env : Env) (s : State) (dt : R) (e : Vec) :
  wf s -> onHoleCompleteIsFn env = true ->
  active (sinking s) = true -> end_ (sinking s) = Some e ->
  1.2 <= t (sinking s) + dt ->
  exists s1 : State,
    animate env dt s = Some s1 /\
    ballPos s1 = e /\ ballScale s1 = 0.3 /\
    holeCompleteCalls s1 = S (holeCompleteCalls s) /\
    active (sinking s1) = false /\ holeTriggered s1 = true /\
    (forall dt' : R, t (sinking s) + dt' < 1.2 ->
       exists s' : State,
         animate env dt' s = Some s' /\
         holeCompleteCalls s' = holeCompleteCalls s /\
         active (sinking s') = true) /\
    (forall es : list Event, noRetry es = true ->
       exists s2 : State,
         run env es s1 = Some s2 /\
         holeCompleteCalls s2 = holeCompleteCalls s1) /\
    (forall es1 es2 : list Event, noRetry es1 = true -> noRetry es2 = true ->
       exists s3 : State,
         run env (es1 ++ Retry :: es2) s1 = Some s3 /\
         (holeCompleteCalls s1 <= holeCompleteCalls s3 <= S (holeCompleteCalls s1))%nat) /\
    (forall es1 : list Event, noRetry es1 = true ->
       exists s2 : State,
         run env es1 s1 = Some s2 /\
         holeTriggered s2 = true /\ active (sinking s2) = false /\
         holeTriggered (handleRetry env s2) = false /\
         active (sinking (handleRetry env s2)) = false /\
         ballPos (handleRetry env s2) = Vec3.mk 0 BALL_RADIUS 0 /\
         ballScale (handleRetry env s2) = 1 /\
         velocity (handleRetry env s2) = Vec3.zero /\
         holeCompleteCalls (handleRetry env s2) = holeCompleteCalls s1 /\
         forall es2 : list Event, noRetry es2 = true ->
           exists s3 : State,
             run env es2 (handleRetry env s2) = Some s3 /\
             (holeCompleteCalls s3 + armed s3 = S (holeCompleteCalls s1))%nat /\
             (holeDone env = false ->
              active (sinking s3) = false -> holeTriggered s3 = false ->
              forall (dt' : R) (dts : list R),
                Vec3.distanceTo (postPhysics env dt' s3) (holePosition env)
                  < HOLE_RADIUS ->
                1.2 <= dt' + sumR dts ->
                exists s4 : State,
                  run env (Frame dt' :: frames dts) s3 = Some s4 /\
                  holeCompleteCalls s4 = S (holeCompleteCalls s1) /\
                  active (sinking s4) = false /\ holeTriggered s4 = true /\
                  forall es3 : list Event, noRetry es3 = true ->
                    exists s5 : State,
                      run env es3 s4 = Some s5 /\
                      holeCompleteCalls s5 = S (holeCompleteCalls s1))).
Proof.
  intros Hwf Hfn Ha He Ht.
  destruct (animate_potential env dt s Hwf) as (s1 & E1 & W1 & _ & _).
  assert (Hlatch : holeTriggered s = true) by (apply (proj1 Hwf), Ha).
  assert (E1' := E1).
  rewrite animate_active in E1' by exact Ha.
  rewrite (sinkingStep_complete env dt _ _ _ _ e Ha He Ht) in E1'.
  rewrite Hfn in E1'. injection E1' as <-.
  eexists; split; [ exact E1 | ]. cbn [ballPos ballScale holeCompleteCalls sinking
                                        active holeTriggered].
  split; [ reflexivity | ]. split; [ reflexivity | ]. split; [ reflexivity | ].
  split; [ reflexivity | ]. split; [ exact Hlatch | ].
  split; [ | split; [ | split ] ].
  - intros dt' Hrun. rewrite animate_active by exact Ha.
    destruct (sinkingStep_running env dt' (ballPos s) (ballScale s) (sinking s)
                (holeCompleteCalls s) Ha Hrun) as (p' & sc' & E & _).
    rewrite E. eexists; split; [ reflexivity | ]. split; reflexivity.
  - intros es Hn.
    destruct (run_potential env es _ W1 Hn) as (s2 & E2 & _ & P2 & M2).
    exists s2. split; [ exact E2 | ].
    unfold armed in P2; cbn [sinking active holeTriggered holeCompleteCalls] in *.
    rewrite Hlatch in P2. simpl in P2. lia.
  - intros es1 es2 Hn1 Hn2.
    destruct (run_potential env es1 _ W1 Hn1) as (s2 & E2 & W2 & P2 & M2).
    destruct (handleRetry_rearms env s2 W2) as (W3 & C3 & A3 & _ & _).
    destruct (run_potential env es2 _ W3 Hn2) as (s3 & E3 & _ & P3 & M3).
    exists s3. split.
    + rewrite run_app, E2. simpl. exact E3.
    + unfold armed in P2; cbn [sinking active holeTriggered holeCompleteCalls] in *.
      rewrite Hlatch in P2. simpl in P2. lia.
  - intros es1 Hn1.
    destruct (run_potential_exact env Hfn es1 _ W1 Hn1) as (s2 & E2 & W2 & P2).
    destruct (run_potential env es1 _ W1 Hn1) as (s2' & E2' & _ & _ & M2).
    rewrite E2 in E2'. injection E2' as <-.
    unfold armed at 2 in P2; cbn [sinking active holeTriggered holeCompleteCalls] in *.
    rewrite Hlatch in P2. simpl in P2.
    assert (Z2 : armed s2 = 0%nat) by lia.
    assert (C2 : holeCompleteCalls s2 = S (holeCompleteCalls s)) by lia.
    destruct (armed_zero s2 Z2) as [A2 L2].
    destruct (handleRetry_rearms env s2 W2) as (W3 & C3 & A3 & L3 & K3).
    exists s2. split; [ exact E2 | ]. split; [ exact L2 | ]. split; [ exact A2 | ].
    split; [ exact L3 | ]. split; [ exact K3 | ].
    split; [ reflexivity | ]. split; [ reflexivity | ]. split; [ reflexivity | ].
    split; [ rewrite C3; exact C2 | ].
    intros es2 Hn2.
    destruct (run_potential_exact env Hfn es2 _ W3 Hn2) as (s3 & E3 & W4 & P3).
    exists s3. split; [ exact E3 | ]. split; [ lia | ].
    intros Hd A4 L4 dt' dts Hnear Hsum.
    destruct (entry_completes env Hfn dt' dts s3 W4 A4 L4 Hd Hnear Hsum)
      as (s4 & E4 & W5 & C4 & A5 & L5).
    assert (Z3 : armed s3 = 1%nat) by (unfold armed; rewrite A4, L4; reflexivity).
    exists s4. split; [ exact E4 | ]. split; [ lia | ].
    split; [ exact A5 | ]. split; [ exact L5 | ].
    intros es3 Hn3.
    destruct (run_potential env es3 _ W5 Hn3) as (s5 & E5 & _ & P5 & M5).
    exists s5. split; [ exact E5 | ].
    unfold armed at 2 in P5. rewrite A5, L5 in P5. simpl in P5. lia.
Qed.

(** On level 1: the frame that completes the sink of the shot makes the
    first call; a retry, the same aim gesture, the frame of one second
    that carries the ball to the hole and a frame of half a second make
    the second one. *)
Lemma C1_completion_once_witness :
  exists s1 s4 : State,
    animate level1_env 0.5
      (mkState (Vec3.mk 4.64 0.6 (-3.48)) 1 Vec3.zero
         (mkSinking true (0 + 1) (Some (Vec3.mk 4.64 0.6 (-3.48)))
            (Some level1_sinkEnd))
         true [] 1 false (Some shotDown) 0 1) = Some s1 /\
    ballPos s1 = level1_sinkEnd /\ ballScale s1 = 0.3 /\
    holeCompleteCalls s1 = 1%nat /\
    run level1_env
      (Retry :: PointerDown shotDown :: PointerUp shotRelease :: Frame 1 :: frames [0.5])
      s1 = Some s4 /\
    holeCompleteCalls s4 = 2%nat /\ holeTriggered s4 = true.
Proof.
  assert (W : wf (mkState (Vec3.mk 4.64 0.6 (-3.48)) 1 Vec3.zero
                    (mkSinking true (0 + 1) (Some (Vec3.mk 4.64 0.6 (-3.48)))
                       (Some level1_sinkEnd))
                    true [] 1 false (Some shotDown) 0 1)).
  { unfold wf; simpl. split; [ intros _; split; [ reflexivity | discriminate ]
                             | discriminate ]. }
  assert (T : 1.2 <= 0 + 1 + 0.5) by lra.
  destruct (C1_completion_once level1_env _ 0.5 level1_sinkEnd W eq_refl eq_refl
              eq_refl T) as (s1 & E & Hp & Hs & Hc & _ & _ & _ & _ & _ & Hre).
  exists s1.
  destruct (Hre [] eq_refl) as (s2 & E2 & _ & _ & _ & _ & _ & _ & _ & _ & Hnew).
  simpl in E2. injection E2 as <-.
  destruct (Hnew [PointerDown shotDown; PointerUp shotRelease] eq_refl)
    as (s3 & E3 & _ & Hent).
  assert (E0 := E).
  rewrite shot_completion in E. injection E as <-.
  rewrite aim_run in E3 by reflexivity. injection E3 as <-.
  destruct (Hent eq_refl eq_refl eq_refl 1 [0.5]) as (s4 & E4 & C4 & _ & L4 & _).
  { unfold postPhysics. cbn [level level1_env obstacles map ballPos velocity].
    rewrite shot_physics. cbn [fst]. exact shot_reaches_hole. }
  { simpl. lra. }
  exists s4.
  split; [ exact E0 | ]. split; [ reflexivity | ]. split; [ reflexivity | ].
  split; [ reflexivity | ].
  split; [ | split; [ exact C4 | exact L4 ] ].
  change (Retry :: PointerDown shotDown :: PointerUp shotRelease :: Frame 1 :: frames [0.5])
    with (Retry :: ([PointerDown shotDown; PointerUp shotRelease]
                      ++ Frame 1 :: frames [0.5])).
  cbn [run step]. rewrite run_app.
  rewrite aim_run by reflexivity. exact E4.
Defined.

(** ** The moving-block rule *)

Section MovingBlockRule.
Import Vec3 Vec3Facts.






End MovingBlockRule.




(** ** The ball stays on the course *)

Section Bounds.
Import Vec3 Vec3Facts.

Lemma distanceTo_width (a b : t) : Rabs (x a - x b) <= distanceTo a b.
Proof.
  unfold distanceTo, distanceToSquared.
  rewrite <- sqrt_Rsqr_abs. apply sqrt_le_1_alt. unfold Rsqr. cbv zeta.
  pose proof (Rle_0_sqr (y a - y b)) as Hy.
  pose proof (Rle_0_sqr (z a - z b)) as Hz.
  unfold Rsqr in Hy, Hz. lra.
Qed.

Lemma Rabs_bounds (a : R) : - Rabs a <= a <= Rabs a.
Proof. unfold Rabs. destruct (Rcase_abs a); lra. Qed.

(** At any yaw the bounding box of a mesh reaches no further from the
    centre than half the width plus half the depth. *)
Lemma box_extent (m : Mesh) :
  0 <= x (size m) -> 0 <= z (size m) ->
  x (position m) - (x (size m) + z (size m)) / 2 <= x (bmin (Box3_setFromObject m)) /\
  x (bmin (Box3_setFromObject m)) <= x (bmax (Box3_setFromObject m)) /\
  x (bmax (Box3_setFromObject m)) <= x (position m) + (x (size m) + z (size m)) / 2 /\
  z (position m) - (x (size m) + z (size m)) / 2 <= z (bmin (Box3_setFromObject m)) /\
  z (bmin (Box3_setFromObject m)) <= z (bmax (Box3_setFromObject m)) /\
  z (bmax (Box3_setFromObject m)) <= z (position m) + (x (size m) + z (size m)) / 2.
Proof.
  intros Hx Hz. unfold Box3_setFromObject; simpl.
  pose proof (Rabs_pos (cos (rotationY m))) as C0.
  pose proof (Rabs_pos (sin (rotationY m))) as S0.
  assert (C1 : Rabs (cos (rotationY m)) <= 1).
  { apply Rabs_le. apply COS_bound. }
  assert (S1 : Rabs (sin (rotationY m)) <= 1).
  { apply Rabs_le. apply SIN_bound. }
  set (c := Rabs (cos (rotationY m))) in *.
  set (s := Rabs (sin (rotationY m))) in *.
  set (hx := x (size m)) in *. set (hz := z (size m)) in *.
  repeat split; nra.
Qed.

(** A ball within [r] of the bounding box is within the box's reach
    plus [r] of the centre, on x and on z. *)
Lemma box_contact_reach (m : Mesh) (p : t) (r : R) :
  0 <= x (size m) -> 0 <= z (size m) ->
  distanceTo (Box3_clampPoint (Box3_setFromObject m) p) p <= r ->
  Rabs (x p - x (position m)) <= (x (size m) + z (size m)) / 2 + r /\
  Rabs (z p - z (position m)) <= (x (size m) + z (size m)) / 2 + r.
Proof.
  intros Hx Hz Hd.
  destruct (box_extent m Hx Hz) as (X1 & X2 & X3 & Z1 & Z2 & Z3).
  pose proof (distanceTo_width (Box3_clampPoint (Box3_setFromObject m) p) p) as Wx.
  pose proof (distanceTo_depth (Box3_clampPoint (Box3_setFromObject m) p) p) as Wz.
  apply Rabs_le_inv in Wx. apply Rabs_le_inv in Wz.
  unfold Box3_clampPoint, clamp in Wx, Wz; cbn [x z] in Wx, Wz.
  set (b := Box3_setFromObject m) in *.
  assert (Qx : x (bmin b) <= Rmax (x (bmin b)) (Rmin (x (bmax b)) (x p)) <= x (bmax b)).
  { split; [ apply Rmax_l | apply Rmax_lub; [ exact X2 | apply Rmin_l ] ]. }
  assert (Qz : z (bmin b) <= Rmax (z (bmin b)) (Rmin (z (bmax b)) (z p)) <= z (bmax b)).
  { split; [ apply Rmax_l | apply Rmax_lub; [ exact Z2 | apply Rmin_l ] ]. }
  set (qx := Rmax (x (bmin b)) (Rmin (x (bmax b)) (x p))) in *.
  set (qz := Rmax (z (bmin b)) (Rmin (z (bmax b)) (z p))) in *.
  set (d := distanceTo _ p) in *.
  split; apply Rabs_le; lra.
Qed.

(** A push of at most [k] along a direction with components of size at
    most 1, from within reach of an obstacle clear of the walls. *)
Lemma push_inside (c e r k a n : R) :
  Rabs c + e + 0.66 <= COURSE_LIMIT ->
  Rabs (a - c) <= e + r -> Rabs n <= 1 -> 0 <= k -> r + k <= 0.66 ->
  - COURSE_LIMIT <= a + n * k <= COURSE_LIMIT.
Proof.
  intros Hc Ha Hn Hk Hr.
  pose proof (Rabs_bounds c) as Bc.
  apply Rabs_le_inv in Ha. apply Rabs_le_inv in Hn.
  set (L := COURSE_LIMIT) in *.
  assert (- k <= n * k <= k) by nra.
  lra.
Qed.

Lemma normalize_flat (d : t) : y (normalize (setY d 0)) = 0.
Proof. unfold normalize, divideScalar, multiplyScalar, setY; simpl. ring. Qed.

Lemma unit_components (n : t) :
  lengthSq n = 1 -> Rabs (x n) <= 1 /\ Rabs (z n) <= 1.
Proof.
  unfold lengthSq. intro H.
  pose proof (Rle_0_sqr (x n)) as Hx. pose proof (Rle_0_sqr (y n)) as Hy.
  pose proof (Rle_0_sqr (z n)) as Hz. unfold Rsqr in *.
  split; apply Rabs_le; nra.
Qed.

Lemma reflect_flat (v n : t) (k : R) :
  y v = 0 -> y n = 0 -> y (multiplyScalar (reflect v n) k) = 0.
Proof.
  intros Hv Hn. unfold multiplyScalar, reflect, sub; simpl.
  rewrite Hv, Hn. ring.
Qed.

(** One obstacle: the ball stays inside the walls, keeps a height within
    the limit and a horizontal velocity, and the obstacle stays clear. *)
Lemma collideObstacle_bounds (o : Obstacle) (p v : t) :
  clearOfWalls o -> insideCourse p ->
  insideCourse (fst (fst (collideObstacle o p v))) /\
  clearOfWalls (snd (collideObstacle o p v)) /\
  (- COURSE_LIMIT <= y p <= COURSE_LIMIT ->
   - COURSE_LIMIT <= y (fst (fst (collideObstacle o p v))) <= COURSE_LIMIT) /\
  (y v = 0 -> y (snd (fst (collideObstacle o p v))) = 0).
Proof.
  intros Hc Hin.
  destruct o as [m | m ax amp spd bp | m spd | m data | c r].
  - destruct Hc as (Sx & Sz & Cx & Cz).
    destruct (sphereIntersectsBox p BALL_RADIUS m) eqn:E.
    + rewrite (collide_box_contact m p v E). cbn [fst snd].
      destruct (boxNormal_unit p m) as [Hu Hy].
      destruct (unit_components _ Hu) as [Nx Nz].
      unfold sphereIntersectsBox in E. apply Rleb_true in E.
      destruct (box_contact_reach m p BALL_RADIUS Sx Sz E) as [Rx Rz].
      split; [ | split; [ | split ] ].
      * unfold insideCourse, add, multiplyScalar; cbn [x z]. split.
        -- apply (push_inside (x (position m)) ((x (size m) + z (size m)) / 2)
                    BALL_RADIUS 0.04); try assumption; unfold BALL_RADIUS; lra.
        -- apply (push_inside (z (position m)) ((x (size m) + z (size m)) / 2)
                    BALL_RADIUS 0.04); try assumption; unfold BALL_RADIUS; lra.
      * simpl. repeat split; assumption.
      * intro Hyp. unfold add, multiplyScalar; cbn [y]. rewrite Hy. lra.
      * intro Hv. apply reflect_flat; assumption.
    + rewrite (collide_box_clear m p v E). cbn [fst snd].
      split; [ exact Hin | ]. split; [ simpl; repeat split; assumption | ].
      split; auto.
  - destruct Hc as (Hax & Hfar).
    unfold collideObstacle.
    destruct (Rltb (distanceTo (position m) p) (BALL_RADIUS + 0.6)) eqn:E.
    + exfalso. apply Rltb_true in E.
      pose proof (distanceTo_depth (position m) p) as D.
      apply Rabs_le_inv in D. destruct Hin as [_ [Hz _]]. lra.
    + cbn [fst snd]. split; [ exact Hin | ]. split; [ split; assumption | ].
      split; auto.
  - destruct Hc as (Sx & Sz & Cx & Cz).
    unfold collideObstacle.
    destruct (Rleb (distanceTo (Box3_clampPoint (Box3_setFromObject m) p) p)
                (BALL_RADIUS + 0.02)) eqn:E.
    + cbn [fst snd]. apply Rleb_true in E.
      destruct (box_contact_reach m p (BALL_RADIUS + 0.02) Sx Sz E) as [Rx Rz].
      destruct (normalize_components (setY (subVectors p (position m)) 0)) as [Nx Nz].
      pose proof (normalize_flat (subVectors p (position m))) as Hy.
      set (n := normalize (setY (subVectors p (position m)) 0)) in *.
      split; [ | split; [ | split ] ].
      * unfold insideCourse, add, multiplyScalar; cbn [x z]. split.
        -- apply (push_inside (x (position m)) ((x (size m) + z (size m)) / 2)
                    (BALL_RADIUS + 0.02) 0.03); try assumption; unfold BALL_RADIUS; lra.
        -- apply (push_inside (z (position m)) ((x (size m) + z (size m)) / 2)
                    (BALL_RADIUS + 0.02) 0.03); try assumption; unfold BALL_RADIUS; lra.
      * simpl. repeat split; assumption.
      * intro Hyp. unfold add, multiplyScalar; cbn [y]. rewrite Hy. lra.
      * intro Hv. apply reflect_flat; assumption.
    + cbn [fst snd]. split; [ exact Hin | ].
      split; [ simpl; repeat split; assumption | ]. split; auto.
  - destruct Hc as (H0 & H1).
    unfold collideObstacle.
    destruct (Rltb _ _ && Rltb _ _).
    + cbn [fst snd]. split; [ exact Hin | ]. split; [ split; assumption | ].
      split.
      * intros _. unfold setY; cbn [y].
        set (h := dataOr data height 1.2) in *.
        match goal with
        | |- context [MathUtils_clamp ?lz 0 1] =>
            assert (Ht : 0 <= MathUtils_clamp lz 0 1 <= 1);
            [ unfold MathUtils_clamp; split;
              [ apply Rmax_l | apply Rmax_lub; [ lra | apply Rmin_l ] ]
            | set (tt := MathUtils_clamp lz 0 1) in * ]
        end.
        pose proof COURSE_LIMIT_pos. unfold BALL_RADIUS in *. nra.
      * intro Hv. unfold setY; cbn [y]. rewrite Hv. ring.
    + cbn [fst snd]. split; [ exact Hin | ]. split; [ split; assumption | ].
      split; auto.
  - simpl. split; [ exact Hin | ]. split; [ exact I | ]. split; auto.
Qed.

(** A moving block clear of the walls is out of the reach of a ball
    inside them: the contact branch is not taken. *)
Lemma moving_block_out_of_reach (m : Mesh) (axis : string) (amplitude speed : R)
    (basePos p v : t) :
  clearOfWalls (OMoving m axis amplitude speed basePos) -> insideCourse p ->
  BALL_RADIUS + 0.6 <= distanceTo (position m) p /\
  collideObstacle (OMoving m axis amplitude speed basePos) p v
    = (p, v, OMoving m axis amplitude speed basePos).
Proof.
  intros [_ Hfar] [_ [Hz _]].
  pose proof (distanceTo_depth (position m) p) as D.
  apply Rabs_le_inv in D.
  assert (Hd : BALL_RADIUS + 0.6 <= distanceTo (position m) p) by lra.
  split; [ exact Hd | ].
  unfold collideObstacle. rewrite (proj2 (Rltb_false _ _) Hd). reflexivity.
Qed.

Lemma handleObstacleCollisions_bounds (os : list Obstacle) :
  forall p v : t,
  Forall clearOfWalls os -> insideCourse p ->
  insideCourse (fst (fst (handleObstacleCollisions os p v))) /\
  Forall clearOfWalls (snd (handleObstacleCollisions os p v)) /\
  (- COURSE_LIMIT <= y p <= COURSE_LIMIT ->
   - COURSE_LIMIT <= y (fst (fst (handleObstacleCollisions os p v))) <= COURSE_LIMIT) /\
  (y v = 0 -> y (snd (fst (handleObstacleCollisions os p v))) = 0).
Proof.
  induction os as [ | o rest IH ]; intros p v Hall Hin; simpl.
  - split; [ exact Hin | ]. split; [ constructor | ]. split; auto.
  - inversion Hall as [ | ? ? Ho Hrest ]; subst.
    destruct (collideObstacle_bounds o p v Ho Hin) as (I1 & C1 & Y1 & V1).
    destruct (collideObstacle o p v) as [[p1 v1] o1]; cbn [fst snd] in *.
    destruct (IH p1 v1 Hrest I1) as (I2 & C2 & Y2 & V2).
    destruct (handleObstacleCollisions rest p1 v1) as [[p2 v2] r2]; cbn [fst snd] in *.
    split; [ exact I2 | ]. split; [ constructor; assumption | ].
    split; [ intro H; apply Y2, Y1, H | intro H; apply V2, V1, H ].
Qed.

Lemma animateObstacle_clear (time dt : R) (o : Obstacle) :
  clearOfWalls o -> clearOfWalls (animateObstacle time dt o).
Proof.
  destruct o as [m | m ax amp spd bp | m spd | m data | c r]; simpl; auto.
  intros [-> Hfar]. simpl. split; [ reflexivity | exact Hfar ].
Qed.

Lemma integrate_flat (f dt : R) (p v : t) :
  y v = 0 ->
  y (fst (integrate f dt p v)) = y p /\ y (snd (integrate f dt p v)) = 0.
Proof.
  intro Hv. destruct (Rlt_le_dec EPS (lengthSq v)) as [H | H].
  - rewrite integrate_guard_true by exact H.
    unfold decayAndTranslate. rewrite wallCollisions_spec. cbn [fst snd y].
    unfold addScaledVector, setLength, normalize, divideScalar, multiplyScalar;
      cbn [x y z].
    rewrite Hv. split; ring.
  - rewrite integrate_guard_false by exact H. split; [ reflexivity | exact Hv ].
Qed.

Lemma integrate_stays_inside (f dt : R) (p v : t) :
  EPS < lengthSq v \/ insideCourse p -> insideCourse (fst (integrate f dt p v)).
Proof.
  intros [H | H].
  - apply integrate_inside, H.
  - destruct (Rlt_le_dec EPS (lengthSq v)) as [G | G].
    + apply integrate_inside, G.
    + rewrite integrate_guard_false by exact G. exact H.
Qed.

(** One physics update on obstacles clear of the walls. *)
Lemma physics_bounds (lvl : nat) (dt : R) (os : list Obstacle) (p v : t) :
  Forall clearOfWalls os ->
  EPS < lengthSq v \/ insideCourse p ->
  insideCourse (fst (fst (physics lvl dt os p v))) /\
  Forall clearOfWalls (snd (physics lvl dt os p v)) /\
  (y v = 0 -> - COURSE_LIMIT <= y p <= COURSE_LIMIT ->
   inBounds (fst (fst (physics lvl dt os p v))) /\
   y (snd (fst (physics lvl dt os p v))) = 0).
Proof.
  intros Hc Hin. rewrite physics_unfold.
  pose proof (integrate_stays_inside (frameFriction lvl os p) dt p v Hin) as I1.
  pose proof (integrate_flat (frameFriction lvl os p) dt p v) as F1.
  destruct (integrate (frameFriction lvl os p) dt p v) as [p1 v1]; cbn [fst snd] in *.
  destruct (handleObstacleCollisions_bounds os p1 v1 Hc I1) as (I2 & C2 & Y2 & V2).
  split; [ exact I2 | ]. split; [ exact C2 | ].
  intros Hv Hy. destruct (F1 Hv) as [Ey Ev].
  split; [ | apply V2, Ev ].
  destruct I2 as [Ix Iz]. rewrite <- Ey in Hy.
  unfold inBounds. split; [ exact Ix | split; [ apply Y2, Hy | exact Iz ] ].
Qed.

End Bounds.

Section CourseRun.

Variable env : Env.
Hypothesis hole_on_course : holeOnCourse (holePosition env).

(** Where a sink started from a ball on the course ends. *)
Lemma sink_end_inBounds (p : Vec) :
  inBounds p -> Vec3.distanceTo p (holePosition env) < HOLE_RADIUS ->
  inBounds (Vec3.setY (holePosition env) (-0.5)).
Proof.
  intros (_ & _ & Hz) Hnear.
  pose proof COURSE_LIMIT_value as HL.
  destruct hole_on_course as [[Hx Hz'] | Hback].
  - unfold inBounds, Vec3.setY; cbn [Vec3.x Vec3.y Vec3.z]. repeat split; lra.
  - exfalso.
    pose proof (distanceTo_depth p (holePosition env)) as D.
    apply Rabs_le_inv in D. lra.
Qed.

Lemma releaseImpulse_flat (d : Vec) : Vec3.y d = 0 -> Vec3.y (releaseImpulse d) = 0.
Proof.
  intro H. unfold releaseImpulse, Vec3.setLength, Vec3.normalize, Vec3.divideScalar,
    Vec3.multiplyScalar; cbn [Vec3.y].
  rewrite H. ring.
Qed.

Lemma spawn_inBounds : inBounds (Vec3.mk 0 BALL_RADIUS 0).
Proof.
  pose proof COURSE_LIMIT_value as HL.
  unfold inBounds, BALL_RADIUS; cbn [Vec3.x Vec3.y Vec3.z]. repeat split; lra.
Qed.

Lemma animateObstacles_clear (time dt : R) (os : list Obstacle) :
  Forall clearOfWalls os -> Forall clearOfWalls (map (animateObstacle time dt) os).
Proof.
  intro H. apply Forall_map.
  eapply Forall_impl; [ | exact H ]. intro o. apply animateObstacle_clear.
Qed.

(** A frame keeps the invariant, and the position its physics update
    computes lies within the limit on every axis. *)
Lemma animate_onCourse (dt : R) (s : State) :
  onCourse s ->
  exists s' : State,
    animate env dt s = Some s' /\ onCourse s' /\
    (active (sinking s) = false -> inBounds (postPhysics env dt s)).
Proof.
  intros (Hwf & Hpos & Hend & Hv & Hos & Hds).
  destruct Hwf as [Hsink Haim].
  pose proof (animateObstacles_clear (obstacleTime s + dt) dt (obstacles s) Hos) as C0.
  destruct (active (sinking s)) eqn:Ha.
  - destruct (Hsink eq_refl) as [Hlatch Hne].
    destruct (end_ (sinking s)) as [e | ] eqn:He; [ | contradiction ].
    rewrite animate_active by exact Ha.
    destruct (Rle_lt_dec 1.2 (t (sinking s) + dt)) as [Hdone | Hrun].
    + rewrite (sinkingStep_complete env dt _ _ _ _ e Ha He Hdone).
      eexists; split; [ reflexivity | ]. split; [ | discriminate ].
      unfold onCourse, wf; cbn [sinking active holeTriggered end_ isAiming dragStart
                                 ballPos velocity obstacles].
      split; [ split; [ discriminate | exact Haim ] | ].
      split; [ intros _; apply (Hend e eq_refl eq_refl) | ].
      split; [ discriminate | ].
      split; [ exact Hv | ]. split; [ exact C0 | exact Hds ].
    + destruct (sinkingStep_running env dt (ballPos s) (ballScale s) (sinking s)
                  (holeCompleteCalls s) Ha Hrun) as (p' & sc' & E & _).
      rewrite E.
      eexists; split; [ reflexivity | ]. split; [ | discriminate ].
      unfold onCourse, wf; cbn [sinking active holeTriggered end_ isAiming dragStart
                                 ballPos velocity obstacles].
      rewrite He.
      split; [ split; [ intros _; split; [ exact Hlatch | discriminate ] | exact Haim ] | ].
      split; [ discriminate | ].
      split; [ intros e0 _ E0; injection E0 as <-; apply (Hend e eq_refl eq_refl) | ].
      split; [ exact Hv | ]. split; [ exact C0 | exact Hds ].
  - destruct (Hpos eq_refl) as (Bx & By & Bz).
    destruct (physics_bounds (level env) dt
                (map (animateObstacle (obstacleTime s + dt) dt) (obstacles s))
                (ballPos s) (velocity s) C0 (or_intror (conj Bx Bz)))
      as (_ & C2 & YV).
    destruct (YV Hv By) as [B2 V2].
    unfold postPhysics. unfold animate. rewrite Ha; simpl negb; cbv iota.
    destruct (physics (level env) dt
                (map (animateObstacle (obstacleTime s + dt) dt) (obstacles s))
                (ballPos s) (velocity s)) as [[p1 v1] os1].
    cbn [fst snd] in *.
    destruct (holeDetection_cases env p1 v1 (sinking s) (holeTriggered s))
      as [E | (_ & _ & Htrig & Hnear & E)]; rewrite E.
    + rewrite sinkingStep_inactive by exact Ha.
      eexists; split; [ reflexivity | ]. split; [ | intros _; exact B2 ].
      unfold onCourse, wf; cbn [sinking active holeTriggered end_ isAiming dragStart
                                 ballPos velocity obstacles].
      rewrite Ha.
      split; [ split; [ discriminate | exact Haim ] | ].
      split; [ intros _; exact B2 | ].
      split; [ discriminate | ].
      split; [ exact V2 | ]. split; [ exact C2 | exact Hds ].
    + pose proof (sink_end_inBounds p1 B2 Hnear) as Be.
      destruct (Rle_lt_dec 1.2 (0 + dt)) as [Hdone | Hrun].
      * rewrite (sinkingStep_complete env dt p1 (ballScale s)
                   (mkSinking true 0 (Some p1)
                      (Some (Vec3.setY (holePosition env) (-0.5))))
                   (holeCompleteCalls s) _ eq_refl eq_refl Hdone).
        eexists; split; [ reflexivity | ]. split; [ | intros _; exact B2 ].
        unfold onCourse, wf; cbn [sinking active holeTriggered end_ isAiming dragStart
                                   ballPos velocity obstacles].
        split; [ split; [ discriminate | exact Haim ] | ].
        split; [ intros _; exact Be | ].
        split; [ discriminate | ].
        split; [ reflexivity | ]. split; [ exact C2 | exact Hds ].
      * destruct (sinkingStep_running env dt p1 (ballScale s)
                    (mkSinking true 0 (Some p1)
                       (Some (Vec3.setY (holePosition env) (-0.5))))
                    (holeCompleteCalls s) eq_refl Hrun) as (p' & sc' & E' & _).
        rewrite E'.
        eexists; split; [ reflexivity | ]. split; [ | intros _; exact B2 ].
        unfold onCourse, wf; cbn [sinking active holeTriggered end_ isAiming dragStart
                                   ballPos velocity obstacles].
        split; [ split; [ intros _; split; [ reflexivity | discriminate ] | exact Haim ] | ].
        split; [ discriminate | ].
        split; [ intros e0 _ E0; injection E0 as <-; exact Be | ].
        split; [ reflexivity | ]. split; [ exact C2 | exact Hds ].
Qed.

Lemma step_onCourse (e : Event) (s : State) :
  onCourse s -> groundPointer e ->
  exists s' : State, step env e s = Some s' /\ onCourse s'.
Proof.
  intros Hs Hg. destruct e as [dt | p | p | p | ]; cbn [step].
  - destruct (animate_onCourse dt s Hs) as (s' & E & Hs' & _).
    exists s'. split; assumption.
  - eexists; split; [ reflexivity | ].
    unfold onPointerDown. destruct (Rltb _ _); [ | exact Hs ].
    destruct Hs as ([Hsink Haim] & Hpos & Hend & Hv & Hos & Hds).
    unfold onCourse, wf; cbn [sinking active holeTriggered end_ isAiming dragStart
                               ballPos velocity obstacles].
    split; [ split; [ exact Hsink | discriminate ] | ].
    split; [ exact Hpos | ]. split; [ exact Hend | ]. split; [ exact Hv | ].
    split; [ exact Hos | ].
    intros ds E. injection E as <-. exact Hg.
  - exists s. split; [ | exact Hs ].
    destruct Hs as ([Hsink Haim] & _).
    unfold onPointerMove. destruct (isAiming s) eqn:Ea; simpl; [ | reflexivity ].
    destruct (dragStart s) as [ds | ] eqn:Ed;
      [ reflexivity | exfalso; apply Haim; reflexivity ].
  - destruct Hs as ([Hsink Haim] & Hpos & Hend & Hv & Hos & Hds).
    unfold onPointerUp. destruct (isAiming s) eqn:Ea; simpl.
    + destruct (dragStart s) as [ds | ] eqn:Ed; [ | exfalso; apply Haim; reflexivity ].
      eexists; split; [ reflexivity | ].
      unfold onCourse, wf; cbn [sinking active holeTriggered end_ isAiming dragStart
                                 ballPos velocity obstacles].
      split; [ split; [ exact Hsink | discriminate ] | ].
      split; [ exact Hpos | ]. split; [ exact Hend | ].
      split; [ | split; [ exact Hos | exact Hds ] ].
      unfold Vec3.add; cbn [Vec3.y]. rewrite Hv.
      rewrite releaseImpulse_flat; [ ring | ].
      unfold Vec3.subVectors, Vec3.sub; cbn [Vec3.y]. rewrite (Hds ds eq_refl).
      simpl in Hg. rewrite Hg. ring.
    + eexists; split; [ reflexivity | ].
      unfold onCourse, wf. rewrite Ea.
      split; [ split; [ exact Hsink | discriminate ] | ].
      split; [ exact Hpos | ]. split; [ exact Hend | ]. split; [ exact Hv | ].
      split; [ exact Hos | exact Hds ].
  - eexists; split; [ reflexivity | ].
    destruct Hs as (Hwf & Hpos & Hend & Hv & Hos & Hds).
    destruct (handleRetry_rearms env s Hwf) as (W & _).
    unfold onCourse. split; [ exact W | ].
    unfold handleRetry; cbn [sinking active holeTriggered end_ isAiming dragStart
                              ballPos velocity obstacles].
    split; [ intros _; exact spawn_inBounds | ].
    split; [ discriminate | ].
    split; [ reflexivity | ]. split; [ exact Hos | exact Hds ].
Qed.

Lemma run_onCourse (es : list Event) :
  forall s : State,
  onCourse s -> Forall groundPointer es ->
  exists s' : State, run env es s = Some s' /\ onCourse s'.
Proof.
  induction es as [ | e es IH ]; intros s Hs Hg; cbn [run].
  - exists s. split; [ reflexivity | exact Hs ].
  - inversion Hg as [ | ? ? He Hes ]; subst.
    destruct (step_onCourse e s Hs He) as (s1 & E1 & Hs1).
    rewrite E1. apply IH; assumption.
Qed.

End CourseRun.

(** ** The five levels *)

Lemma initialState_onCourse (os : list Obstacle) :
  Forall clearOfWalls os -> onCourse (initialState os).
Proof.
  intro H. unfold onCourse. split; [ apply initialState_wf | ].
  unfold initialState; cbn [sinking active holeTriggered end_ isAiming dragStart
                             ballPos velocity obstacles].
  split; [ intros _; apply spawn_inBounds | ].
  split; [ discriminate | ].
  split; [ reflexivity | ]. split; [ exact H | discriminate ].
Qed.

Ltac clear_of_walls :=
  unfold clearOfWalls, dataOr; simpl;
  rewrite ?jsOr_nonzero by lra;
  unfold Rabs; repeat destruct (Rcase_abs _);
  unfold_consts; repeat split; try reflexivity; lra.

Lemma levelObstacles_clear (lvl : nat) : Forall clearOfWalls (levelObstacles lvl).
Proof.
  destruct lvl as [ | [ | [ | [ | [ | [ | n ] ] ] ] ] ]; simpl;
    repeat constructor; clear_of_walls.
Qed.

Lemma levelHole_onCourse (lvl : nat) : holeOnCourse (levelHole lvl).
Proof.
  unfold holeOnCourse.
  destruct lvl as [ | [ | [ | [ | [ | [ | n ] ] ] ] ] ]; simpl;
    unfold_consts; try (right; lra); left; lra.
Qed.

(** ** A shot into the +x wall of level 1 *)

Lemma wall_shot_impulse :
  Vec3.add Vec3.zero
    (releaseImpulse (Vec3.subVectors shotDown (Vec3.mk (-6) 0 0)))
  = Vec3.mk 30 0 0.
Proof.
  assert (L : Vec3.length (Vec3.subVectors shotDown (Vec3.mk (-6) 0 0)) = 6).
  { unfold Vec3.length, Vec3.lengthSq, shotDown, Vec3.zero; simpl.
    apply sqrt_of_square; lra. }
  unfold releaseImpulse, Vec3.setLength, Vec3.normalize. rewrite L.
  rewrite jsOr_nonzero by lra. rewrite Rmin_left by lra.
  unfold Vec3.add, Vec3.multiplyScalar, Vec3.divideScalar, Vec3.subVectors, Vec3.sub,
    shotDown, Vec3.zero; simpl.
  apply Vec3Facts.mk_ext; lra.
Qed.

(** One second at 30 units per second: friction takes 1.5, the ball
    would reach x = 28.5, and the +x wall test puts it at the limit and
    turns the velocity to -0.8 times 28.5. *)
Lemma wall_shot_physics :
  physics 1 1 [] (Vec3.mk 0 BALL_RADIUS 0) (Vec3.mk 30 0 0)
    = (Vec3.mk COURSE_LIMIT 0.6 0, Vec3.mk (-22.8) 0 0, []).
Proof.
  rewrite physics_unfold.
  assert (F : frameFriction 1 [] (Vec3.mk 0 BALL_RADIUS 0) = 1.5) by reflexivity.
  rewrite F.
  assert (G : EPS < Vec3.lengthSq (Vec3.mk 30 0 0)).
  { unfold EPS, Vec3.lengthSq; simpl; lra. }
  assert (L : Vec3.length (Vec3.mk 30 0 0) = 30).
  { unfold Vec3.length, Vec3.lengthSq; simpl. apply sqrt_of_square; lra. }
  assert (I : integrate 1.5 1 (Vec3.mk 0 BALL_RADIUS 0) (Vec3.mk 30 0 0)
              = (Vec3.mk COURSE_LIMIT 0.6 0, Vec3.mk (-22.8) 0 0)).
  { rewrite integrate_guard_true by exact G.
    unfold decayAndTranslate.
    rewrite Vec3Facts.setLength_moving by (pose proof EPS_pos; lra).
    rewrite L, Rmax_right by lra.
    rewrite wallCollisions_spec, !spec_clampAxis_cases.
    unfold spec_bounceAxis, Vec3.addScaledVector, Vec3.multiplyScalar, BALL_RADIUS;
      simpl.
    pose proof COURSE_LIMIT_value as HL.
    set (Lm := COURSE_LIMIT) in *.
    assert (X : 0 + 30 * ((30 - 1.5 * 1) / 30) * 1 = 28.5) by lra.
    assert (Z : 0 + 0 * ((30 - 1.5 * 1) / 30) * 1 = 0) by lra.
    rewrite X, Z.
    rewrite (proj2 (Rltb_false 28.5 (- Lm))) by lra.
    rewrite (proj2 (Rltb_true Lm 28.5)) by lra.
    rewrite (proj2 (Rltb_false 0 (- Lm))) by lra.
    rewrite (proj2 (Rltb_false Lm 0)) by lra. simpl.
    f_equal; apply Vec3Facts.mk_ext; lra. }
  rewrite I. reflexivity.
Qed.

Lemma wall_shot_run :
  run (levelEnv 1)
    [PointerDown shotDown; PointerUp (Vec3.mk (-6) 0 0); Frame 1]
    (initialState (levelObstacles 1))
  = Some (mkState (Vec3.mk COURSE_LIMIT 0.6 0) 1 (Vec3.mk (-22.8) 0 0)
            (mkSinking false 0 None None) false [] (0 + 1) false (Some shotDown)
            0 1).
Proof.
  unfold run, step, onPointerDown, initialState; cbn [ballPos levelObstacles].
  rewrite shot_pointer_down.
  unfold onPointerUp; simpl negb; cbv iota.
  cbn [dragStart velocity]. rewrite wall_shot_impulse.
  cbn [setStrokesIsFn levelEnv strokes ballPos ballScale sinking holeTriggered
       obstacles obstacleTime holeCompleteCalls].
  unfold animate; cbn [sinking active negb obstacles map ballPos velocity level levelEnv
                       obstacleTime ballScale holeTriggered holeCompleteCalls
                       isAiming dragStart strokes].
  rewrite wall_shot_physics.
  assert (D : holeDetection (levelEnv 1) (Vec3.mk COURSE_LIMIT 0.6 0)
                (Vec3.mk (-22.8) 0 0) (mkSinking false 0 None None) false
              = (Vec3.mk (-22.8) 0 0, mkSinking false 0 None None, false)).
  { unfold holeDetection; cbn [holeDone levelEnv active negb andb holePosition levelHole].
    assert (N : Rltb (Vec3.distanceTo (Vec3.mk COURSE_LIMIT 0.6 0) (Vec3.mk 5 0.05 (-3)))
                  HOLE_RADIUS = false).
    { apply Rltb_false.
      pose proof (distanceTo_depth (Vec3.mk COURSE_LIMIT 0.6 0) (Vec3.mk 5 0.05 (-3)))
        as Dz.
      apply Rabs_le_inv in Dz. cbn [Vec3.z] in Dz.
      set (d := Vec3.distanceTo _ _) in *. unfold HOLE_RADIUS, BALL_RADIUS. lra. }
    rewrite N. reflexivity. }
  rewrite D. rewrite sinkingStep_inactive by reflexivity. reflexivity.
Qed.

(** C2: the ball never leaves the course.  On every level, from the
    state the setup leaves, after any sequence of frames, aim gestures
    with the pointer on the ground, and retries, the handlers return a
    state whose ball, when no sink is running, has every component of
    its position within [[-limit, limit]], with limit = COURSE_SIZE/2 -
    0.6; in any further frame the position that the physics update
    computes again has every component within the limit, and so has the
    ball at the end of that frame unless the frame starts a sink.  The
    obstacles of every level are and stay clear of the walls, and the
    velocity stays horizontal.  For one physics update by itself, on
    obstacles clear of the walls: from every pre-step position and
    every velocity a performed step (squared speed above the epsilon)
    leaves x and z within the limit, right after the wall tests and
    after the obstacle resolution; a step skipped below the epsilon
    leaves position and velocity as they were; and from every pre-step
    position within the limit, with any horizontal velocity, performed
    or skipped, every component is within the limit after the
    update. *)
Theorem C2_position_bounds (env : Env) (es : list Event) :
  holePosition env = levelHole (level env) ->
  Forall groundPointer es ->
  COURSE_LIMIT = COURSE_SIZE / 2 - 0.6 /\
  Forall clearOfWalls (levelObstacles (level env)) /\
  (exists s : State,
     run env es (initialState (levelObstacles (level env))) = Some s /\
     (active (sinking s) = false -> inBounds (ballPos s)) /\
     Vec3.y (velocity s) = 0 /\
     Forall clearOfWalls (obstacles s) /\
     (forall dt : R,
        active (sinking s) = false ->
        inBounds (postPhysics env dt s) /\
        exists s' : State,
          animate env dt s = Some s' /\
          (active (sinking s') = false -> inBounds (ballPos s')))) /\
  (forall (lvl : nat) (f dt : R) (os : list Obstacle) (p v : Vec),
     (EPS < Vec3.lengthSq v -> insideCourse (fst (integrate f dt p v))) /\
     (Vec3.lengthSq v <= EPS -> integrate f dt p v = (p, v)) /\
     (Forall clearOfWalls os -> EPS < Vec3.lengthSq v ->
      insideCourse (fst (fst (physics lvl dt os p v)))) /\
     (Forall clearOfWalls os -> inBounds p -> Vec3.y v = 0 ->
      inBounds (fst (fst (physics lvl dt os p v))))).
Proof.
  intros Hh Hg.
  assert (Hole : holeOnCourse (holePosition env)).
  { rewrite Hh. apply levelHole_onCourse. }
  split; [ reflexivity | ].
  split; [ apply levelObstacles_clear | ]. split.
  - destruct (run_onCourse env Hole es (initialState (levelObstacles (level env)))
                (initialState_onCourse _ (levelObstacles_clear (level env))) Hg)
      as (s & E & Hs).
    exists s. split; [ exact E | ].
    destruct Hs as (Hwf & Hpos & Hend & Hv & Hos & Hds).
    split; [ exact Hpos | ]. split; [ exact Hv | ]. split; [ exact Hos | ].
    intros dt Ha.
    destruct (animate_onCourse env Hole dt s
                (conj Hwf (conj Hpos (conj Hend (conj Hv (conj Hos Hds))))))
      as (s' & E' & Hs' & Hp).
    split; [ exact (Hp Ha) | ].
    exists s'. split; [ exact E' | exact (proj1 (proj2 Hs')) ].
  - intros lvl f dt os p v.
    split; [ apply integrate_inside | ].
    split; [ apply integrate_guard_false | ].
    split.
    + intros Hos G.
      exact (proj1 (physics_bounds lvl dt os p v Hos (or_introl G))).
    + intros Hos (Bx & By & Bz) Hv.
      destruct (physics_bounds lvl dt os p v Hos (or_intror (conj Bx Bz)))
        as (_ & _ & YV).
      exact (proj1 (YV Hv By)).
Qed.

(** On level 1 a shot of full power along +x: within one second the
    ball crosses the +x limit, the wall test puts it at x = limit, and
    the state is within the limit on every axis. *)
Lemma C2_position_bounds_witness :
  exists s : State,
    run (levelEnv 1) [PointerDown shotDown; PointerUp (Vec3.mk (-6) 0 0); Frame 1]
        (initialState (levelObstacles 1)) = Some s /\
    inBounds (ballPos s) /\
    Vec3.x (ballPos s) = COURSE_LIMIT /\
    Vec3.x (velocity s) = -22.8 /\
    inBounds (postPhysics (levelEnv 1) 1 s).
Proof.
  assert (G : Forall groundPointer
                [PointerDown shotDown; PointerUp (Vec3.mk (-6) 0 0); Frame 1]).
  { repeat constructor. }
  destruct (C2_position_bounds (levelEnv 1)
              [PointerDown shotDown; PointerUp (Vec3.mk (-6) 0 0); Frame 1]
              eq_refl G) as (_ & _ & (s & E & Hb & _ & _ & Hf) & _).
  cbn [level levelEnv] in E.
  assert (E0 := E). rewrite wall_shot_run in E. injection E as <-.
  eexists. split; [ exact E0 | ].
  split; [ apply Hb; reflexivity | ].
  split; [ reflexivity | ]. split; [ reflexivity | ].
  exact (proj1 (Hf 1 eq_refl)).
Defined.
